(** * Traffic scenario builder: trajectory interpolation, playback clock,
      video export, project files, road locking and entity identifiers

    Shallow embedding of the vehicle trajectory editors of the repository:
    - [Fixed]      embeds [vehicle_editor_fixed.py]  (the repaired editor),
    - [V3]         embeds [vehicle_editor_v3.py]     (its predecessor),
    - [WithAssets] embeds [vehicle_editor_with_assets.py] (the first editor,
                   the only one with a [load_project]).

    Numbers.  Python's [int] and [float] values are embedded as rationals
    [Q]: a binary64 number is the rational it denotes, comparisons are the
    boolean comparisons of [Q], and positions are compared with [pos_eq]
    (rational equality on both coordinates).  Where a computed number decides
    which branch is taken or how many frames are written, the operation is
    rounded as binary64 rounds it ([fadd], [fmul], [fdiv] below): the
    departure time [arrival + pause] of a waypoint, the playback clock
    [current_time + 0.033] and its slider value, the frame count
    [int(duration * fps)] and the frame time [frame_idx / fps] of
    [vehicle_editor_fixed.py].  Coordinates, and the clocks of the two older
    editors, are computed exactly; there the program's value differs from the
    model's in the last places, and the statements that depend on a
    comparison against such a value say for which inputs they are made. *)

From Stdlib Require Import String QArith Qround Qminmax Qpower ZArith Bool List Lia Lqa.
Import ListNotations.
Open Scope Q_scope.

(** ** Python primitives used by the editors *)

(** [a < b] on numbers. *)
Definition Qlt_bool (a b : Q) : bool := negb (Qle_bool b a).

(** [int(q)]: truncation toward zero. *)
Definition py_int (q : Q) : Z := Z.quot (Qnum q) (Zpos (Qden q)).

(** [range(n)]: empty when [n <= 0]. *)
Definition py_range (n : Z) : list nat := seq 0 (Z.to_nat n).

(** A [for] loop whose body may [return]: the first returned value wins. *)
Fixpoint for_return {A R : Type} (xs : list A) (body : A -> option R) : option R :=
  match xs with
  | [] => None
  | x :: xs' =>
      match body x with
      | Some r => Some r
      | None => for_return xs' body
      end
  end.

(** [max(acc, v)] keeps [acc] unless [v] is strictly larger: this is [Qmax]. *)
Definition py_max (acc v : Q) : Q := Qmax acc v.

(** [max(generator)] over a non-empty sequence, [min(generator)] likewise;
    [None] stands for the [ValueError] on an empty sequence. *)
Definition py_max_of (l : list Q) : option Q :=
  match l with
  | [] => None
  | v :: vs => Some (fold_left py_max vs v)
  end.

Definition py_min_of (l : list Q) : option Q :=
  match l with
  | [] => None
  | v :: vs => Some (fold_left Qmin vs v)
  end.

(** ** Binary64 arithmetic

    Python's [float] is IEEE 754 binary64: 53 significant bits, rounding to
    the nearest number, ties to the even one.  Infinities are not modelled:
    beyond the largest finite number (about 1.8e308) [fl] keeps rounding to
    53 bits. *)

(** [2 ^ e] for an integer exponent of either sign. *)
Definition pow2 (e : Z) : Q := 2 ^ e.

(** The integer nearest to [q], ties to the even one. *)
Definition round_half_even (q : Q) : Z :=
  let f := Qfloor q in
  match Qcompare (q - inject_Z f) (1 # 2) with
  | Lt => f
  | Gt => (f + 1)%Z
  | Eq => if Z.even f then f else (f + 1)%Z
  end.

(** [floor (log2 q)] for [q > 0]. *)
Definition floor_log2 (q : Q) : Z :=
  let k := (Z.log2 (Qnum q) - Z.log2 (Zpos (Qden q)))%Z in
  if Qle_bool (pow2 k) q then k else (k - 1)%Z.

(** The exponent of the unit in the last place of the binary64 numbers
    around [q > 0]: 53 significant bits, and no exponent below [-1074], the
    exponent of the subnormal numbers. *)
Definition ulp_exponent (q : Q) : Z := Z.max (floor_log2 q - 52) (-1074).

Definition round_positive (q : Q) : Q :=
  let e := ulp_exponent q in
  Qred (inject_Z (round_half_even (q / pow2 e)) * pow2 e).

(** The binary64 number nearest to [q]. *)
Definition fl (q : Q) : Q :=
  let q := Qred q in
  match Qcompare q 0 with
  | Eq => 0
  | Gt => round_positive q
  | Lt => - round_positive (- q)
  end.

(** [q] is a binary64 number. *)
Definition is_float (q : Q) : bool := Qeq_bool (fl q) q.

(** [a + b], [a * b] and [a / b] on floats. *)
Definition fadd (a b : Q) : Q := fl (a + b).
Definition fmul (a b : Q) : Q := fl (a * b).
Definition fdiv (a b : Q) : Q := fl (a / b).

(** A position returned by the interpolator. *)
Definition Position : Type := (Q * Q)%type.

Definition pos_eq (p q : Position) : Prop := fst p == fst q /\ snd p == snd q.

(** Only the size of a [QPixmap] is observable in the code modelled here. *)
Record Pixmap : Type := { width : Z; height : Z }.

(** [QRectF]: top-left corner and size. *)
Record Rect : Type := { rect_x : Q; rect_y : Q; rect_w : Q; rect_h : Q }.

(** The value handed to [json.dump] / returned by [json.load]. *)
Unset Elimination Schemes.
Inductive json : Type :=
  | JNum (q : Q)
  | JStr (s : string)
  | JBool (b : bool)
  | JArr (items : list json)
  | JObj (fields : list (string * json)).
Set Elimination Schemes.

(** [dict.get(key)] on the fields of a JSON object. *)
Fixpoint json_get (key : string) (fields : list (string * json)) : option json :=
  match fields with
  | [] => None
  | (k, v) :: rest => if String.eqb k key then Some v else json_get key rest
  end.

(** How a call ends: it returns, or an exception leaves it. *)
Inductive Exception : Type :=
  | NullImage (frame_idx : nat)       (* [ptr.setsize] on the [None] of a null image *)
  | ReshapeFailed (frame_idx : nat)   (* [ValueError] of [reshape((height, width, 3))] *)
  | NotAnObject                       (* [data.get] on a document that is no dict *)
  | BadMaxTime.                       (* ['max_time'] is not a number *)

Inductive Outcome : Type :=
  | Returned
  | Raised (exc : Exception).

(** [del l[i]], and [l.remove(o)] for the object [o] stored at index [i]. *)
Definition remove_at {A : Type} (i : nat) (l : list A) : list A :=
  firstn i l ++ skipn (S i) l.

(** [l[i] = f(l[i])]: an in-place mutation of the object stored at index [i]. *)
Fixpoint update_at {A : Type} (i : nat) (f : A -> A) (l : list A) : list A :=
  match l, i with
  | [], _ => []
  | a :: l', O => f a :: l'
  | a :: l', S i' => a :: update_at i' f l'
  end.

(** ** vehicle_editor_fixed.py *)
Module Fixed.

Record TrajectoryPoint : Type := {
  pt_x : Q;
  pt_y : Q;
  pt_time : Q;            (* arrival time at the point, seconds *)
  pause_duration : Q      (* time spent at the point, seconds *)
}.

Record Vehicle : Type := {
  v_id : Z;
  v_pixmap : Pixmap;
  v_name : string;
  v_scale : Q;
  trajectory : list TrajectoryPoint
}.

Definition add_trajectory_point (v : Vehicle) (x y time pause : Q) : Vehicle :=
  {| v_id := v_id v; v_pixmap := v_pixmap v; v_name := v_name v; v_scale := v_scale v;
     trajectory := trajectory v ++ [ {| pt_x := x; pt_y := y; pt_time := time;
                                        pause_duration := pause |} ] |}.

Definition at_point (p : TrajectoryPoint) : Position := (pt_x p, pt_y p).

(** The travel from [point] (left at [departure_time]) to [next_point]:
    the zero-duration guard followed by the linear interpolation.  The source
    writes these five lines twice, once per branch of the loop body. *)
Definition travel (point next_point : TrajectoryPoint) (departure_time t : Q) : Position :=
  if Qeq_bool (pt_time next_point - departure_time) 0 then at_point point
  else
    let ratio := (t - departure_time) / (pt_time next_point - departure_time) in
    (pt_x point + (pt_x next_point - pt_x point) * ratio,
     pt_y point + (pt_y next_point - pt_y point) * ratio).

(** [point.time + point.pause_duration]: the float sum the source compares
    [t] with, and starts the travel to the next waypoint from. *)
Definition departure_time (point : TrajectoryPoint) : Q :=
  fadd (pt_time point) (pause_duration point).

(** Body of [for i in range(len(self.trajectory))]: [Some] is a [return]. *)
Definition position_step (traj : list TrajectoryPoint) (t : Q) (i : nat) : option Position :=
  match nth_error traj i with
  | None => None
  | Some point =>
      if (0 <? i)%nat then
        let arrival_time := pt_time point in
        if Qle_bool arrival_time t && Qle_bool t (departure_time point)
        then Some (at_point point)
        else if (i <? length traj - 1)%nat then
          match nth_error traj (i + 1) with
          | None => None
          | Some next_point =>
              if Qle_bool (departure_time point) t && Qle_bool t (pt_time next_point)
              then Some (travel point next_point (departure_time point) t)
              else None
          end
        else None
      else
        if Qle_bool t (departure_time point) then Some (at_point point)
        else if (1 <? length traj)%nat then
          match nth_error traj 1 with
          | None => None
          | Some next_point =>
              if Qle_bool t (pt_time next_point)
              then Some (travel point next_point (departure_time point) t)
              else None
          end
        else None
  end.

(** [Vehicle.get_position_at_time], on the vehicle's waypoint list. *)
Definition get_position_at_time (traj : list TrajectoryPoint) (t : Q) : Position :=
  match traj with
  | [] => (100, 100)
  | first :: _ =>
      if (length traj =? 1)%nat then at_point first
      else if Qle_bool t 0 then at_point first
      else
        match for_return (seq 0 (length traj)) (position_step traj t) with
        | Some p => p
        | None => at_point (last traj first)
        end
  end.

Record Camera : Type := {
  c_id : Z;
  c_pixmap : Pixmap;
  c_x : Q;
  c_y : Q;
  c_scale : Q
}.

Record TextLabel : Type := {
  l_text : string;
  l_x : Q;
  l_y : Q;
  font_size : Z;
  color : string
}.

Record Road : Type := {
  r_id : Z;
  r_pixmap : Pixmap;
  r_x : Q;
  r_y : Q;
  locked : bool
}.

(** The texts given to [update_status]. *)
Inductive Message : Type :=
  | MsgReady
  | MsgRoadAdded (id : Z)
  | MsgRoadRemoved
  | MsgRoadSelected (id : Z)
  | MsgRoadLockToggled (id : Z) (now_locked : bool)
  | MsgRoadMoved (id : Z) (y : Q)
  | MsgRoadLockedCannotMove (id : Z)
  | MsgVehicleAdded (name : string) (id : Z)
  | MsgVehicleSelected (id : Z) (name : string)
  | MsgVehicleRemoved
  | MsgCameraAdded (id : Z)
  | MsgCameraRemoved
  | MsgViewFitted (total_width total_height : Q)
  | MsgProjectSaved (filename : string)
  | MsgVideoExported (filename : string).

(** The message boxes shown to the operator ([QMessageBox.information] and
    [QMessageBox.warning]); the answer to a [QMessageBox.question] is an
    argument of the operation that asks it. *)
Inductive Dialog : Type :=
  | InfoSelectRoadFirst
  | WarnRoadLockedCannotRemove
  | WarnNoRoadAsset
  | InfoSelectVehicleAssetFirst
  | InfoSelectVehicleFirst
  | WarnNoCameraAsset
  | InfoSelectCameraFirst
  | InfoProjectSaved (filename : string)
  | InfoVideoExported (filename : string).

(** The items put on the [QGraphicsScene] by [redraw_scene], in z-order.
    Camera and vehicle items are centre-anchored: the item records the centre
    and the scale, Qt derives the corner from the scaled pixmap. *)
Inductive DrawItem : Type :=
  | RoadItem (id : Z) (x y : Q)
  | CameraItem (id : Z) (scale cx cy : Q)
  | TrajectoryLine (x1 y1 x2 y2 : Q)
  | TrajectoryDot (x y : Q)
  | VehicleItem (id : Z) (draggable : bool) (scale cx cy : Q)
  | TextItem (text : string) (x y : Q) (size : Z) (colour : string).

(** The fields of [VehicleEditor], grouped as [__init__] groups them. *)
Record EntityStore : Type := {
  roads : list Road;
  vehicles : list Vehicle;
  cameras : list Camera;
  text_labels : list TextLabel;
  next_vehicle_id : Z;
  next_camera_id : Z;
  next_road_id : Z
}.

Record Assets : Type := {
  vehicle_pixmaps : list (string * Pixmap);
  camera_pixmaps : list Pixmap;
  road_pixmaps : list Pixmap
}.

Record ViewState : Type := {
  left_margin : Q;
  top_margin : Q;
  current_time : Q;
  max_time : Q;
  is_playing : bool;
  show_trajectory : bool;
  time_slider : Z;
  scene_items : list DrawItem;
  scene_rect : Rect
}.

(** A selected object is a reference to an element of its list.  Between a
    selection and the removal that clears it the list only grows at its end,
    so the reference is the element's index. *)
Record Selection : Type := {
  selected_vehicle : option nat;
  selected_road : option nat
}.

Record VehicleEditor : Type := {
  store : EntityStore;
  assets : Assets;
  view : ViewState;
  selection : Selection;
  status_label : Message;
  dialogs : list Dialog
}.

(** *** Field updates *)

Definition set_store (s : EntityStore) (e : VehicleEditor) : VehicleEditor :=
  {| store := s; assets := assets e; view := view e; selection := selection e;
     status_label := status_label e; dialogs := dialogs e |}.

Definition set_view (v : ViewState) (e : VehicleEditor) : VehicleEditor :=
  {| store := store e; assets := assets e; view := v; selection := selection e;
     status_label := status_label e; dialogs := dialogs e |}.

Definition set_selection (s : Selection) (e : VehicleEditor) : VehicleEditor :=
  {| store := store e; assets := assets e; view := view e; selection := s;
     status_label := status_label e; dialogs := dialogs e |}.

Definition update_status (m : Message) (e : VehicleEditor) : VehicleEditor :=
  {| store := store e; assets := assets e; view := view e; selection := selection e;
     status_label := m; dialogs := dialogs e |}.

Definition show_dialog (d : Dialog) (e : VehicleEditor) : VehicleEditor :=
  {| store := store e; assets := assets e; view := view e; selection := selection e;
     status_label := status_label e; dialogs := dialogs e ++ [d] |}.

Definition set_roads (l : list Road) (s : EntityStore) : EntityStore :=
  {| roads := l; vehicles := vehicles s; cameras := cameras s;
     text_labels := text_labels s; next_vehicle_id := next_vehicle_id s;
     next_camera_id := next_camera_id s; next_road_id := next_road_id s |}.

Definition set_vehicles (l : list Vehicle) (s : EntityStore) : EntityStore :=
  {| roads := roads s; vehicles := l; cameras := cameras s;
     text_labels := text_labels s; next_vehicle_id := next_vehicle_id s;
     next_camera_id := next_camera_id s; next_road_id := next_road_id s |}.

Definition set_cameras (l : list Camera) (s : EntityStore) : EntityStore :=
  {| roads := roads s; vehicles := vehicles s; cameras := l;
     text_labels := text_labels s; next_vehicle_id := next_vehicle_id s;
     next_camera_id := next_camera_id s; next_road_id := next_road_id s |}.

Definition set_next_vehicle_id (n : Z) (s : EntityStore) : EntityStore :=
  {| roads := roads s; vehicles := vehicles s; cameras := cameras s;
     text_labels := text_labels s; next_vehicle_id := n;
     next_camera_id := next_camera_id s; next_road_id := next_road_id s |}.

Definition set_next_camera_id (n : Z) (s : EntityStore) : EntityStore :=
  {| roads := roads s; vehicles := vehicles s; cameras := cameras s;
     text_labels := text_labels s; next_vehicle_id := next_vehicle_id s;
     next_camera_id := n; next_road_id := next_road_id s |}.

Definition set_next_road_id (n : Z) (s : EntityStore) : EntityStore :=
  {| roads := roads s; vehicles := vehicles s; cameras := cameras s;
     text_labels := text_labels s; next_vehicle_id := next_vehicle_id s;
     next_camera_id := next_camera_id s; next_road_id := n |}.

Definition set_current_time (t : Q) (v : ViewState) : ViewState :=
  {| left_margin := left_margin v; top_margin := top_margin v; current_time := t;
     max_time := max_time v; is_playing := is_playing v;
     show_trajectory := show_trajectory v; time_slider := time_slider v;
     scene_items := scene_items v; scene_rect := scene_rect v |}.

Definition set_max_time (t : Q) (v : ViewState) : ViewState :=
  {| left_margin := left_margin v; top_margin := top_margin v;
     current_time := current_time v; max_time := t; is_playing := is_playing v;
     show_trajectory := show_trajectory v; time_slider := time_slider v;
     scene_items := scene_items v; scene_rect := scene_rect v |}.

Definition set_is_playing (b : bool) (v : ViewState) : ViewState :=
  {| left_margin := left_margin v; top_margin := top_margin v;
     current_time := current_time v; max_time := max_time v; is_playing := b;
     show_trajectory := show_trajectory v; time_slider := time_slider v;
     scene_items := scene_items v; scene_rect := scene_rect v |}.

Definition set_show_trajectory (b : bool) (v : ViewState) : ViewState :=
  {| left_margin := left_margin v; top_margin := top_margin v;
     current_time := current_time v; max_time := max_time v;
     is_playing := is_playing v; show_trajectory := b; time_slider := time_slider v;
     scene_items := scene_items v; scene_rect := scene_rect v |}.

Definition set_time_slider (z : Z) (v : ViewState) : ViewState :=
  {| left_margin := left_margin v; top_margin := top_margin v;
     current_time := current_time v; max_time := max_time v;
     is_playing := is_playing v; show_trajectory := show_trajectory v;
     time_slider := z; scene_items := scene_items v; scene_rect := scene_rect v |}.

Definition set_scene_items (l : list DrawItem) (v : ViewState) : ViewState :=
  {| left_margin := left_margin v; top_margin := top_margin v;
     current_time := current_time v; max_time := max_time v;
     is_playing := is_playing v; show_trajectory := show_trajectory v;
     time_slider := time_slider v; scene_items := l; scene_rect := scene_rect v |}.

Definition set_scene_rect (r : Rect) (v : ViewState) : ViewState :=
  {| left_margin := left_margin v; top_margin := top_margin v;
     current_time := current_time v; max_time := max_time v;
     is_playing := is_playing v; show_trajectory := show_trajectory v;
     time_slider := time_slider v; scene_items := scene_items v; scene_rect := r |}.

Definition set_road_xy (x y : Q) (r : Road) : Road :=
  {| r_id := r_id r; r_pixmap := r_pixmap r; r_x := x; r_y := y; locked := locked r |}.

Definition set_locked (b : bool) (r : Road) : Road :=
  {| r_id := r_id r; r_pixmap := r_pixmap r; r_x := r_x r; r_y := r_y r; locked := b |}.

(** The far corner of a road's rectangle: [r.x + r.pixmap.width()], etc. *)
Definition road_right (r : Road) : Q := r_x r + inject_Z (width (r_pixmap r)).
Definition road_bottom (r : Road) : Q := r_y r + inject_Z (height (r_pixmap r)).

(** *** The scene: [redraw_scene] and [fit_view_to_roads] *)

(** [for i in range(len(trajectory) - 1)]: the pairs of consecutive points. *)
Definition segments (traj : list TrajectoryPoint) : list (TrajectoryPoint * TrajectoryPoint) :=
  combine traj (tl traj).

(** The dashed polyline and the marker dots of one vehicle. *)
Definition draw_trajectory (traj : list TrajectoryPoint) : list DrawItem :=
  map (fun s => TrajectoryLine (pt_x (fst s)) (pt_y (fst s)) (pt_x (snd s)) (pt_y (snd s)))
      (segments traj)
  ++ map (fun p => TrajectoryDot (pt_x p) (pt_y p)) traj.

(** One round of [for vehicle in self.vehicles] in [redraw_scene]. *)
Definition draw_vehicle (v : ViewState) (vehicle : Vehicle) : list DrawItem :=
  (if show_trajectory v && negb (is_playing v) && (1 <? length (trajectory vehicle))%nat
   then draw_trajectory (trajectory vehicle) else [])
  ++ (if (length (trajectory vehicle) <=? 1)%nat then
        let xy := match trajectory vehicle with
                  | p :: _ => (pt_x p, pt_y p)
                  | [] => (100 + inject_Z (v_id vehicle) * 50, 150)
                  end in
        [VehicleItem (v_id vehicle) true (v_scale vehicle) (fst xy) (snd xy)]
      else
        let xy := get_position_at_time (trajectory vehicle) (current_time v) in
        [VehicleItem (v_id vehicle) false (v_scale vehicle) (fst xy) (snd xy)]).

Definition compose_scene (e : VehicleEditor) : list DrawItem :=
  map (fun r => RoadItem (r_id r) (r_x r) (r_y r)) (roads (store e))
  ++ map (fun c => CameraItem (c_id c) (c_scale c) (c_x c) (c_y c)) (cameras (store e))
  ++ flat_map (draw_vehicle (view e)) (vehicles (store e))
  ++ map (fun l => TextItem (l_text l) (l_x l) (l_y l) (font_size l) (color l))
         (text_labels (store e)).

(** [redraw_scene]: rebuild the scene; when there are roads, reset the scene
    rectangle to the origin-anchored box of lines 1003-1007. *)
Definition redraw_scene (e : VehicleEditor) : VehicleEditor :=
  let e := set_view (set_scene_items (compose_scene e) (view e)) e in
  match py_max_of (map road_right (roads (store e))),
        py_max_of (map road_bottom (roads (store e))) with
  | Some mx, Some my =>
      let total_width := mx + 200 in
      let total_height := my + 100 in
      set_view (set_scene_rect {| rect_x := 0; rect_y := 0;
                                  rect_w := total_width; rect_h := total_height |}
                               (view e)) e
  | _, _ => e
  end.

(** The local [margin = 100] of [fit_view_to_roads]. *)
Definition margin : Q := 100.

(** The rectangle [fit_view_to_roads] hands to [setSceneRect]. *)
Definition fit_rect (rs : list Road) : option Rect :=
  match py_min_of (map r_x rs), py_min_of (map r_y rs),
        py_max_of (map road_right rs), py_max_of (map road_bottom rs) with
  | Some min_x, Some min_y, Some max_x, Some max_y =>
      let total_width := max_x - min_x + margin * 2 in
      let total_height := max_y - min_y + margin * 2 in
      Some {| rect_x := min_x - margin; rect_y := min_y - margin;
              rect_w := total_width; rect_h := total_height |}
  | _, _, _, _ => None
  end.

Definition fit_view_to_roads (e : VehicleEditor) : VehicleEditor :=
  match fit_rect (roads (store e)) with
  | None => e
  | Some r =>
      update_status (MsgViewFitted (rect_w r) (rect_h r))
        (set_view (set_scene_rect r (view e)) e)
  end.

(** *** Roads *)

Definition add_road (x y : Q) (e : VehicleEditor) : VehicleEditor :=
  match road_pixmaps (assets e) with
  | [] => show_dialog WarnNoRoadAsset e
  | pixmap :: _ =>
      let road_id := next_road_id (store e) in
      let s := set_next_road_id (road_id + 1) (store e) in
      let road := {| r_id := road_id; r_pixmap := pixmap; r_x := x; r_y := y;
                     locked := false |} in
      let s := set_roads (roads s ++ [road]) s in
      redraw_scene (update_status (MsgRoadAdded road_id) (set_store s e))
  end.

Definition add_road_interactive (e : VehicleEditor) : VehicleEditor :=
  let e :=
    match roads (store e) with
    | [] => add_road (left_margin (view e)) (top_margin (view e)) e
    | r0 :: _ =>
        let last_road := last (roads (store e)) r0 in
        add_road (left_margin (view e)) (road_bottom last_road) e
    end in
  fit_view_to_roads e.

(** The road a selection refers to. *)
Definition the_selected_road (e : VehicleEditor) : option Road :=
  match selected_road (selection e) with
  | None => None
  | Some i => nth_error (roads (store e)) i
  end.

Definition clear_selected_road (e : VehicleEditor) : VehicleEditor :=
  set_selection {| selected_vehicle := selected_vehicle (selection e);
                   selected_road := None |} e.

(** [remove_road]; [reply] is the operator's answer to the confirmation. *)
Definition remove_road (reply : bool) (e : VehicleEditor) : VehicleEditor :=
  match selected_road (selection e), the_selected_road e with
  | Some i, Some road =>
      if locked road then show_dialog WarnRoadLockedCannotRemove e
      else if reply then
        let e := set_store (set_roads (remove_at i (roads (store e))) (store e)) e in
        let e := clear_selected_road e in
        let e := update_status MsgRoadRemoved e in
        fit_view_to_roads (redraw_scene e)
      else e
  | _, _ => show_dialog InfoSelectRoadFirst e
  end.

Definition on_road_selected (idx : nat) (e : VehicleEditor) : VehicleEditor :=
  match nth_error (roads (store e)) idx with
  | Some road =>
      update_status (MsgRoadSelected (r_id road))
        (set_selection {| selected_vehicle := selected_vehicle (selection e);
                          selected_road := Some idx |} e)
  | None => e
  end.

(** [toggle_lock_road]; [checked] is the state of the lock button. *)
Definition toggle_lock_road (checked : bool) (e : VehicleEditor) : VehicleEditor :=
  match selected_road (selection e), the_selected_road e with
  | Some i, Some road =>
      update_status (MsgRoadLockToggled (r_id road) checked)
        (set_store (set_roads (update_at i (set_locked checked) (roads (store e)))
                              (store e)) e)
  | _, _ => show_dialog InfoSelectRoadFirst e
  end.

(** [DraggablePixmapItem.mouseReleaseEvent] for an item of type ["road"]
    whose [data_object] is the road at index [i], dropped at [(px, py)]. *)
Definition road_mouse_release (i : nat) (px py : Q) (e : VehicleEditor) : VehicleEditor :=
  match nth_error (roads (store e)) i with
  | None => e
  | Some road =>
      if negb (locked road) then
        update_status (MsgRoadMoved (r_id road) py)
          (set_store (set_roads (update_at i (set_road_xy px py) (roads (store e)))
                                (store e)) e)
      else update_status (MsgRoadLockedCannotMove (r_id road)) e
  end.

(** *** Vehicles and cameras *)

(** [self.vehicle_pixmaps[name]] *)
Fixpoint lookup_pixmap (name : string) (d : list (string * Pixmap)) : option Pixmap :=
  match d with
  | [] => None
  | (k, p) :: rest => if String.eqb k name then Some p else lookup_pixmap name rest
  end.

(** [add_vehicle_to_scene]; [selected] is the current item of the asset list. *)
Definition add_vehicle_to_scene (selected : option string) (e : VehicleEditor)
    : VehicleEditor :=
  match selected with
  | None => show_dialog InfoSelectVehicleAssetFirst e
  | Some vehicle_name =>
      match lookup_pixmap vehicle_name (vehicle_pixmaps (assets e)) with
      | None => e      (* KeyError before any assignment *)
      | Some pixmap =>
          let vehicle_id := next_vehicle_id (store e) in
          let s := set_next_vehicle_id (vehicle_id + 1) (store e) in
          let vehicle := {| v_id := vehicle_id; v_pixmap := pixmap;
                            v_name := vehicle_name; v_scale := 1 # 2;
                            trajectory := [] |} in
          let s := set_vehicles (vehicles s ++ [vehicle]) s in
          redraw_scene (update_status (MsgVehicleAdded vehicle_name vehicle_id)
                                      (set_store s e))
      end
  end.

Definition on_vehicle_selected (idx : nat) (e : VehicleEditor) : VehicleEditor :=
  match nth_error (vehicles (store e)) idx with
  | Some vehicle =>
      update_status (MsgVehicleSelected (v_id vehicle) (v_name vehicle))
        (set_selection {| selected_vehicle := Some idx;
                          selected_road := selected_road (selection e) |} e)
  | None => e
  end.

Definition remove_vehicle (reply : bool) (e : VehicleEditor) : VehicleEditor :=
  match selected_vehicle (selection e) with
  | None => show_dialog InfoSelectVehicleFirst e
  | Some i =>
      if reply then
        let e := set_store (set_vehicles (remove_at i (vehicles (store e))) (store e)) e in
        let e := set_selection {| selected_vehicle := None;
                                  selected_road := selected_road (selection e) |} e in
        redraw_scene (update_status MsgVehicleRemoved e)
      else e
  end.

Definition add_camera_to_scene (e : VehicleEditor) : VehicleEditor :=
  match camera_pixmaps (assets e) with
  | [] => show_dialog WarnNoCameraAsset e
  | pixmap :: _ =>
      let x := 200 + inject_Z (next_camera_id (store e)) * 50 in
      let y := 100 in
      let camera_id := next_camera_id (store e) in
      let s := set_next_camera_id (camera_id + 1) (store e) in
      let camera := {| c_id := camera_id; c_pixmap := pixmap; c_x := x; c_y := y;
                       c_scale := 1 |} in
      let s := set_cameras (cameras s ++ [camera]) s in
      redraw_scene (update_status (MsgCameraAdded camera_id) (set_store s e))
  end.

(** [remove_camera]; [selected] is the row of the current item of the list. *)
Definition remove_camera (selected : option nat) (reply : bool) (e : VehicleEditor)
    : VehicleEditor :=
  match selected with
  | None => show_dialog InfoSelectCameraFirst e
  | Some idx =>
      match nth_error (cameras (store e)) idx with
      | None => e      (* IndexError while the question is built *)
      | Some _ =>
          if reply then
            let e := set_store (set_cameras (remove_at idx (cameras (store e)))
                                            (store e)) e in
            redraw_scene (update_status MsgCameraRemoved e)
          else e
      end
  end.

(** [VehicleEditor.__init__] after [load_assets] found [a]. *)
Definition init_editor (a : Assets) : VehicleEditor :=
  let e :=
    {| store := {| roads := []; vehicles := []; cameras := []; text_labels := [];
                   next_vehicle_id := 0; next_camera_id := 0; next_road_id := 0 |};
       assets := a;
       view := {| left_margin := 200; top_margin := 100; current_time := 0;
                  max_time := 10; is_playing := false; show_trajectory := true;
                  time_slider := 0; scene_items := [];
                  scene_rect := {| rect_x := 0; rect_y := 0; rect_w := 0; rect_h := 0 |} |};
       selection := {| selected_vehicle := None; selected_road := None |};
       status_label := MsgReady;
       dialogs := [] |} in
  match road_pixmaps a with
  | [] => e
  | _ :: _ => add_road (left_margin (view e)) (top_margin (view e)) e
  end.

(** *** Playback *)

Definition toggle_play (e : VehicleEditor) : VehicleEditor :=
  let v := view e in
  let v := if is_playing v
           then set_show_trajectory true (set_is_playing false v)
           else set_show_trajectory false (set_is_playing true v) in
  redraw_scene (set_view v e).

(** The loop of [update_animation] that computes [max_t]. *)
Definition last_arrival_fold (max_t : Q) (vehicle : Vehicle) : Q :=
  match trajectory vehicle with
  | [] => max_t
  | p :: _ => py_max max_t (pt_time (last (trajectory vehicle) p))
  end.

Definition compute_max_t (vs : list Vehicle) : Q := fold_left last_arrival_fold vs 0.

(** The literal [0.033]: the float nearest to 33/1000. *)
Definition time_step : Q := fl (33 # 1000).

(** The timer tick of the playback. *)
Definition update_animation (e : VehicleEditor) : VehicleEditor :=
  let v := view e in
  let v := set_current_time (fadd (current_time v) time_step) v in
  let max_t := compute_max_t (vehicles (store e)) in
  let v := if Qlt_bool 0 max_t then set_max_time max_t v else v in
  let v := if Qlt_bool (max_time v) (current_time v) then set_current_time 0 v else v in
  let slider_value :=
    py_int (fmul (fdiv (current_time v) (py_max (max_time v) 1)) 1000) in
  let v := set_time_slider slider_value v in
  redraw_scene (set_view v e).


(** *** Project file *)

Definition point_json (p : TrajectoryPoint) : json :=
  JObj [("x", JNum (pt_x p)); ("y", JNum (pt_y p)); ("time", JNum (pt_time p));
        ("pause", JNum (pause_duration p))]%string.

(** The [data] dictionary built by [save_project]. *)
Definition project_data (s : EntityStore) : json :=
  JObj [("roads",
         JArr (map (fun r => JObj [("id", JNum (inject_Z (r_id r))); ("x", JNum (r_x r));
                                   ("y", JNum (r_y r)); ("locked", JBool (locked r))])
                   (roads s)));
        ("vehicles",
         JArr (map (fun v => JObj [("id", JNum (inject_Z (v_id v)));
                                   ("name", JStr (v_name v));
                                   ("scale", JNum (v_scale v));
                                   ("trajectory", JArr (map point_json (trajectory v)))])
                   (vehicles s)));
        ("cameras",
         JArr (map (fun c => JObj [("id", JNum (inject_Z (c_id c))); ("x", JNum (c_x c));
                                   ("y", JNum (c_y c)); ("scale", JNum (c_scale c))])
                   (cameras s)));
        ("text_labels",
         JArr (map (fun t => JObj [("text", JStr (l_text t)); ("x", JNum (l_x t));
                                   ("y", JNum (l_y t));
                                   ("font_size", JNum (inject_Z (font_size t)));
                                   ("color", JStr (color t))])
                   (text_labels s)))]%string.

(** [save_project]: the document written to [filename], if one was chosen. *)
Definition save_project (filename : option string) (e : VehicleEditor)
    : option json * VehicleEditor :=
  match filename with
  | None => (None, e)
  | Some f =>
      (Some (project_data (store e)),
       show_dialog (InfoProjectSaved f) (update_status (MsgProjectSaved f) e))
  end.

(** *** Video export *)

(** One raster frame: its size and what was painted on the background. *)
Record Frame : Type := {
  frame_width : Z;
  frame_height : Z;
  frame_items : list DrawItem
}.

(** [cv2.VideoWriter] belongs to OpenCV, not to the repository.  It is
    modelled by what OpenCV documents of the two calls the editor makes:
    the constructor gives a writer that is opened or, when the file cannot
    be created, is not; [write] returns nothing and raises nothing, and a
    writer that is not opened drops the frame.  The editor never calls
    [isOpened]. *)
Record VideoWriter : Type := {
  opened : bool;
  written : list Frame
}.

Definition write (f : Frame) (out : VideoWriter) : VideoWriter :=
  if opened out then {| opened := true; written := written out ++ [f] |} else out.

(** [self.scene.render(painter)] on a black image of the given size. *)
Definition render (width height : Z) (e : VehicleEditor) : Frame :=
  {| frame_width := width; frame_height := height;
     frame_items := scene_items (view e) |}.

(** [QImage(width, height, Format_RGB888)] and numpy belong to Qt and to
    NumPy.  Qt pads every scan line of an image to a multiple of four bytes,
    so [image.sizeInBytes()] is [bytes_per_line width * height]; an image
    whose width or height is not positive is a null image without bits. *)
Definition bytes_per_line (width : Z) : Z := ((width * 24 + 31) / 32 * 4)%Z.

Definition size_in_bytes (width height : Z) : Z := (bytes_per_line width * height)%Z.

(** [ptr = image.bits(); ptr.setsize(image.sizeInBytes());
     np.frombuffer(ptr, np.uint8).reshape((height, width, 3))]:
    [Some] is the exception raised.  [setsize] fails on the [None] of a null
    image, and [reshape] raises [ValueError] unless the buffer has exactly
    [height * width * 3] bytes. *)
Definition image_array (width height : Z) (frame_idx : nat) : option Exception :=
  if (width <=? 0)%Z || (height <=? 0)%Z then Some (NullImage frame_idx)
  else if (size_in_bytes width height =? height * width * 3)%Z then None
  else Some (ReshapeFailed frame_idx).

(** The time of frame [frame_idx]: [frame_idx / fps]. *)
Definition frame_time (fps : Z) (frame_idx : nat) : Q :=
  fdiv (inject_Z (Z.of_nat frame_idx)) (inject_Z fps).

(** The body of [for frame_idx in range(total_frames)] up to the image:
    set the clock, redraw. *)
Definition prepare_frame (fps : Z) (frame_idx : nat) (e : VehicleEditor) : VehicleEditor :=
  redraw_scene (set_view (set_current_time (frame_time fps frame_idx) (view e)) e).

(** The frame loop.  An exception raised while the frame is turned into an
    array leaves the loop and the function at once, with the editor as the
    loop has left it. *)
Fixpoint export_frames (fps : Z) (width height : Z) (idxs : list nat)
    (e : VehicleEditor) (out : VideoWriter) : VehicleEditor * VideoWriter * Outcome :=
  match idxs with
  | [] => (e, out, Returned)
  | frame_idx :: rest =>
      let e := prepare_frame fps frame_idx e in
      match image_array width height frame_idx with
      | Some exc => (e, out, Raised exc)
      | None => export_frames fps width height rest e (write (render width height e) out)
      end
  end.

(** [int(duration * fps)] *)
Definition total_frames (fps : Z) (duration : Q) : Z :=
  py_int (fmul duration (inject_Z fps)).

(** The body of [export_video] once a file name is chosen, with its two
    locals [fps] and [duration] as arguments; [out] is the writer as
    [cv2.VideoWriter(filename, fourcc, fps, (width, height))] returns it. *)
Definition export_with (fps : Z) (duration : Q) (filename : string)
    (e : VehicleEditor) (out : VideoWriter) : VehicleEditor * VideoWriter * Outcome :=
  let rect := scene_rect (view e) in
  let width := py_int (rect_w rect) in
  let height := py_int (rect_h rect) in
  let original_show_trajectory := show_trajectory (view e) in
  let e := set_view (set_show_trajectory false (view e)) e in
  match export_frames fps width height (py_range (total_frames fps duration)) e out with
  | (e, out, Raised exc) => (e, out, Raised exc)
  | (e, out, Returned) =>
      let e := set_view (set_show_trajectory original_show_trajectory (view e)) e in
      let e := set_view (set_current_time 0 (view e)) e in
      let e := redraw_scene e in
      let e := update_status (MsgVideoExported filename) e in
      (show_dialog (InfoVideoExported filename) e, out, Returned)
  end.

(** [export_video]: [fps = 30], [duration = self.max_time]. *)
Definition export_video (filename : option string) (e : VehicleEditor) (out : VideoWriter)
    : VehicleEditor * VideoWriter * Outcome :=
  match filename with
  | None => (e, out, Returned)
  | Some f => export_with 30 (max_time (view e)) f e out
  end.

(** *** Sequences of operations on the three collections *)

Inductive Action : Type :=
  | ActAddRoad (x y : Q)
  | ActAddRoadInteractive
  | ActSelectRoad (idx : nat)
  | ActToggleLockRoad (checked : bool)
  | ActRoadMouseRelease (idx : nat) (px py : Q)
  | ActRemoveRoad (reply : bool)
  | ActAddVehicle (selected : option string)
  | ActSelectVehicle (idx : nat)
  | ActRemoveVehicle (reply : bool)
  | ActAddCamera
  | ActRemoveCamera (selected : option nat) (reply : bool).

Definition step (a : Action) (e : VehicleEditor) : VehicleEditor :=
  match a with
  | ActAddRoad x y => add_road x y e
  | ActAddRoadInteractive => add_road_interactive e
  | ActSelectRoad idx => on_road_selected idx e
  | ActToggleLockRoad checked => toggle_lock_road checked e
  | ActRoadMouseRelease idx px py => road_mouse_release idx px py e
  | ActRemoveRoad reply => remove_road reply e
  | ActAddVehicle selected => add_vehicle_to_scene selected e
  | ActSelectVehicle idx => on_vehicle_selected idx e
  | ActRemoveVehicle reply => remove_vehicle reply e
  | ActAddCamera => add_camera_to_scene e
  | ActRemoveCamera selected reply => remove_camera selected reply e
  end.

Definition run (acts : list Action) (e : VehicleEditor) : VehicleEditor :=
  fold_left (fun e a => step a e) acts e.

(** *** Scene-wide margins *)

Definition set_left_margin (m : Q) (v : ViewState) : ViewState :=
  {| left_margin := m; top_margin := top_margin v; current_time := current_time v;
     max_time := max_time v; is_playing := is_playing v;
     show_trajectory := show_trajectory v; time_slider := time_slider v;
     scene_items := scene_items v; scene_rect := scene_rect v |}.

Definition set_top_margin (m : Q) (v : ViewState) : ViewState :=
  {| left_margin := left_margin v; top_margin := m; current_time := current_time v;
     max_time := max_time v; is_playing := is_playing v;
     show_trajectory := show_trajectory v; time_slider := time_slider v;
     scene_items := scene_items v; scene_rect := scene_rect v |}.

Definition set_text_labels (l : list TextLabel) (s : EntityStore) : EntityStore :=
  {| roads := roads s; vehicles := vehicles s; cameras := cameras s;
     text_labels := l; next_vehicle_id := next_vehicle_id s;
     next_camera_id := next_camera_id s; next_road_id := next_road_id s |}.

Definition set_trajectory (traj : list TrajectoryPoint) (v : Vehicle) : Vehicle :=
  {| v_id := v_id v; v_pixmap := v_pixmap v; v_name := v_name v; v_scale := v_scale v;
     trajectory := traj |}.

Definition set_scale (scale : Q) (v : Vehicle) : Vehicle :=
  {| v_id := v_id v; v_pixmap := v_pixmap v; v_name := v_name v; v_scale := scale;
     trajectory := trajectory v |}.

(** [point.x += offset] and [point.y += offset] *)
Definition point_shift_x (offset : Q) (p : TrajectoryPoint) : TrajectoryPoint :=
  {| pt_x := pt_x p + offset; pt_y := pt_y p; pt_time := pt_time p;
     pause_duration := pause_duration p |}.

Definition point_shift_y (offset : Q) (p : TrajectoryPoint) : TrajectoryPoint :=
  {| pt_x := pt_x p; pt_y := pt_y p + offset; pt_time := pt_time p;
     pause_duration := pause_duration p |}.

Definition camera_shift_x (offset : Q) (c : Camera) : Camera :=
  {| c_id := c_id c; c_pixmap := c_pixmap c; c_x := c_x c + offset; c_y := c_y c;
     c_scale := c_scale c |}.

Definition camera_shift_y (offset : Q) (c : Camera) : Camera :=
  {| c_id := c_id c; c_pixmap := c_pixmap c; c_x := c_x c; c_y := c_y c + offset;
     c_scale := c_scale c |}.

Definition label_shift_x (offset : Q) (l : TextLabel) : TextLabel :=
  {| l_text := l_text l; l_x := l_x l + offset; l_y := l_y l;
     font_size := font_size l; color := color l |}.

Definition label_shift_y (offset : Q) (l : TextLabel) : TextLabel :=
  {| l_text := l_text l; l_x := l_x l; l_y := l_y l + offset;
     font_size := font_size l; color := color l |}.

(** The four loops of [on_margin_changed] on the store: every road, every
    waypoint of every vehicle, every camera and every label moves by
    [offset] along x. *)
Definition shift_store_x (offset : Q) (s : EntityStore) : EntityStore :=
  let s := set_roads (map (fun r => set_road_xy (r_x r + offset) (r_y r) r) (roads s)) s in
  let s := set_vehicles
             (map (fun v => set_trajectory (map (point_shift_x offset) (trajectory v)) v)
                  (vehicles s)) s in
  let s := set_cameras (map (camera_shift_x offset) (cameras s)) s in
  set_text_labels (map (label_shift_x offset) (text_labels s)) s.

Definition shift_store_y (offset : Q) (s : EntityStore) : EntityStore :=
  let s := set_roads (map (fun r => set_road_xy (r_x r) (r_y r + offset) r) (roads s)) s in
  let s := set_vehicles
             (map (fun v => set_trajectory (map (point_shift_y offset) (trajectory v)) v)
                  (vehicles s)) s in
  let s := set_cameras (map (camera_shift_y offset) (cameras s)) s in
  set_text_labels (map (label_shift_y offset) (text_labels s)) s.

(** [on_margin_changed]: the new value of the left-margin spin box.  The
    operations of this part end by writing a text on the status line; that
    text is not one of [Message] and the status line is left as it is. *)
Definition on_margin_changed (value : Q) (e : VehicleEditor) : VehicleEditor :=
  let old_margin := left_margin (view e) in
  let e := set_view (set_left_margin value (view e)) e in
  let offset := value - old_margin in
  redraw_scene (set_store (shift_store_x offset (store e)) e).

Definition on_top_margin_changed (value : Q) (e : VehicleEditor) : VehicleEditor :=
  let old_margin := top_margin (view e) in
  let e := set_view (set_top_margin value (view e)) e in
  let offset := value - old_margin in
  redraw_scene (set_store (shift_store_y offset (store e)) e).

(** *** Editing the selected vehicle *)

(** [clear_trajectory]: keep the first waypoint of the selected vehicle. *)
Definition clear_trajectory (e : VehicleEditor) : VehicleEditor :=
  match selected_vehicle (selection e) with
  | None => show_dialog InfoSelectVehicleFirst e
  | Some i =>
      let keep_first v :=
        match trajectory v with
        | [] => v
        | first_point :: _ => set_trajectory [first_point] v
        end in
      redraw_scene (set_store (set_vehicles (update_at i keep_first (vehicles (store e)))
                                            (store e)) e)
  end.

Definition on_vehicle_scale_changed (value : Q) (e : VehicleEditor) : VehicleEditor :=
  match selected_vehicle (selection e) with
  | None => e
  | Some i =>
      redraw_scene (set_store (set_vehicles (update_at i (set_scale value)
                                                       (vehicles (store e)))
                                            (store e)) e)
  end.

(** *** Dragging cameras and vehicles *)

(** [DraggablePixmapItem.mouseReleaseEvent] for an item of type ["camera"]
    with data object [cameras[i]], dropped with its corner at [(px, py)];
    [item] is the (scaled) pixmap shown by the item. *)
Definition camera_mouse_release (i : nat) (px py : Q) (item : Pixmap) (e : VehicleEditor)
    : VehicleEditor :=
  let center_x := px + inject_Z (width item) / 2 in
  let center_y := py + inject_Z (height item) / 2 in
  let move c := {| c_id := c_id c; c_pixmap := c_pixmap c; c_x := center_x;
                   c_y := center_y; c_scale := c_scale c |} in
  set_store (set_cameras (update_at i move (cameras (store e))) (store e)) e.

(** The same event for an item of type ["vehicle"]: a vehicle without
    waypoints gets its first one at time 0, a vehicle with one waypoint has
    it moved, a vehicle with more is left alone. *)
Definition vehicle_mouse_release (i : nat) (px py : Q) (item : Pixmap) (e : VehicleEditor)
    : VehicleEditor :=
  let center_x := px + inject_Z (width item) / 2 in
  let center_y := py + inject_Z (height item) / 2 in
  let place v :=
    match trajectory v with
    | [] => set_trajectory [ {| pt_x := center_x; pt_y := center_y; pt_time := 0;
                                pause_duration := 0 |} ] v
    | [p] => set_trajectory [ {| pt_x := center_x; pt_y := center_y;
                                 pt_time := pt_time p;
                                 pause_duration := pause_duration p |} ] v
    | _ => v
    end in
  set_store (set_vehicles (update_at i place (vehicles (store e))) (store e)) e.

End Fixed.

(** ** vehicle_editor_v3.py: the interpolator with an accumulated clock *)
Module V3.

Record TrajectoryPoint : Type := {
  pt_x : Q;
  pt_y : Q;
  pt_time : Q;
  pause_duration : Q
}.

Definition at_point (p : TrajectoryPoint) : Position := (pt_x p, pt_y p).

(** The loop threads [accumulated_time]; [inl p] is a [return p], [inr acc]
    the value of [accumulated_time] after the iteration.  The difference
    [move_time] and the sums of [accumulated_time] are the exact ones: the
    program rounds each of them to binary64, and this function is the
    program where they are binary64 numbers as they stand.  A statement
    that depends on where a comparison with such a sum falls assumes so. *)
Definition position_step (traj : list TrajectoryPoint) (t : Q) (i : nat)
    (accumulated_time : Q) : Position + Q :=
  match nth_error traj i with
  | None => inr accumulated_time
  | Some point =>
      if (i <? length traj - 1)%nat then
        match nth_error traj (i + 1) with
        | None => inr accumulated_time
        | Some next_point =>
            let move_time := pt_time next_point - pt_time point in
            if Qle_bool accumulated_time t && Qlt_bool t (accumulated_time + move_time) then
              if Qlt_bool 0 move_time then
                let ratio := (t - accumulated_time) / move_time in
                inl (pt_x point + (pt_x next_point - pt_x point) * ratio,
                     pt_y point + (pt_y next_point - pt_y point) * ratio)
              else inl (at_point point)
            else
              let accumulated_time := accumulated_time + move_time in
              if Qle_bool accumulated_time t
                 && Qlt_bool t (accumulated_time + pause_duration point)
              then inl (at_point point)
              else inr (accumulated_time + pause_duration point)
        end
      else inr accumulated_time
  end.

Fixpoint position_loop (traj : list TrajectoryPoint) (t : Q) (idxs : list nat)
    (accumulated_time : Q) : option Position :=
  match idxs with
  | [] => None
  | i :: rest =>
      match position_step traj t i accumulated_time with
      | inl p => Some p
      | inr acc' => position_loop traj t rest acc'
      end
  end.

Definition get_position_at_time (traj : list TrajectoryPoint) (t : Q) : Position :=
  match traj with
  | [] => (100, 100)
  | first :: _ =>
      if (length traj =? 1)%nat then at_point first
      else if Qle_bool t 0 then at_point first
      else
        match position_loop traj t (seq 0 (length traj)) 0 with
        | Some p => p
        | None => at_point (last traj first)
        end
  end.

(** *** Vehicles of the V3 editor.  Of [VehicleEditor] only the vehicle list,
    the selection and the vehicle assets are kept: the three operations below
    read and write nothing else but the status line and the scene. *)

Record Vehicle : Type := {
  v_id : Z;
  v_pixmap : Pixmap;
  v_name : string;
  v_scale : Q;
  trajectory : list TrajectoryPoint
}.

Record VehicleEditor : Type := {
  vehicles : list Vehicle;
  selected_vehicle : option nat;
  vehicle_pixmaps : list (string * Pixmap)
}.

Fixpoint lookup_pixmap (name : string) (d : list (string * Pixmap)) : option Pixmap :=
  match d with
  | [] => None
  | (k, p) :: rest => if String.eqb k name then Some p else lookup_pixmap name rest
  end.

(** [add_vehicle_to_scene]: the identifier is [len(self.vehicles)]. *)
Definition add_vehicle_to_scene (selected : option string) (e : VehicleEditor)
    : VehicleEditor :=
  match selected with
  | None => e
  | Some vehicle_name =>
      match lookup_pixmap vehicle_name (vehicle_pixmaps e) with
      | None => e
      | Some pixmap =>
          let vehicle_id := Z.of_nat (length (vehicles e)) in
          let vehicle := {| v_id := vehicle_id; v_pixmap := pixmap;
                            v_name := vehicle_name; v_scale := 1; trajectory := [] |} in
          {| vehicles := vehicles e ++ [vehicle];
             selected_vehicle := selected_vehicle e;
             vehicle_pixmaps := vehicle_pixmaps e |}
      end
  end.

Definition on_vehicle_selected (idx : nat) (e : VehicleEditor) : VehicleEditor :=
  match nth_error (vehicles e) idx with
  | Some _ => {| vehicles := vehicles e; selected_vehicle := Some idx;
                 vehicle_pixmaps := vehicle_pixmaps e |}
  | None => e
  end.

Definition remove_vehicle (reply : bool) (e : VehicleEditor) : VehicleEditor :=
  match selected_vehicle e with
  | None => e
  | Some i =>
      if reply then
        {| vehicles := remove_at i (vehicles e); selected_vehicle := None;
           vehicle_pixmaps := vehicle_pixmaps e |}
      else e
  end.

End V3.

(** ** vehicle_editor_with_assets.py: the project file of the first editor *)
Module WithAssets.

Record TrajectoryPoint : Type := {
  pt_x : Q;
  pt_y : Q;
  pt_time : Q
}.

Record Vehicle : Type := {
  v_id : Z;
  v_pixmap : Pixmap;
  trajectory : list TrajectoryPoint
}.

Record Camera : Type := {
  c_id : Z;
  c_pixmap : Pixmap;
  c_x : Q;
  c_y : Q
}.

Record TextLabel : Type := {
  l_text : string;
  l_x : Q;
  l_y : Q;
  font_size : Z;
  color : string
}.

(** The three dictionaries of graphics items are kept as lists of
    (key, position of the item). *)
Record VehicleEditor : Type := {
  vehicles : list Vehicle;
  cameras : list Camera;
  text_labels : list TextLabel;
  vehicle_items : list (Z * Position);
  camera_items : list (Z * Position);
  text_items : list (Z * Position);
  max_time : Q
}.

(** The [data] dictionary built by this editor's [save_project]. *)
Definition project_data (e : VehicleEditor) : json :=
  JObj [("vehicles",
         JArr (map (fun v =>
                      JObj [("id", JNum (inject_Z (v_id v)));
                            ("pixmap_index", JNum 0);
                            ("trajectory",
                             JArr (map (fun p => JArr [JNum (pt_x p); JNum (pt_y p);
                                                       JNum (pt_time p)])
                                       (trajectory v)))])
                   (vehicles e)));
        ("cameras",
         JArr (map (fun c => JObj [("id", JNum (inject_Z (c_id c)));
                                   ("pixmap_index", JNum 0);
                                   ("x", JNum (c_x c)); ("y", JNum (c_y c))])
                   (cameras e)));
        ("text_labels",
         JArr (map (fun t => JObj [("text", JStr (l_text t)); ("x", JNum (l_x t));
                                   ("y", JNum (l_y t));
                                   ("font_size", JNum (inject_Z (font_size t)));
                                   ("color", JStr (color t))])
                   (text_labels e)));
        ("max_time", JNum (max_time e))]%string.

Definition save_project (filename : option string) (e : VehicleEditor) : option json :=
  match filename with
  | None => None
  | Some _ => Some (project_data e)
  end.

(** The editor after the "clear the scene" block of [load_project]. *)
Definition cleared (e : VehicleEditor) : VehicleEditor :=
  {| vehicles := []; cameras := []; text_labels := [];
     vehicle_items := []; camera_items := []; text_items := [];
     max_time := max_time e |}.

Definition set_max_time (t : Q) (e : VehicleEditor) : VehicleEditor :=
  {| vehicles := vehicles e; cameras := cameras e; text_labels := text_labels e;
     vehicle_items := vehicle_items e; camera_items := camera_items e;
     text_items := text_items e; max_time := t |}.

(** [load_project] on the document [data] read from the chosen file: the
    scene is cleared, [max_time] is read with default [10.0], and the loading
    of the entities is left as a TODO.  When ['max_time'] is not a number the
    spin box raises; the record then keeps the former number. *)
Definition load_project (filename : option string) (data : json) (e : VehicleEditor)
    : VehicleEditor * Outcome :=
  match filename with
  | None => (e, Returned)
  | Some _ =>
      let e := cleared e in
      match data with
      | JObj fields =>
          match json_get "max_time" fields with
          | None => (set_max_time 10 e, Returned)
          | Some (JNum q) => (set_max_time q e, Returned)
          | Some _ => (e, Raised BadMaxTime)
          end
      | _ => (e, Raised NotAnObject)
      end
  end.

(** *** The interpolator and the playback of the first editor *)

(** [Vehicle.get_position_at_time]: [None] is the [IndexError] of
    [self.trajectory[0]] on an empty list. *)
Definition at_point (p : TrajectoryPoint) : Position := (pt_x p, pt_y p).

Definition position_step (traj : list TrajectoryPoint) (t : Q) (i : nat) : option Position :=
  match nth_error traj i, nth_error traj (i + 1) with
  | Some p1, Some p2 =>
      if Qle_bool (pt_time p1) t && Qle_bool t (pt_time p2) then
        if Qeq_bool (pt_time p2 - pt_time p1) 0 then Some (at_point p1)
        else
          let ratio := (t - pt_time p1) / (pt_time p2 - pt_time p1) in
          Some (pt_x p1 + (pt_x p2 - pt_x p1) * ratio,
                pt_y p1 + (pt_y p2 - pt_y p1) * ratio)
      else None
  | _, _ => None
  end.

Definition get_position_at_time (traj : list TrajectoryPoint) (t : Q) : option Position :=
  match traj with
  | [] => None
  | first :: _ =>
      if Qle_bool t 0 then Some (at_point first)
      else if Qle_bool (pt_time (last traj first)) t then Some (at_point (last traj first))
      else
        match for_return (seq 0 (length traj - 1)) (position_step traj t) with
        | Some p => Some p
        | None => Some (at_point (last traj first))
        end
  end.

(** The clock of the first editor. *)
Record Playback : Type := {
  current_time : Q;
  time_slider : Z
}.

(** [self.vehicle_items[key] = item] *)
Fixpoint dict_set (key : Z) (item : Position) (d : list (Z * Position))
    : list (Z * Position) :=
  match d with
  | [] => [(key, item)]
  | (k, v) :: rest =>
      if Z.eqb k key then (key, item) :: rest else (k, v) :: dict_set key item rest
  end.

(** [key in self.vehicle_items] *)
Definition dict_has (key : Z) (d : list (Z * Position)) : bool :=
  existsb (fun kv => Z.eqb (fst kv) key) d.

(** The loop that moves the vehicle items to their positions at time [t];
    [None] is an exception of the interpolator. *)
Fixpoint place_items (t : Q) (vs : list Vehicle) (items : list (Z * Position))
    : option (list (Z * Position)) :=
  match vs with
  | [] => Some items
  | vehicle :: rest =>
      if dict_has (v_id vehicle) items then
        match get_position_at_time (trajectory vehicle) t with
        | None => None
        | Some xy => place_items t rest (dict_set (v_id vehicle) xy items)
        end
      else place_items t rest items
  end.

(** [update_animation]: advance the clock, wrap at [max_time], set the
    slider, move the vehicle items.  [None] is an exception: the
    [ZeroDivisionError] of [self.current_time / self.max_time], or the
    interpolator's. *)
Definition update_animation (e : VehicleEditor) (p : Playback)
    : option (VehicleEditor * Playback) :=
  let current_time := current_time p + (33 # 1000) in
  let current_time := if Qle_bool (max_time e) current_time then 0 else current_time in
  if Qeq_bool (max_time e) 0 then None
  else
    let progress := py_int ((current_time / max_time e) * 1000) in
    match place_items current_time (vehicles e) (vehicle_items e) with
    | None => None
    | Some items =>
        Some ({| vehicles := vehicles e; cameras := cameras e;
                 text_labels := text_labels e; vehicle_items := items;
                 camera_items := camera_items e; text_items := text_items e;
                 max_time := max_time e |},
              {| current_time := current_time; time_slider := progress |})
    end.

(** [add_vehicle_to_scene]; [pixmap] is the pixmap of the current item of
    the asset list, [None] when no asset is selected. *)
Definition add_vehicle_to_scene (pixmap : option Pixmap) (e : VehicleEditor)
    : VehicleEditor :=
  match pixmap with
  | None => e
  | Some pm =>
      let n := inject_Z (Z.of_nat (length (vehicles e))) in
      let vehicle := {| v_id := Z.of_nat (length (vehicles e)); v_pixmap := pm;
                        trajectory := [ {| pt_x := 100; pt_y := 100 + n * 50;
                                           pt_time := 0 |} ] |} in
      {| vehicles := vehicles e ++ [vehicle]; cameras := cameras e;
         text_labels := text_labels e;
         vehicle_items := dict_set (v_id vehicle) (100, 100 + n * 50) (vehicle_items e);
         camera_items := camera_items e; text_items := text_items e;
         max_time := max_time e |}
  end.

(** [self.vehicle_items[key]], [None] for a missing key. *)
Fixpoint dict_get (key : Z) (d : list (Z * Position)) : option Position :=
  match d with
  | [] => None
  | (k, v) :: rest => if Z.eqb k key then Some v else dict_get key rest
  end.

(** [Vehicle.add_trajectory_point] *)
Definition add_trajectory_point (x y time : Q) (v : Vehicle) : Vehicle :=
  {| v_id := v_id v; v_pixmap := v_pixmap v;
     trajectory := trajectory v ++ [ {| pt_x := x; pt_y := y; pt_time := time |} ] |}.

(** [EditorScene.mousePressEvent] at [(x, y)] while a trajectory is edited
    and the time dialog is accepted with [time]:
    [self.current_vehicle.add_trajectory_point(x, y, time)].
    [current_vehicle] is the place of that vehicle in [self.vehicles]; the
    scene may still hold a vehicle that [load_project] has dropped from the
    list, the append then changes nothing the editor holds: this is an index
    out of range. *)
Definition mousePressEvent (current_vehicle : nat) (x y time : Q) (e : VehicleEditor)
    : VehicleEditor :=
  {| vehicles := update_at current_vehicle (add_trajectory_point x y time) (vehicles e);
     cameras := cameras e; text_labels := text_labels e;
     vehicle_items := vehicle_items e; camera_items := camera_items e;
     text_items := text_items e; max_time := max_time e |}.

(** The operations that change the vehicles of the first editor: there is no
    removal of a single vehicle and nothing ever shortens a trajectory. *)
Inductive Action : Type :=
  | ActAddVehicle (pixmap : option Pixmap)
  | ActTrajectoryClick (current_vehicle : nat) (x y time : Q)
  | ActLoadProject (filename : option string) (data : json)
  | ActMaxTimeChanged (value : Q).

Definition step (a : Action) (e : VehicleEditor) : VehicleEditor :=
  match a with
  | ActAddVehicle pixmap => add_vehicle_to_scene pixmap e
  | ActTrajectoryClick current_vehicle x y time =>
      mousePressEvent current_vehicle x y time e
  | ActLoadProject filename data => fst (load_project filename data e)
  | ActMaxTimeChanged value => set_max_time value e
  end.

Definition run (acts : list Action) (e : VehicleEditor) : VehicleEditor :=
  fold_left (fun e a => step a e) acts e.

(** [VehicleEditor.__init__] *)
Definition init_editor : VehicleEditor :=
  {| vehicles := []; cameras := []; text_labels := [];
     vehicle_items := []; camera_items := []; text_items := [];
     max_time := 10 |}.

End WithAssets.

(** ** The scenario of the specification *)

Definition scenario : list Fixed.TrajectoryPoint :=
  [ {| Fixed.pt_x := 0;   Fixed.pt_y := 0;   Fixed.pt_time := 0; Fixed.pause_duration := 0 |};
    {| Fixed.pt_x := 100; Fixed.pt_y := 0;   Fixed.pt_time := 2; Fixed.pause_duration := 1 |};
    {| Fixed.pt_x := 100; Fixed.pt_y := 100; Fixed.pt_time := 4; Fixed.pause_duration := 0 |} ].



(** ** Well-formed waypoint lists, as the specification words them *)

(** Sorted by non-decreasing arrival time. *)
Fixpoint sorted_by_arrival (traj : list Fixed.TrajectoryPoint) : bool :=
  match traj with
  | [] => true
  | p :: rest =>
      match rest with
      | [] => true
      | q :: _ => Qle_bool (Fixed.pt_time p) (Fixed.pt_time q)
      end && sorted_by_arrival rest
  end.

(** Non-negative arrival times and pause durations. *)
Definition non_negative (traj : list Fixed.TrajectoryPoint) : bool :=
  forallb (fun p => Qle_bool 0 (Fixed.pt_time p) && Qle_bool 0 (Fixed.pause_duration p)) traj.

(** Arrival times that are binary64 numbers, as every number of the program
    is. *)
Definition float_times (traj : list Fixed.TrajectoryPoint) : bool :=
  forallb (fun p => is_float (Fixed.pt_time p)) traj.

(** The instant a waypoint is left: [arrival + pause] as the program
    computes it, a float sum. *)
Definition departure (p : Fixed.TrajectoryPoint) : Q := Fixed.departure_time p.



(** A first waypoint whose pause outlasts the arrival at the second one. *)
Definition long_first_pause : list Fixed.TrajectoryPoint :=
  [ {| Fixed.pt_x := 0;   Fixed.pt_y := 0; Fixed.pt_time := 0; Fixed.pause_duration := 10 |};
    {| Fixed.pt_x := 100; Fixed.pt_y := 0; Fixed.pt_time := 2; Fixed.pause_duration := 0 |} ].


(** Waypoints at 0 s, at 0.1 s with a pause of 0.3 s, and at 0.4 s; the
    decimals are the floats Python reads them as. *)
Definition decimal_waypoints : list Fixed.TrajectoryPoint :=
  [ {| Fixed.pt_x := 0;   Fixed.pt_y := 0;   Fixed.pt_time := 0;
       Fixed.pause_duration := 0 |};
    {| Fixed.pt_x := 100; Fixed.pt_y := 0;   Fixed.pt_time := fl (1 # 10);
       Fixed.pause_duration := fl (3 # 10) |};
    {| Fixed.pt_x := 100; Fixed.pt_y := 100; Fixed.pt_time := fl (4 # 10);
       Fixed.pause_duration := 0 |} ].

(** Two lists on which the V3 interpolator does not clamp: a first waypoint
    that pauses 5 s, and a first waypoint that is reached at 1 s. *)
Definition v3_pausing_start : list V3.TrajectoryPoint :=
  [ {| V3.pt_x := 0;   V3.pt_y := 0; V3.pt_time := 0; V3.pause_duration := 5 |};
    {| V3.pt_x := 100; V3.pt_y := 0; V3.pt_time := 2; V3.pause_duration := 0 |} ].

Definition v3_late_start : list V3.TrajectoryPoint :=
  [ {| V3.pt_x := 0;   V3.pt_y := 0; V3.pt_time := 1; V3.pause_duration := 0 |};
    {| V3.pt_x := 100; V3.pt_y := 0; V3.pt_time := 3; V3.pause_duration := 0 |} ].

(** ** The playback clock, as the specification words it *)

(** The last waypoint of a vehicle that has one. *)
Definition last_waypoint (v : Fixed.Vehicle) : option Fixed.TrajectoryPoint :=
  match Fixed.trajectory v with
  | [] => None
  | p :: _ => Some (last (Fixed.trajectory v) p)
  end.

(** "The maximum [arrivalTime + pauseDuration] across all animated vehicles
    (at least two waypoints), minimum 1.0". *)
Definition stated_max_time (vs : list Fixed.Vehicle) : Q :=
  fold_left (fun m v =>
               if (2 <=? length (Fixed.trajectory v))%nat then
                 match last_waypoint v with
                 | Some p => Qmax m (departure p)
                 | None => m
                 end
               else m)
            vs 1.

(** ** Concrete editors used in the examples *)

Definition no_assets : Fixed.Assets :=
  {| Fixed.vehicle_pixmaps := []; Fixed.camera_pixmaps := []; Fixed.road_pixmaps := [] |}.

Definition car_pixmap : Pixmap := {| width := 120; height := 60 |}.

(** A vehicle that reaches its second waypoint at 2 s and pauses 1 s there. *)
Definition pausing_vehicle : Fixed.Vehicle :=
  {| Fixed.v_id := 0; Fixed.v_pixmap := car_pixmap; Fixed.v_name := "car";
     Fixed.v_scale := 1 # 2;
     Fixed.trajectory :=
       [ {| Fixed.pt_x := 0;   Fixed.pt_y := 0; Fixed.pt_time := 0;
            Fixed.pause_duration := 0 |};
         {| Fixed.pt_x := 100; Fixed.pt_y := 0; Fixed.pt_time := 2;
            Fixed.pause_duration := 1 |} ] |}.

(** The editor started without assets, holding [vs] as its vehicles. *)
Definition editor_with_vehicles (vs : list Fixed.Vehicle) : Fixed.VehicleEditor :=
  let e := Fixed.init_editor no_assets in
  Fixed.set_store
    (Fixed.set_next_vehicle_id (Z.of_nat (length vs))
       (Fixed.set_vehicles vs (Fixed.store e))) e.

(** A vehicle whose last waypoint is reached at 0.5 s, in an editor whose
    playback clock stands at the float 0.467. *)
Definition half_second_vehicle : Fixed.Vehicle :=
  {| Fixed.v_id := 0; Fixed.v_pixmap := car_pixmap; Fixed.v_name := "car";
     Fixed.v_scale := 1 # 2;
     Fixed.trajectory :=
       [ {| Fixed.pt_x := 0;   Fixed.pt_y := 0; Fixed.pt_time := 0;
            Fixed.pause_duration := 0 |};
         {| Fixed.pt_x := 100; Fixed.pt_y := 0; Fixed.pt_time := 1 # 2;
            Fixed.pause_duration := 0 |} ] |}.

Definition late_clock_editor : Fixed.VehicleEditor :=
  let e := editor_with_vehicles [half_second_vehicle] in
  Fixed.set_view (Fixed.set_current_time (fl (467 # 1000)) (Fixed.view e)) e.

(** ** Video export, as the specification words it *)

(** The scene at time [t]: what [redraw_scene] composes once the clock is [t]. *)
Definition scene_at (t : Q) (e : Fixed.VehicleEditor) : list Fixed.DrawItem :=
  Fixed.compose_scene
    (Fixed.set_view (Fixed.set_current_time t (Fixed.view e)) e).

(** A trajectory overlay: a segment of the dashed polyline or a marker dot. *)
Definition is_overlay (d : Fixed.DrawItem) : bool :=
  match d with
  | Fixed.TrajectoryLine _ _ _ _ => true
  | Fixed.TrajectoryDot _ _ => true
  | _ => false
  end.

(** The editor with the trajectory overlay switched off. *)
Definition hide_overlay (e : Fixed.VehicleEditor) : Fixed.VehicleEditor :=
  Fixed.set_view (Fixed.set_show_trajectory false (Fixed.view e)) e.

(** Frame [i] of an export at [fps] started from [e]. *)
Definition exported_frame (fps : Z) (e : Fixed.VehicleEditor) (i : nat) : Fixed.Frame :=
  {| Fixed.frame_width := py_int (rect_w (Fixed.scene_rect (Fixed.view e)));
     Fixed.frame_height := py_int (rect_h (Fixed.scene_rect (Fixed.view e)));
     Fixed.frame_items := scene_at (Fixed.frame_time fps i) (hide_overlay e) |}.

(** What a redraw reads besides the clock: the store and the two flags. *)
Definition same_scene_inputs (e1 e2 : Fixed.VehicleEditor) : Prop :=
  Fixed.store e1 = Fixed.store e2 /\
  Fixed.show_trajectory (Fixed.view e1) = Fixed.show_trajectory (Fixed.view e2) /\
  Fixed.is_playing (Fixed.view e1) = Fixed.is_playing (Fixed.view e2).

(** The frames [idxs] of an export at [fps] with frame size [w] x [h]. *)
Definition frames_of (fps w h : Z) (e : Fixed.VehicleEditor) (idxs : list nat)
    : list Fixed.Frame :=
  map (fun i => {| Fixed.frame_width := w; Fixed.frame_height := h;
                   Fixed.frame_items := scene_at (Fixed.frame_time fps i) e |}) idxs.

(** The size of the exported frames: [int(rect.width())], [int(rect.height())]. *)
Definition frame_width_of (e : Fixed.VehicleEditor) : Z :=
  py_int (rect_w (Fixed.scene_rect (Fixed.view e))).

Definition frame_height_of (e : Fixed.VehicleEditor) : Z :=
  py_int (rect_h (Fixed.scene_rect (Fixed.view e))).

(** A frame size for which the image can be handed to numpy: positive, and
    a width that is a multiple of four. *)
Definition frames_can_be_built (e : Fixed.VehicleEditor) : bool :=
  (0 <? frame_width_of e)%Z && (0 <? frame_height_of e)%Z
  && (frame_width_of e mod 4 =? 0)%Z.

(** A writer whose file could be created, and one whose file could not. *)
Definition open_writer : Fixed.VideoWriter :=
  {| Fixed.opened := true; Fixed.written := [] |}.

Definition closed_writer : Fixed.VideoWriter :=
  {| Fixed.opened := false; Fixed.written := [] |}.

(** "Export emits exactly [floor(fps * duration)] frames", for a frame size
    that can be built and a writer that is opened. *)
Definition export_count_as_stated : Prop :=
  forall (fps : Z) (duration : Q) (filename : string) (e : Fixed.VehicleEditor),
    (15 <= fps <= 60)%Z ->
    frames_can_be_built e = true ->
    length (Fixed.written (snd (fst (Fixed.export_with fps duration filename e open_writer))))
    = Z.to_nat (Qfloor (inject_Z fps * duration)).

(** ** The bounds scenario *)

Definition road_pixmap : Pixmap := {| width := 2000; height := 420 |}.

Definition scenario_road (id : Z) (x y : Q) (is_locked : bool) : Fixed.Road :=
  {| Fixed.r_id := id; Fixed.r_pixmap := road_pixmap; Fixed.r_x := x; Fixed.r_y := y;
     Fixed.locked := is_locked |}.

Definition two_roads_editor : Fixed.VehicleEditor :=
  let e := Fixed.init_editor no_assets in
  Fixed.set_store
    (Fixed.set_next_road_id 2
       (Fixed.set_roads [scenario_road 0 200 0 false; scenario_road 1 200 420 false]
                        (Fixed.store e))) e.

(** The two-road scene after the operator selected road 0 and locked it. *)
Definition locked_road_editor : Fixed.VehicleEditor :=
  Fixed.toggle_lock_road true (Fixed.on_road_selected 0 two_roads_editor).

(** The two-road scene once drawn: the scene rectangle is 2400 x 940. *)
Definition drawn_scene : Fixed.VehicleEditor := Fixed.redraw_scene two_roads_editor.



(** ** Identifiers *)

Definition vehicle_ids (e : Fixed.VehicleEditor) : list Z :=
  map Fixed.v_id (Fixed.vehicles (Fixed.store e)).

Definition camera_ids (e : Fixed.VehicleEditor) : list Z :=
  map Fixed.c_id (Fixed.cameras (Fixed.store e)).

Definition road_ids (e : Fixed.VehicleEditor) : list Z :=
  map Fixed.r_id (Fixed.roads (Fixed.store e)).

(** The identifiers in use and the next identifier of one collection. *)
Definition IdState : Type := (list Z * Z)%type.

Definition vehicle_id_state (e : Fixed.VehicleEditor) : IdState :=
  (vehicle_ids e, Fixed.next_vehicle_id (Fixed.store e)).

Definition camera_id_state (e : Fixed.VehicleEditor) : IdState :=
  (camera_ids e, Fixed.next_camera_id (Fixed.store e)).

Definition road_id_state (e : Fixed.VehicleEditor) : IdState :=
  (road_ids e, Fixed.next_road_id (Fixed.store e)).

(** What one operation may do to a collection: nothing, remove the entity
    at some index, or append an entity with the next identifier. *)
Definition id_step (s s' : IdState) : Prop :=
  s' = s \/
  (exists i, s' = (remove_at i (fst s), snd s)) \/
  s' = (fst s ++ [snd s], (snd s + 1)%Z).

(** Every identifier in use is below the next identifier. *)
Definition ids_below (s : IdState) : Prop := Forall (fun k => (k < snd s)%Z) (fst s).

(** The V3 editor with one vehicle asset and an empty scene. *)
Definition v3_empty : V3.VehicleEditor :=
  {| V3.vehicles := []; V3.selected_vehicle := None;
     V3.vehicle_pixmaps := [("car"%string, car_pixmap)] |}.

(** Add two vehicles, select and remove the first, add a third. *)
Definition v3_add_remove_add : V3.VehicleEditor :=
  V3.add_vehicle_to_scene (Some "car"%string)
    (V3.remove_vehicle true
       (V3.on_vehicle_selected 0
          (V3.add_vehicle_to_scene (Some "car"%string)
             (V3.add_vehicle_to_scene (Some "car"%string) v3_empty)))).

(** ** Project files *)

(** A store with one vehicle standing at [(10, 20)]. *)
Definition one_vehicle_store : WithAssets.VehicleEditor :=
  {| WithAssets.vehicles :=
       [ {| WithAssets.v_id := 0; WithAssets.v_pixmap := car_pixmap;
            WithAssets.trajectory :=
              [ {| WithAssets.pt_x := 10; WithAssets.pt_y := 20;
                   WithAssets.pt_time := 0 |} ] |} ];
     WithAssets.cameras := []; WithAssets.text_labels := [];
     WithAssets.vehicle_items := [(0%Z, (10, 20))];
     WithAssets.camera_items := []; WithAssets.text_items := [];
     WithAssets.max_time := 10 |}.

(** ** Paths, for the statements about the interpolators *)



(** Every waypoint among the first [k] has been left strictly before [t]. *)
Definition first_left_before (k : nat) (t : Q) (traj : list Fixed.TrajectoryPoint) : bool :=
  forallb (fun p => Qlt_bool (departure p) t) (firstn k traj).

(** ** What a project file records of each entity *)

Definition road_saved (r : Fixed.Road) : Z * Q * Q * bool :=
  (Fixed.r_id r, Fixed.r_x r, Fixed.r_y r, Fixed.locked r).

Definition vehicle_saved (v : Fixed.Vehicle)
    : Z * string * Q * list Fixed.TrajectoryPoint :=
  (Fixed.v_id v, Fixed.v_name v, Fixed.v_scale v, Fixed.trajectory v).

Definition camera_saved (c : Fixed.Camera) : Z * Q * Q * Q :=
  (Fixed.c_id c, Fixed.c_x c, Fixed.c_y c, Fixed.c_scale c).

(** ** Reachable editors *)

(** The selection refers to entities that exist. *)
Definition selection_valid (e : Fixed.VehicleEditor) : Prop :=
  (forall i, Fixed.selected_vehicle (Fixed.selection e) = Some i ->
             (i < length (Fixed.vehicles (Fixed.store e)))%nat) /\
  (forall i, Fixed.selected_road (Fixed.selection e) = Some i ->
             (i < length (Fixed.roads (Fixed.store e)))%nat).

(** An editor with one vehicle asset and one road asset. *)
Definition demo_assets : Fixed.Assets :=
  {| Fixed.vehicle_pixmaps := [("car"%string, car_pixmap)];
     Fixed.camera_pixmaps := [car_pixmap];
     Fixed.road_pixmaps := [road_pixmap] |}.

(** ** The first editor *)

(** Every vehicle's identifier is its place in the list, every vehicle has
    its graphics item and at least one waypoint. *)
Definition ids_are_indices (e : WithAssets.VehicleEditor) : Prop :=
  map WithAssets.v_id (WithAssets.vehicles e)
  = map Z.of_nat (seq 0 (length (WithAssets.vehicles e))) /\
  Forall (fun v => WithAssets.dict_has (WithAssets.v_id v) (WithAssets.vehicle_items e) = true /\
                   WithAssets.trajectory v <> [])
         (WithAssets.vehicles e).

(** Two cars added to the first editor, the first one with a second
    waypoint. *)
Definition two_cars : WithAssets.VehicleEditor :=
  WithAssets.run [WithAssets.ActAddVehicle (Some car_pixmap);
                  WithAssets.ActAddVehicle (Some car_pixmap);
                  WithAssets.ActTrajectoryClick 0 300 100 2]
                 WithAssets.init_editor.

(** * Theorems *)

(** ** Binary64 rounding *)

Lemma pow2_pos (e : Z) : 0 < pow2 e.
Proof. unfold pow2. apply Qpower_0_lt. reflexivity. Qed.

Lemma pow2_add (a b : Z) : pow2 (a + b) == pow2 a * pow2 b.
Proof. unfold pow2. apply Qpower_plus. discriminate. Qed.

Lemma pow2_le (a b : Z) : (a <= b)%Z -> pow2 a <= pow2 b.
Proof. intro H. unfold pow2. apply Qpower_le_compat_l; [exact H | discriminate]. Qed.

Lemma pow2_lt (a b : Z) : (a < b)%Z -> pow2 a < pow2 b.
Proof. intro H. unfold pow2. apply Qpower_lt_compat_l; [exact H | reflexivity]. Qed.

Lemma pow2_Z (e : Z) : (0 <= e)%Z -> pow2 e == inject_Z (2 ^ e).
Proof. intro H. unfold pow2. rewrite Zpower_Qpower by exact H. reflexivity. Qed.

Lemma floor_log2_spec (q : Q) :
  0 < q -> pow2 (floor_log2 q) <= q /\ q < pow2 (floor_log2 q + 1).
Proof.
  intro Hq. destruct q as [n dd].
  assert (Hn : (0 < n)%Z) by (unfold Qlt in Hq; cbn in Hq; lia).
  unfold floor_log2. cbn [Qnum Qden].
  set (a := Z.log2 n). set (b := Z.log2 (Z.pos dd)).
  destruct (Z.log2_spec n Hn) as [Ha1 Ha2]. fold a in Ha1, Ha2.
  destruct (Z.log2_spec (Z.pos dd) ltac:(lia)) as [Hb1 Hb2]. fold b in Hb1, Hb2.
  assert (Ha0 : (0 <= a)%Z) by apply Z.log2_nonneg.
  assert (Hb0 : (0 <= b)%Z) by apply Z.log2_nonneg.
  assert (Hqd : n # dd == inject_Z n / inject_Z (Z.pos dd))
    by apply Qmake_Qdiv.
  assert (Hd : 0 < inject_Z (Z.pos dd)) by reflexivity.
  assert (Hupper : n # dd < pow2 (a - b + 1)).
  { rewrite Hqd. apply Qlt_shift_div_r; [exact Hd|].
    apply Qlt_le_trans with (pow2 (a - b + 1) * pow2 b).
    - rewrite <- pow2_add. replace (a - b + 1 + b)%Z with (a + 1)%Z by lia.
      rewrite pow2_Z by lia. rewrite <- Zlt_Qlt. exact Ha2.
    - apply Qmult_le_l; [apply pow2_pos|]. rewrite pow2_Z by lia.
      rewrite <- Zle_Qle. exact Hb1. }
  assert (Hlower : pow2 (a - b - 1) <= n # dd).
  { rewrite Hqd. apply Qle_shift_div_l; [exact Hd|].
    apply Qle_trans with (pow2 (a - b - 1) * pow2 (b + 1)).
    - apply Qmult_le_l; [apply pow2_pos|]. rewrite pow2_Z by lia.
      rewrite <- Zle_Qle. lia.
    - rewrite <- pow2_add. replace (a - b - 1 + (b + 1))%Z with a by lia.
      rewrite pow2_Z by lia. rewrite <- Zle_Qle. exact Ha1. }
  destruct (Qle_bool (pow2 (a - b)) (n # dd)) eqn:E.
  - apply Qle_bool_iff in E. split; assumption.
  - split; [exact Hlower|]. replace (a - b - 1 + 1)%Z with (a - b)%Z by lia.
    apply Qnot_le_lt. intro H. apply Qle_bool_iff in H. congruence.
Qed.

Lemma ulp_exponent_min (q : Q) : (-1074 <= ulp_exponent q)%Z.
Proof. unfold ulp_exponent. lia. Qed.

Lemma ulp_exponent_upper (q : Q) : 0 < q -> q < pow2 (ulp_exponent q + 53).
Proof.
  intro Hq. destruct (floor_log2_spec q Hq) as [_ H].
  eapply Qlt_le_trans; [exact H|]. apply pow2_le. unfold ulp_exponent. lia.
Qed.

Lemma ulp_exponent_lower (q : Q) :
  0 < q -> (-1074 < ulp_exponent q)%Z -> pow2 (ulp_exponent q + 52) <= q.
Proof.
  intros Hq He. destruct (floor_log2_spec q Hq) as [H _].
  eapply Qle_trans; [|exact H]. apply pow2_le. unfold ulp_exponent in *. lia.
Qed.

Lemma ulp_exponent_mono (x y : Q) :
  0 < x -> x <= y -> (ulp_exponent x <= ulp_exponent y)%Z.
Proof.
  intros Hx Hxy. assert (Hy : 0 < y) by lra.
  destruct (Z_le_gt_dec (ulp_exponent x) (ulp_exponent y)) as [H|H]; [exact H|].
  exfalso. pose proof (ulp_exponent_min y) as Hmin.
  pose proof (ulp_exponent_lower x Hx ltac:(lia)) as H1.
  pose proof (ulp_exponent_upper y Hy) as H2.
  assert (H3 : pow2 (ulp_exponent y + 53) <= pow2 (ulp_exponent x + 52))
    by (apply pow2_le; lia).
  lra.
Qed.

Lemma ulp_exponent_comp (x y : Q) : 0 < x -> x == y -> ulp_exponent x = ulp_exponent y.
Proof.
  intros Hx Hxy. assert (Hy : 0 < y) by lra.
  apply Z.le_antisymm; apply ulp_exponent_mono; lra.
Qed.

(** ** Rounding to an integer *)

Lemma round_half_even_near (q : Q) :
  inject_Z (round_half_even q) - (1 # 2) <= q /\
  q <= inject_Z (round_half_even q) + (1 # 2).
Proof.
  pose proof (Qfloor_le q) as H1. pose proof (Qlt_floor q) as H2.
  rewrite inject_Z_plus in H2. change (inject_Z 1) with 1 in H2.
  unfold round_half_even.
  destruct (Qcompare (q - inject_Z (Qfloor q)) (1 # 2)) eqn:E.
  - apply Qeq_alt in E. destruct (Z.even (Qfloor q));
      [|rewrite inject_Z_plus; change (inject_Z 1) with 1]; split; lra.
  - apply Qlt_alt in E. split; lra.
  - apply Qgt_alt in E. rewrite inject_Z_plus. change (inject_Z 1) with 1. split; lra.
Qed.

Lemma round_half_even_cases (q : Q) :
  round_half_even q = Qfloor q \/ round_half_even q = (Qfloor q + 1)%Z.
Proof.
  unfold round_half_even. destruct (Qcompare _ _); try destruct (Z.even _); auto.
Qed.

Lemma round_half_even_comp (x y : Q) : x == y -> round_half_even x = round_half_even y.
Proof.
  intro H. unfold round_half_even.
  assert (Hf : Qfloor x = Qfloor y) by (apply Qfloor_comp; exact H).
  rewrite Hf.
  assert (Hc : Qcompare (x - inject_Z (Qfloor y)) (1 # 2)
               = Qcompare (y - inject_Z (Qfloor y)) (1 # 2)).
  { apply Qcompare_comp; [rewrite H|]; reflexivity. }
  rewrite Hc. reflexivity.
Qed.

Lemma round_half_even_mono (x y : Q) : x <= y -> (round_half_even x <= round_half_even y)%Z.
Proof.
  intro Hxy. pose proof (Qfloor_resp_le x y Hxy) as Hf.
  destruct (Z.eq_dec (Qfloor x) (Qfloor y)) as [Heq|Hne].
  - unfold round_half_even. rewrite Heq.
    destruct (Qcompare (x - inject_Z (Qfloor y)) (1 # 2)) eqn:Ex;
      destruct (Qcompare (y - inject_Z (Qfloor y)) (1 # 2)) eqn:Ey;
      try (destruct (Z.even (Qfloor y)); lia); try lia; exfalso;
      repeat match goal with
             | H : Qcompare _ _ = Eq |- _ => apply Qeq_alt in H
             | H : Qcompare _ _ = Lt |- _ => apply Qlt_alt in H
             | H : Qcompare _ _ = Gt |- _ => apply Qgt_alt in H
             end; lra.
  - destruct (round_half_even_cases x) as [-> | ->];
      destruct (round_half_even_cases y) as [-> | ->]; lia.
Qed.

Lemma round_half_even_Z (n : Z) : round_half_even (inject_Z n) = n.
Proof.
  unfold round_half_even. rewrite Qfloor_Z.
  assert (E : Qcompare (inject_Z n - inject_Z n) (1 # 2) = Lt).
  { apply (proj1 (Qlt_alt _ _)). generalize (inject_Z n). intro z. lra. }
  rewrite E. reflexivity.
Qed.

Lemma round_half_even_ge (n : Z) (q : Q) : inject_Z n <= q -> (n <= round_half_even q)%Z.
Proof. intro H. rewrite <- (round_half_even_Z n). apply round_half_even_mono. exact H. Qed.

Lemma round_half_even_le (n : Z) (q : Q) : q <= inject_Z n -> (round_half_even q <= n)%Z.
Proof. intro H. rewrite <- (round_half_even_Z n). apply round_half_even_mono. exact H. Qed.

(** ** Rounding to binary64 *)

Lemma round_positive_eq (q : Q) :
  round_positive q
  == inject_Z (round_half_even (q / pow2 (ulp_exponent q))) * pow2 (ulp_exponent q).
Proof. unfold round_positive. apply Qred_correct. Qed.

Lemma scaled_upper (q : Q) : 0 < q -> q / pow2 (ulp_exponent q) <= inject_Z (2 ^ 53).
Proof.
  intro Hq. apply Qle_shift_div_r; [apply pow2_pos|].
  rewrite <- pow2_Z by lia. rewrite <- pow2_add.
  rewrite Z.add_comm. apply Qlt_le_weak. apply ulp_exponent_upper. exact Hq.
Qed.

Lemma scaled_lower (q : Q) :
  0 < q -> (-1074 < ulp_exponent q)%Z -> inject_Z (2 ^ 52) <= q / pow2 (ulp_exponent q).
Proof.
  intros Hq He. apply Qle_shift_div_l; [apply pow2_pos|].
  rewrite <- pow2_Z by lia. rewrite <- pow2_add.
  rewrite Z.add_comm. apply ulp_exponent_lower; assumption.
Qed.

Lemma round_positive_nonneg (q : Q) : 0 < q -> 0 <= round_positive q.
Proof.
  intro Hq. rewrite round_positive_eq. apply Qmult_le_0_compat.
  - change 0 with (inject_Z 0). rewrite <- Zle_Qle. apply round_half_even_ge.
    apply Qle_shift_div_l; [apply pow2_pos|]. change (inject_Z 0) with 0. lra.
  - apply Qlt_le_weak, pow2_pos.
Qed.

Lemma round_positive_mono (x y : Q) :
  0 < x -> x <= y -> round_positive x <= round_positive y.
Proof.
  intros Hx Hxy. assert (Hy : 0 < y) by lra.
  rewrite !round_positive_eq.
  pose proof (ulp_exponent_mono x y Hx Hxy) as He.
  destruct (Z.eq_dec (ulp_exponent x) (ulp_exponent y)) as [Heq|Hne].
  - rewrite Heq. apply Qmult_le_compat_r; [|apply Qlt_le_weak, pow2_pos].
    rewrite <- Zle_Qle. apply round_half_even_mono.
    apply Qmult_le_compat_r; [exact Hxy|]. apply Qlt_le_weak, Qinv_lt_0_compat, pow2_pos.
  - apply Qle_trans with (inject_Z (2 ^ 53) * pow2 (ulp_exponent x)).
    { apply Qmult_le_compat_r; [|apply Qlt_le_weak, pow2_pos].
      rewrite <- Zle_Qle. apply round_half_even_le. apply scaled_upper. exact Hx. }
    apply Qle_trans with (inject_Z (2 ^ 52) * pow2 (ulp_exponent y)).
    { rewrite <- !pow2_Z by lia. rewrite <- !pow2_add. apply pow2_le. lia. }
    apply Qmult_le_compat_r; [|apply Qlt_le_weak, pow2_pos].
    rewrite <- Zle_Qle. apply round_half_even_ge. apply scaled_lower; [exact Hy|].
    pose proof (ulp_exponent_min x). lia.
Qed.

Lemma round_positive_error (q : Q) :
  0 < q ->
  round_positive q - pow2 (ulp_exponent q) * (1 # 2) <= q /\
  q <= round_positive q + pow2 (ulp_exponent q) * (1 # 2).
Proof.
  intro Hq. rewrite round_positive_eq.
  pose proof (pow2_pos (ulp_exponent q)) as Hp.
  destruct (round_half_even_near (q / pow2 (ulp_exponent q))) as [H1 H2].
  set (r := inject_Z (round_half_even (q / pow2 (ulp_exponent q)))) in *.
  set (p := pow2 (ulp_exponent q)) in *. clearbody r p.
  assert (Hqp : q == q / p * p) by (field; lra).
  assert (Ha : (r - (1 # 2)) * p <= q / p * p)
    by (apply Qmult_le_compat_r; lra).
  assert (Hb : q / p * p <= (r + (1 # 2)) * p)
    by (apply Qmult_le_compat_r; lra).
  rewrite <- Hqp in Ha, Hb.
  assert (E1 : (r - (1 # 2)) * p == r * p - p * (1 # 2)) by ring.
  assert (E2 : (r + (1 # 2)) * p == r * p + p * (1 # 2)) by ring.
  rewrite E1 in Ha. rewrite E2 in Hb. split; assumption.
Qed.

Lemma fl_comp (x y : Q) : x == y -> fl x = fl y.
Proof. intro H. unfold fl. rewrite (Qred_complete x y H). reflexivity. Qed.

Lemma fl_0 : fl 0 = 0.
Proof. reflexivity. Qed.

Lemma fl_pos (q : Q) : 0 < q -> fl q = round_positive (Qred q).
Proof.
  intro Hq. unfold fl.
  assert (E : Qcompare (Qred q) 0 = Gt).
  { apply (proj1 (Qgt_alt _ _)). rewrite Qred_correct. exact Hq. }
  rewrite E. reflexivity.
Qed.

Lemma fl_neg (q : Q) : q < 0 -> fl q = - round_positive (- Qred q).
Proof.
  intro Hq. unfold fl.
  assert (E : Qcompare (Qred q) 0 = Lt).
  { apply (proj1 (Qlt_alt _ _)). rewrite Qred_correct. exact Hq. }
  rewrite E. reflexivity.
Qed.

Lemma fl_nonneg (q : Q) : 0 <= q -> 0 <= fl q.
Proof.
  intro Hq. destruct (Qlt_le_dec 0 q) as [Hpos|Hle].
  - rewrite fl_pos by exact Hpos. apply round_positive_nonneg.
    rewrite Qred_correct. exact Hpos.
  - rewrite (fl_comp q 0) by lra. rewrite fl_0. lra.
Qed.

Lemma fl_nonpos (q : Q) : q <= 0 -> fl q <= 0.
Proof.
  intro Hq. destruct (Qlt_le_dec q 0) as [Hneg|Hge].
  - rewrite fl_neg by exact Hneg.
    assert (H : 0 <= round_positive (- Qred q)).
    { apply round_positive_nonneg. rewrite Qred_correct. lra. }
    lra.
  - rewrite (fl_comp q 0) by lra. rewrite fl_0. lra.
Qed.

(** Rounding keeps the order. *)
Lemma fl_mono (x y : Q) : x <= y -> fl x <= fl y.
Proof.
  intro Hxy. destruct (Qlt_le_dec 0 x) as [Hx|Hx].
  - rewrite (fl_pos x Hx), (fl_pos y) by lra.
    apply round_positive_mono; rewrite !Qred_correct; assumption.
  - destruct (Qlt_le_dec y 0) as [Hy|Hy].
    + rewrite (fl_neg y Hy), (fl_neg x) by lra.
      assert (H : round_positive (- Qred y) <= round_positive (- Qred x)).
      { apply round_positive_mono; rewrite !Qred_correct; lra. }
      lra.
    + apply Qle_trans with 0; [apply fl_nonpos | apply fl_nonneg]; assumption.
Qed.

(** The rounding error is at most half a unit in the last place. *)
Lemma fl_error (q : Q) :
  0 < q ->
  fl q - pow2 (ulp_exponent q) * (1 # 2) <= q /\ q <= fl q + pow2 (ulp_exponent q) * (1 # 2).
Proof.
  intro Hq. rewrite (fl_pos q Hq).
  assert (Hr : 0 < Qred q) by (rewrite Qred_correct; exact Hq).
  destruct (round_positive_error (Qred q) Hr) as [H1 H2].
  rewrite (ulp_exponent_comp (Qred q) q Hr (Qred_correct q)) in H1, H2.
  rewrite Qred_correct in H1 at 2. rewrite Qred_correct in H2 at 1.
  split; assumption.
Qed.

Lemma is_float_iff (q : Q) : is_float q = true <-> fl q == q.
Proof. unfold is_float. apply Qeq_bool_iff. Qed.

Lemma fl_float (q : Q) : is_float q = true -> fl q == q.
Proof. apply is_float_iff. Qed.

Lemma fl_le_float (q c : Q) : is_float c = true -> q <= c -> fl q <= c.
Proof. intros Hc H. rewrite <- (fl_float c Hc). apply fl_mono. exact H. Qed.

Lemma fl_ge_float (q c : Q) : is_float c = true -> c <= q -> c <= fl q.
Proof. intros Hc H. rewrite <- (fl_float c Hc). apply fl_mono. exact H. Qed.

(** Adding a number that is not negative to a float does not give less. *)
Lemma fadd_ge_l (a b : Q) : is_float a = true -> 0 <= b -> a <= fadd a b.
Proof. intros Ha Hb. unfold fadd. apply fl_ge_float; [exact Ha | lra]. Qed.

(** Two numbers that are further apart than the unit in the last place of
    the larger one are rounded to different floats. *)
Lemma fl_strict (x y : Q) :
  0 <= x -> x < y -> pow2 (ulp_exponent y) < y - x -> fl x < fl y.
Proof.
  intros Hx0 Hxy Hgap. assert (Hy : 0 < y) by lra.
  destruct (fl_error y Hy) as [_ Hly].
  destruct (Qlt_le_dec 0 x) as [Hx|Hx].
  - destruct (fl_error x Hx) as [Hux _].
    pose proof (pow2_le _ _ (ulp_exponent_mono x y Hx (Qlt_le_weak _ _ Hxy))) as Hulp.
    revert Hgap Hux Hly Hulp.
    generalize (pow2 (ulp_exponent x)) (pow2 (ulp_exponent y)) (fl x) (fl y).
    intros px py fx fy Hgap Hux Hly Hulp. lra.
  - rewrite (fl_comp x 0) by lra. rewrite fl_0.
    revert Hgap Hly. generalize (pow2 (ulp_exponent y)) (fl y).
    intros py fy Hgap Hly. lra.
Qed.

(** ** The interpolator *)

Lemma Qlt_bool_iff (a b : Q) : Qlt_bool a b = true <-> a < b.
Proof.
  unfold Qlt_bool. rewrite negb_true_iff. split.
  - intro H. apply Qnot_le_lt. intro Hle. apply Qle_bool_iff in Hle. congruence.
  - intro H. destruct (Qle_bool b a) eqn:E; [|reflexivity].
    apply Qle_bool_iff in E. exfalso. apply (Qlt_not_le _ _ H E).
Qed.

Lemma Qle_bool_false_iff (a b : Q) : Qle_bool a b = false <-> b < a.
Proof.
  rewrite <- Qlt_bool_iff. unfold Qlt_bool. rewrite negb_true_iff. tauto.
Qed.




Lemma nth_error_last {A : Type} (l : list A) (d : A) :
  l <> [] -> nth_error l (length l - 1) = Some (last l d).
Proof.
  induction l as [|a l IH]; intro Hne; [congruence|].
  destruct l as [|b l]; [reflexivity|].
  replace (length (a :: b :: l) - 1)%nat with (S (length (b :: l) - 1))
    by (simpl; lia).
  change (nth_error (b :: l) (length (b :: l) - 1) = Some (last (b :: l) d)).
  apply IH. discriminate.
Qed.


Lemma non_negative_nth (traj : list Fixed.TrajectoryPoint) (i : nat)
    (p : Fixed.TrajectoryPoint) :
  non_negative traj = true -> nth_error traj i = Some p ->
  0 <= Fixed.pt_time p /\ 0 <= Fixed.pause_duration p.
Proof.
  intros Hnn Hi. unfold non_negative in Hnn. rewrite forallb_forall in Hnn.
  specialize (Hnn p (nth_error_In _ _ Hi)). apply andb_true_iff in Hnn.
  destruct Hnn as [H1 H2]. split; apply Qle_bool_iff; assumption.
Qed.

Lemma float_times_nth (traj : list Fixed.TrajectoryPoint) (i : nat)
    (p : Fixed.TrajectoryPoint) :
  float_times traj = true -> nth_error traj i = Some p ->
  is_float (Fixed.pt_time p) = true.
Proof.
  intros Hfl Hi. unfold float_times in Hfl. rewrite forallb_forall in Hfl.
  apply Hfl. apply (nth_error_In _ _ Hi).
Qed.

(** A waypoint whose arrival time is a float and whose pause is not negative
    is not left before it is reached. *)
Lemma departure_after_arrival (p : Fixed.TrajectoryPoint) :
  is_float (Fixed.pt_time p) = true -> 0 <= Fixed.pause_duration p ->
  Fixed.pt_time p <= Fixed.departure_time p.
Proof. intros Hf Hp. unfold Fixed.departure_time. apply fadd_ge_l; assumption. Qed.

Lemma waypoint_times (traj : list Fixed.TrajectoryPoint) (i : nat)
    (p : Fixed.TrajectoryPoint) :
  non_negative traj = true -> float_times traj = true -> nth_error traj i = Some p ->
  0 <= Fixed.pt_time p /\ Fixed.pt_time p <= Fixed.departure_time p.
Proof.
  intros Hnn Hfl Hi. destruct (non_negative_nth traj i p Hnn Hi) as [H0 Hp].
  split; [exact H0|]. apply departure_after_arrival; [|exact Hp].
  apply (float_times_nth traj i p Hfl Hi).
Qed.



Lemma get_position_at_time_cons (first : Fixed.TrajectoryPoint)
    (rest : list Fixed.TrajectoryPoint) (t : Q) :
  Fixed.get_position_at_time (first :: rest) t =
  if (length (first :: rest) =? 1)%nat then Fixed.at_point first
  else if Qle_bool t 0 then Fixed.at_point first
  else match for_return (seq 0 (length (first :: rest)))
                        (Fixed.position_step (first :: rest) t) with
       | Some p => p
       | None => Fixed.at_point (last (first :: rest) first)
       end.
Proof. reflexivity. Qed.





(** A pause of the first waypoint that outlasts the arrival at the last one
    holds the vehicle at the first waypoint after the last departure. *)
Lemma long_pause_holds_vehicle :
  sorted_by_arrival long_first_pause = true /\
  non_negative long_first_pause = true /\
  pos_eq (Fixed.get_position_at_time long_first_pause 5) (0, 0).
Proof. vm_compute. repeat split; reflexivity. Qed.

(** The departure time is the float sum.  With waypoints at 0.1 s (pause
    0.3 s) and 0.4 s the sum [0.1 + 0.3] of the two floats is below the
    float [0.4], but it is rounded to [0.4]: at [t = 0.4] the vehicle is
    still held at the second waypoint. *)
Lemma rounded_departure_holds_vehicle :
  fl (1 # 10) + fl (3 # 10) < fl (4 # 10) /\
  fadd (fl (1 # 10)) (fl (3 # 10)) == fl (4 # 10) /\
  pos_eq (Fixed.get_position_at_time decimal_waypoints (fl (4 # 10))) (100, 0).
Proof. vm_compute. repeat split; reflexivity. Qed.

(** The V3 interpolator clamps at neither end: after the last departure it
    may still serve the pause of an earlier waypoint, and before the first
    arrival time it is already moving. *)
Lemma v3_does_not_clamp :
  pos_eq (V3.get_position_at_time v3_pausing_start 6) (0, 0) /\
  pos_eq (V3.get_position_at_time v3_late_start (1 # 2)) (25, 0).
Proof. vm_compute. repeat split; reflexivity. Qed.



(** C10: with an empty waypoint list the interpolator of either editor
    returns the fixed default [(100, 100)] at every query time; it is a total
    function, and the default is not the origin. *)
Theorem empty_trajectory_default_position (t : Q) :
  Fixed.get_position_at_time [] t = (100, 100) /\
  V3.get_position_at_time [] t = (100, 100) /\
  ~ pos_eq (Fixed.get_position_at_time [] t) (0, 0).
Proof.
  repeat split. intros [Hx _]. vm_compute in Hx. discriminate.
Qed.

(** ** The playback clock *)

Lemma py_max_cases (a b : Q) :
  (a < b /\ py_max a b = b) \/ (b <= a /\ py_max a b = a).
Proof.
  unfold py_max, Qmax, GenericMinMax.gmax.
  destruct (a ?= b) eqn:E.
  - right. split; [|reflexivity]. apply Qeq_alt in E. rewrite E. apply Qle_refl.
  - left. split; [|reflexivity]. apply Qlt_alt. exact E.
  - right. split; [|reflexivity]. apply Qlt_le_weak. apply Qgt_alt. exact E.
Qed.

(** The loop of [update_animation] computes a maximum: it dominates its
    start value and every last arrival time, and it is one of them. *)
Lemma last_arrival_fold_max (vs : list Fixed.Vehicle) (acc : Q) :
  let m := fold_left Fixed.last_arrival_fold vs acc in
  acc <= m /\
  (forall v p, In v vs -> last_waypoint v = Some p -> Fixed.pt_time p <= m) /\
  (m = acc \/ exists v p, In v vs /\ last_waypoint v = Some p /\ m = Fixed.pt_time p).
Proof.
  revert acc. induction vs as [|v vs IH]; intro acc; cbn zeta.
  - simpl. split; [apply Qle_refl|]. split; [intros ? ? []|left; reflexivity].
  - cbn [fold_left]. specialize (IH (Fixed.last_arrival_fold acc v)).
    cbn zeta in IH. destruct IH as (Hacc & Hall & Hex).
    assert (Hstep : acc <= Fixed.last_arrival_fold acc v /\
                    (forall p, last_waypoint v = Some p ->
                               Fixed.pt_time p <= Fixed.last_arrival_fold acc v) /\
                    (Fixed.last_arrival_fold acc v = acc \/
                     exists p, last_waypoint v = Some p /\
                               Fixed.last_arrival_fold acc v = Fixed.pt_time p)).
    { unfold Fixed.last_arrival_fold, last_waypoint.
      destruct (Fixed.trajectory v) as [|p0 rest] eqn:Ht.
      - split; [apply Qle_refl|]. split; [discriminate|left; reflexivity].
      - destruct (py_max_cases acc (Fixed.pt_time (last (p0 :: rest) p0)))
          as [[Hlt ->]|[Hle ->]].
        + split; [apply Qlt_le_weak; exact Hlt|]. split.
          * intros p [= <-]. apply Qle_refl.
          * right. eexists. split; reflexivity.
        + split; [apply Qle_refl|]. split.
          * intros p [= <-]. exact Hle.
          * left. reflexivity. }
    destruct Hstep as (H1 & H2 & H3). split; [|split].
    + eapply Qle_trans; eassumption.
    + intros w p [<-|Hin] Hp.
      * eapply Qle_trans; [apply H2; exact Hp | exact Hacc].
      * apply (Hall w p Hin Hp).
    + destruct Hex as [Heq|(w & p & Hin & Hp & Heq)].
      * destruct H3 as [H3|(p & Hp & H3)].
        -- left. congruence.
        -- right. exists v, p. split; [left; reflexivity|]. split; [exact Hp|congruence].
      * right. exists w, p. split; [right; exact Hin|]. split; assumption.
Qed.

Lemma redraw_scene_keeps (e : Fixed.VehicleEditor) :
  Fixed.store (Fixed.redraw_scene e) = Fixed.store e /\
  Fixed.assets (Fixed.redraw_scene e) = Fixed.assets e /\
  Fixed.selection (Fixed.redraw_scene e) = Fixed.selection e /\
  Fixed.status_label (Fixed.redraw_scene e) = Fixed.status_label e /\
  Fixed.dialogs (Fixed.redraw_scene e) = Fixed.dialogs e /\
  Fixed.current_time (Fixed.view (Fixed.redraw_scene e)) = Fixed.current_time (Fixed.view e) /\
  Fixed.max_time (Fixed.view (Fixed.redraw_scene e)) = Fixed.max_time (Fixed.view e) /\
  Fixed.is_playing (Fixed.view (Fixed.redraw_scene e)) = Fixed.is_playing (Fixed.view e) /\
  Fixed.show_trajectory (Fixed.view (Fixed.redraw_scene e))
    = Fixed.show_trajectory (Fixed.view e) /\
  Fixed.scene_items (Fixed.view (Fixed.redraw_scene e)) = Fixed.compose_scene e.
Proof.
  unfold Fixed.redraw_scene. cbn [Fixed.store Fixed.set_view].
  destruct (py_max_of (map Fixed.road_right (Fixed.roads (Fixed.store e))));
    destruct (py_max_of (map Fixed.road_bottom (Fixed.roads (Fixed.store e))));
    repeat split.
Qed.

Lemma redraw_scene_current_time (e : Fixed.VehicleEditor) :
  Fixed.current_time (Fixed.view (Fixed.redraw_scene e)) = Fixed.current_time (Fixed.view e).
Proof. apply redraw_scene_keeps. Qed.

Lemma redraw_scene_max_time (e : Fixed.VehicleEditor) :
  Fixed.max_time (Fixed.view (Fixed.redraw_scene e)) = Fixed.max_time (Fixed.view e).
Proof. apply redraw_scene_keeps. Qed.

Lemma redraw_scene_store (e : Fixed.VehicleEditor) :
  Fixed.store (Fixed.redraw_scene e) = Fixed.store e.
Proof. apply redraw_scene_keeps. Qed.

Lemma redraw_scene_show_trajectory (e : Fixed.VehicleEditor) :
  Fixed.show_trajectory (Fixed.view (Fixed.redraw_scene e))
  = Fixed.show_trajectory (Fixed.view e).
Proof. apply redraw_scene_keeps. Qed.

Lemma redraw_scene_is_playing (e : Fixed.VehicleEditor) :
  Fixed.is_playing (Fixed.view (Fixed.redraw_scene e)) = Fixed.is_playing (Fixed.view e).
Proof. apply redraw_scene_keeps. Qed.

Lemma redraw_scene_items (e : Fixed.VehicleEditor) :
  Fixed.scene_items (Fixed.view (Fixed.redraw_scene e)) = Fixed.compose_scene e.
Proof. apply redraw_scene_keeps. Qed.

(** C3, as stated, fails: for a vehicle that arrives at its last waypoint at
    2 s and pauses there for 1 s the specification's bound is 3 s, while the
    tick sets [max_time] to 2 s, the last arrival time. *)
Lemma playback_bound_as_stated_fails :
  ~ (Fixed.max_time (Fixed.view (Fixed.update_animation
                                   (editor_with_vehicles [pausing_vehicle])))
     == stated_max_time [pausing_vehicle]).
Proof. vm_compute. discriminate. Qed.

(** The wrap test reads the float sum.  With [max_time] 0.5 s and the clock
    at the float 0.467 the sum of the two floats is above 0.5, but it is
    rounded to 0.5: the clock is set to 0.5 and does not wrap. *)
Lemma rounded_tick_does_not_wrap :
  1 # 2 < fl (467 # 1000) + fl (33 # 1000) /\
  Fixed.max_time (Fixed.view (Fixed.update_animation late_clock_editor)) == 1 # 2 /\
  Fixed.current_time (Fixed.view (Fixed.update_animation late_clock_editor)) == 1 # 2.
Proof. vm_compute. repeat split; reflexivity. Qed.

Lemma init_editor_max_time (a : Fixed.Assets) :
  Fixed.max_time (Fixed.view (Fixed.init_editor a)) = 10.
Proof.
  unfold Fixed.init_editor. destruct (Fixed.road_pixmaps a) as [|pixmap rest] eqn:E;
    [reflexivity|].
  unfold Fixed.add_road. cbn [Fixed.assets]. rewrite E.
  rewrite redraw_scene_max_time. reflexivity.
Qed.

(** C3 (amended): after a playback tick, [max_time] - the value beyond which
    [current_time] wraps to 0 - is the largest arrival time of a last
    waypoint over all vehicles that have a waypoint, when that time is
    positive, and is left as it was otherwise (it is 10 in the fresh
    editor); pauses do not count and no minimum is applied to it.  The clock
    advances by the float sum [current_time + 0.033] and wraps to 0 exactly
    when that sum exceeds [max_time]. *)
Theorem playback_max_time (a : Fixed.Assets) (e : Fixed.VehicleEditor) :
  let e' := Fixed.update_animation e in
  let vs := Fixed.vehicles (Fixed.store e) in
  let ticked := fl (Fixed.current_time (Fixed.view e) + fl (33 # 1000)) in
  Fixed.max_time (Fixed.view (Fixed.init_editor a)) = 10 /\
  ((exists v p, In v vs /\ last_waypoint v = Some p /\ 0 < Fixed.pt_time p) ->
     (forall v p, In v vs -> last_waypoint v = Some p ->
                  Fixed.pt_time p <= Fixed.max_time (Fixed.view e')) /\
     (exists v p, In v vs /\ last_waypoint v = Some p /\
                  Fixed.max_time (Fixed.view e') = Fixed.pt_time p)) /\
  ((forall v p, In v vs -> last_waypoint v = Some p -> Fixed.pt_time p <= 0) ->
     Fixed.max_time (Fixed.view e') = Fixed.max_time (Fixed.view e)) /\
  (Fixed.max_time (Fixed.view e') < ticked -> Fixed.current_time (Fixed.view e') = 0) /\
  (ticked <= Fixed.max_time (Fixed.view e') -> Fixed.current_time (Fixed.view e') = ticked).
Proof.
  cbn zeta. split; [apply init_editor_max_time|].
  destruct (last_arrival_fold_max (Fixed.vehicles (Fixed.store e)) 0) as (H0 & Hall & Hex).
  cbn zeta in H0, Hall, Hex. fold (Fixed.compute_max_t (Fixed.vehicles (Fixed.store e))) in *.
  unfold Fixed.update_animation. cbv zeta.
  rewrite redraw_scene_current_time, redraw_scene_max_time.
  cbn [Fixed.view Fixed.set_view].
  set (m := Fixed.compute_max_t (Fixed.vehicles (Fixed.store e))) in *.
  change (fadd (Fixed.current_time (Fixed.view e)) Fixed.time_step)
    with (fl (Fixed.current_time (Fixed.view e) + fl (33 # 1000))).
  set (ticked := fl (Fixed.current_time (Fixed.view e) + fl (33 # 1000))).
  assert (Hzero : m = 0 -> ~ 0 < m) by (intros -> H; apply (Qlt_irrefl 0 H)).
  destruct (Qlt_bool 0 m) eqn:Hpos.
  - apply Qlt_bool_iff in Hpos.
    cbn [Fixed.set_max_time Fixed.max_time Fixed.current_time Fixed.set_current_time].
    destruct Hex as [Heq|Hex]; [exfalso; apply (Hzero Heq Hpos)|].
    assert (Hsome : ~ (forall v p, In v (Fixed.vehicles (Fixed.store e)) ->
                         last_waypoint v = Some p -> Fixed.pt_time p <= 0)).
    { intro Hnone. destruct Hex as (v & p & Hin & Hp & Heq).
      specialize (Hnone v p Hin Hp). rewrite <- Heq in Hnone. lra. }
    destruct (Qlt_bool m ticked) eqn:Hwrap;
      cbn [Fixed.set_time_slider Fixed.set_current_time Fixed.set_max_time
           Fixed.max_time Fixed.current_time];
      (split; [intros _; split; [exact Hall | exact Hex]|]);
      (split; [intro Hnone; contradiction|]).
    + apply Qlt_bool_iff in Hwrap.
      split; [intros _; reflexivity | intro Hle; exfalso; lra].
    + unfold Qlt_bool in Hwrap. apply negb_false_iff in Hwrap. apply Qle_bool_iff in Hwrap.
      split; [intro Hlt; exfalso; lra | intros _; reflexivity].
  - assert (Hnpos : ~ 0 < m).
    { intro H. apply Qlt_bool_iff in H. congruence. }
    cbn [Fixed.set_max_time Fixed.max_time Fixed.current_time Fixed.set_current_time].
    assert (Hnone : ~ (exists v p, In v (Fixed.vehicles (Fixed.store e)) /\
                         last_waypoint v = Some p /\ 0 < Fixed.pt_time p)).
    { intros (v & p & Hin & Hp & Hlt). specialize (Hall v p Hin Hp). lra. }
    destruct (Qlt_bool (Fixed.max_time (Fixed.view e)) ticked) eqn:Hwrap;
      cbn [Fixed.set_time_slider Fixed.set_current_time Fixed.set_max_time
           Fixed.max_time Fixed.current_time];
      (split; [intro Hyes; contradiction|]);
      (split; [intros _; reflexivity|]).
    + apply Qlt_bool_iff in Hwrap.
      split; [intros _; reflexivity | intro Hle; exfalso; lra].
    + unfold Qlt_bool in Hwrap. apply negb_false_iff in Hwrap. apply Qle_bool_iff in Hwrap.
      split; [intro Hlt; exfalso; lra | intros _; reflexivity].
Qed.

Lemma playback_max_time_witness :
  (forall v p, In v [pausing_vehicle] -> last_waypoint v = Some p ->
     Fixed.pt_time p <= Fixed.max_time (Fixed.view (Fixed.update_animation
                                           (editor_with_vehicles [pausing_vehicle])))) /\
  Fixed.current_time (Fixed.view (Fixed.update_animation
                                    (editor_with_vehicles [pausing_vehicle])))
  = fl (0 + fl (33 # 1000)).
Proof.
  destruct (playback_max_time no_assets (editor_with_vehicles [pausing_vehicle]))
    as (_ & Hmax & _ & _ & Hkeep).
  split.
  - apply Hmax. exists pausing_vehicle. eexists.
    split; [left; reflexivity|]. split; [reflexivity|]. vm_compute. reflexivity.
  - apply Hkeep. vm_compute. discriminate.
Defined.

(** ** Video export *)

Lemma py_int_floor (q : Q) : Z.to_nat (py_int q) = Z.to_nat (Qfloor q).
Proof.
  destruct q as [n d]. unfold py_int, Qfloor. cbn [Qnum Qden].
  destruct (Z_lt_le_dec n 0) as [Hneg|Hpos].
  - assert (H1 : (Z.quot n (Z.pos d) <= 0)%Z).
    { replace n with (- (- n))%Z by lia. rewrite Z.quot_opp_l by lia.
      pose proof (Z.quot_pos (- n) (Z.pos d)) as Hq. lia. }
    assert (H2 : (n / Z.pos d < 0)%Z) by (apply Z.div_lt_upper_bound; lia).
    lia.
  - rewrite Z.quot_div_nonneg by lia. reflexivity.
Qed.

Lemma ulp_below (y g : Q) :
  0 < y -> pow2 (-1074) < g -> y * pow2 (-52) < g -> pow2 (ulp_exponent y) < g.
Proof.
  intros Hy Hmin Hrel.
  destruct (Z.eq_dec (ulp_exponent y) (-1074)) as [E|E]; [rewrite E; exact Hmin|].
  pose proof (ulp_exponent_min y) as Hlow.
  pose proof (ulp_exponent_lower y Hy ltac:(lia)) as H.
  assert (Hsplit : pow2 (ulp_exponent y) == pow2 (ulp_exponent y + 52) * pow2 (-52)).
  { rewrite <- pow2_add. replace (ulp_exponent y + 52 + -52)%Z with (ulp_exponent y) by lia.
    reflexivity. }
  rewrite Hsplit. eapply Qle_lt_trans; [|exact Hrel].
  apply Qmult_le_compat_r; [exact H|]. apply Qlt_le_weak, pow2_pos.
Qed.

(** The frame times of an export increase strictly, as long as the frame
    index has fewer than 53 bits. *)
Lemma frame_time_increasing (fps : Z) (i j : nat) :
  (1 <= fps <= 60)%Z -> (i < j)%nat -> (Z.of_nat j < 2 ^ 52)%Z ->
  Fixed.frame_time fps i < Fixed.frame_time fps j.
Proof.
  intros Hfps Hij Hj. unfold Fixed.frame_time, fdiv.
  set (f := inject_Z fps).
  assert (Hf1 : 1 <= f) by (subst f; change 1 with (inject_Z 1); rewrite <- Zle_Qle; lia).
  assert (Hf60 : f <= 60)
    by (subst f; change 60 with (inject_Z 60); rewrite <- Zle_Qle; lia).
  assert (Hinv : 0 < / f) by (apply Qinv_lt_0_compat; lra).
  set (x := inject_Z (Z.of_nat i) / f). set (y := inject_Z (Z.of_nat j) / f).
  assert (Hi0 : 0 <= inject_Z (Z.of_nat i))
    by (change 0 with (inject_Z 0); rewrite <- Zle_Qle; lia).
  assert (Hgap : inject_Z (Z.of_nat i) + 1 <= inject_Z (Z.of_nat j)).
  { change 1 with (inject_Z 1). rewrite <- inject_Z_plus, <- Zle_Qle. lia. }
  assert (Hx : 0 <= x) by (subst x; apply Qle_shift_div_l; lra).
  assert (Hstep : x + / f <= y).
  { subst x y. unfold Qdiv. rewrite <- (Qmult_1_l (/ f)) at 2.
    rewrite <- Qmult_plus_distr_l. apply Qmult_le_compat_r; lra. }
  assert (Hsmall : pow2 (-1074) < / f).
  { apply Qlt_le_trans with (1 # 60); [vm_compute; reflexivity|].
    apply Qle_shift_inv_l; lra. }
  assert (Hjb : inject_Z (Z.of_nat j) * pow2 (-52) < 1).
  { apply Qlt_le_trans with (inject_Z (2 ^ 52) * pow2 (-52)); [|vm_compute; discriminate].
    apply Qmult_lt_compat_r; [apply pow2_pos|]. rewrite <- Zlt_Qlt. exact Hj. }
  apply fl_strict; [exact Hx | lra |].
  apply Qlt_le_trans with (/ f); [|lra].
  apply ulp_below; [lra | exact Hsmall |].
  subst y. unfold Qdiv. rewrite <- Qmult_assoc, (Qmult_comm (/ f)), Qmult_assoc.
  rewrite <- (Qmult_1_l (/ f)) at 2. apply Qmult_lt_compat_r; assumption.
Qed.

(** With the overlay flag off the composed scene has no trajectory overlay. *)
Lemma compose_scene_hidden (e : Fixed.VehicleEditor) :
  Fixed.show_trajectory (Fixed.view e) = false ->
  forallb (fun d => negb (is_overlay d)) (Fixed.compose_scene e) = true.
Proof.
  intro Hoff. apply forallb_forall. intros d Hin. unfold Fixed.compose_scene in Hin.
  repeat (apply in_app_or in Hin; destruct Hin as [Hin|Hin]).
  - apply in_map_iff in Hin. destruct Hin as (r & <- & _). reflexivity.
  - apply in_map_iff in Hin. destruct Hin as (c & <- & _). reflexivity.
  - apply in_flat_map in Hin. destruct Hin as (v & _ & Hin).
    unfold Fixed.draw_vehicle in Hin. rewrite Hoff in Hin. cbn [andb app] in Hin.
    destruct (length (Fixed.trajectory v) <=? 1)%nat;
      destruct Hin as [<-|[]]; reflexivity.
  - apply in_map_iff in Hin. destruct Hin as (l & <- & _). reflexivity.
Qed.

(** The composed scene only reads the store, the two flags and the clock. *)
Lemma compose_scene_ext (e1 e2 : Fixed.VehicleEditor) :
  same_scene_inputs e1 e2 ->
  Fixed.current_time (Fixed.view e1) = Fixed.current_time (Fixed.view e2) ->
  Fixed.compose_scene e1 = Fixed.compose_scene e2.
Proof.
  intros (Hs & Hshow & Hplay) Ht. unfold Fixed.compose_scene. rewrite Hs.
  do 2 f_equal. f_equal.
  apply flat_map_ext. intro v. unfold Fixed.draw_vehicle.
  rewrite Hshow, Hplay, Ht. reflexivity.
Qed.

Lemma scene_at_ext (t : Q) (e1 e2 : Fixed.VehicleEditor) :
  same_scene_inputs e1 e2 -> scene_at t e1 = scene_at t e2.
Proof.
  intros (Hs & Hshow & Hplay). unfold scene_at. apply compose_scene_ext.
  - repeat split; cbn; assumption.
  - reflexivity.
Qed.

(** Preparing a frame: the scene is the one at the frame's time, the clock
    shows that time, the store and the flags are untouched. *)
Lemma prepare_frame_spec (fps : Z) (i : nat) (e : Fixed.VehicleEditor) :
  same_scene_inputs (Fixed.prepare_frame fps i e) e /\
  Fixed.current_time (Fixed.view (Fixed.prepare_frame fps i e)) = Fixed.frame_time fps i /\
  Fixed.scene_items (Fixed.view (Fixed.prepare_frame fps i e))
  = scene_at (Fixed.frame_time fps i) e.
Proof.
  unfold Fixed.prepare_frame, same_scene_inputs.
  rewrite redraw_scene_store, redraw_scene_show_trajectory, redraw_scene_is_playing,
    redraw_scene_current_time, redraw_scene_items.
  repeat split.
Qed.

Lemma same_scene_inputs_trans (e1 e2 e3 : Fixed.VehicleEditor) :
  same_scene_inputs e1 e2 -> same_scene_inputs e2 e3 -> same_scene_inputs e1 e3.
Proof.
  intros (A1 & A2 & A3) (B1 & B2 & B3). repeat split; congruence.
Qed.

(** The image of a frame can be handed to numpy exactly when the frame
    width is a multiple of four. *)
Lemma bytes_per_line_spec (w : Z) :
  (w mod 4 = 0)%Z <-> Fixed.bytes_per_line w = (w * 3)%Z.
Proof.
  unfold Fixed.bytes_per_line.
  pose proof (Z.div_mod w 4 ltac:(lia)) as Hw.
  pose proof (Z.mod_pos_bound w 4 ltac:(lia)) as Hr.
  set (k := (w / 4)%Z) in *. set (r := (w mod 4)%Z) in *.
  assert (Hdiv : ((w * 24 + 31) / 32 = 3 * k + (24 * r + 31) / 32)%Z).
  { replace (w * 24 + 31)%Z with (3 * k * 32 + (24 * r + 31))%Z by lia.
    apply Z.div_add_l. lia. }
  rewrite Hdiv.
  assert (Hcases : (r = 0 \/ r = 1 \/ r = 2 \/ r = 3)%Z) by lia.
  destruct Hcases as [E|[E|[E|E]]]; rewrite E in *;
    [change ((24 * 0 + 31) / 32)%Z with 0%Z
    |change ((24 * 1 + 31) / 32)%Z with 1%Z
    |change ((24 * 2 + 31) / 32)%Z with 2%Z
    |change ((24 * 3 + 31) / 32)%Z with 3%Z]; lia.
Qed.

Lemma image_array_ok (w h : Z) (i : nat) :
  (0 < w)%Z -> (0 < h)%Z -> (w mod 4 = 0)%Z -> Fixed.image_array w h i = None.
Proof.
  intros Hw Hh Hm. unfold Fixed.image_array, Fixed.size_in_bytes.
  replace (w <=? 0)%Z with false by (symmetry; apply Z.leb_gt; exact Hw).
  replace (h <=? 0)%Z with false by (symmetry; apply Z.leb_gt; exact Hh).
  cbn [orb]. rewrite (proj1 (bytes_per_line_spec w) Hm).
  replace (w * 3 * h =? h * w * 3)%Z with true by (symmetry; apply Z.eqb_eq; lia).
  reflexivity.
Qed.


Lemma frames_can_be_built_iff (e : Fixed.VehicleEditor) :
  frames_can_be_built e = true <->
  (0 < frame_width_of e)%Z /\ (0 < frame_height_of e)%Z /\ (frame_width_of e mod 4 = 0)%Z.
Proof.
  unfold frames_can_be_built. rewrite !andb_true_iff, !Z.ltb_lt, Z.eqb_eq. tauto.
Qed.

(** What a sequence of [write] calls leaves in the writer. *)
Lemma write_all (fs : list Fixed.Frame) :
  forall out,
    fold_left (fun o f => Fixed.write f o) fs out
    = if Fixed.opened out
      then {| Fixed.opened := true; Fixed.written := Fixed.written out ++ fs |}
      else out.
Proof.
  induction fs as [|f fs IH]; intro out; cbn [fold_left].
  - destruct out as [[|] ws]; cbn; [rewrite app_nil_r|]; reflexivity.
  - rewrite IH. unfold Fixed.write. destruct (Fixed.opened out) eqn:E.
    + cbn [Fixed.opened Fixed.written]. rewrite <- app_assoc. reflexivity.
    + rewrite E. reflexivity.
Qed.

(** The frame loop with frames that can be built: it returns, and has
    handed one frame per index to the writer, each composed at that frame's
    time. *)
Lemma export_frames_returns (fps w h : Z) (e0 : Fixed.VehicleEditor) (idxs : list nat) :
  (0 < w)%Z -> (0 < h)%Z -> (w mod 4 = 0)%Z ->
  forall e out,
    same_scene_inputs e e0 ->
    exists e',
      Fixed.export_frames fps w h idxs e out
      = (e', fold_left (fun o f => Fixed.write f o) (frames_of fps w h e0 idxs) out,
         Returned) /\
      same_scene_inputs e' e0 /\
      (idxs = [] -> e' = e) /\
      (idxs <> [] ->
       Fixed.current_time (Fixed.view e') = Fixed.frame_time fps (last idxs 0%nat)).
Proof.
  intros Hw Hh Hm. induction idxs as [|i rest IH]; intros e out Hsame.
  - exists e. split; [reflexivity|]. split; [exact Hsame|].
    split; [reflexivity | congruence].
  - cbn [Fixed.export_frames]. rewrite (image_array_ok w h i Hw Hh Hm).
    destruct (prepare_frame_spec fps i e) as (Hprep & Hclock & Hitems).
    destruct (IH (Fixed.prepare_frame fps i e)
                 (Fixed.write (Fixed.render w h (Fixed.prepare_frame fps i e)) out))
      as (e' & Hrun & Hsame' & Hnil & Hlast).
    { eapply same_scene_inputs_trans; eassumption. }
    exists e'. split; [|split; [exact Hsame'|split; [discriminate|]]].
    + rewrite Hrun. cbn [frames_of map fold_left]. unfold Fixed.render at 1.
      rewrite Hitems, (scene_at_ext _ e e0 Hsame). reflexivity.
    + intros _. destruct rest as [|i' rest'].
      * rewrite (Hnil eq_refl). exact Hclock.
      * apply Hlast. discriminate.
Qed.


Lemma hide_overlay_inputs (e : Fixed.VehicleEditor) :
  same_scene_inputs (hide_overlay e) (hide_overlay e).
Proof. repeat split. Qed.

Lemma frames_of_exported (fps : Z) (e : Fixed.VehicleEditor) (idxs : list nat) :
  frames_of fps (frame_width_of e) (frame_height_of e) (hide_overlay e) idxs
  = map (exported_frame fps e) idxs.
Proof. reflexivity. Qed.

Lemma py_int_nonneg (q : Q) : 0 <= q -> py_int q = Qfloor q.
Proof.
  intro H. destruct q as [n d]. unfold py_int, Qfloor. cbn [Qnum Qden].
  apply Z.quot_div_nonneg; [|lia]. unfold Qle in H. cbn in H. lia.
Qed.

Lemma prepare_frame_keeps (fps : Z) (i : nat) (e : Fixed.VehicleEditor) :
  Fixed.dialogs (Fixed.prepare_frame fps i e) = Fixed.dialogs e /\
  Fixed.status_label (Fixed.prepare_frame fps i e) = Fixed.status_label e /\
  Fixed.selection (Fixed.prepare_frame fps i e) = Fixed.selection e /\
  Fixed.max_time (Fixed.view (Fixed.prepare_frame fps i e)) = Fixed.max_time (Fixed.view e).
Proof.
  unfold Fixed.prepare_frame.
  destruct (redraw_scene_keeps
              (Fixed.set_view (Fixed.set_current_time (Fixed.frame_time fps i) (Fixed.view e)) e))
    as (_ & _ & Hsel & Hst & Hd & _ & Hmt & _).
  rewrite Hsel, Hst, Hd, Hmt. repeat split.
Qed.

(** The frame loop shows no message and touches neither the selection nor
    [max_time], however it ends. *)
Lemma export_frames_keeps (fps w h : Z) (idxs : list nat) :
  forall e out,
    let e' := fst (fst (Fixed.export_frames fps w h idxs e out)) in
    Fixed.dialogs e' = Fixed.dialogs e /\
    Fixed.status_label e' = Fixed.status_label e /\
    Fixed.selection e' = Fixed.selection e /\
    Fixed.max_time (Fixed.view e') = Fixed.max_time (Fixed.view e).
Proof.
  induction idxs as [|i rest IH]; intros e out; cbv zeta; [repeat split|].
  cbn [Fixed.export_frames].
  destruct (prepare_frame_keeps fps i e) as (Hd & Hs & Hsel & Hm).
  destruct (Fixed.image_array w h i) as [exc|].
  - cbn [fst]. repeat split; assumption.
  - destruct (IH (Fixed.prepare_frame fps i e)
                 (Fixed.write (Fixed.render w h (Fixed.prepare_frame fps i e)) out))
      as (Hd' & Hs' & Hsel' & Hm').
    repeat split; congruence.
Qed.

(** The frame count of an export: the float product, truncated. *)
Lemma total_frames_spec (fps : Z) (duration : Q) :
  Z.to_nat (Fixed.total_frames fps duration)
  = Z.to_nat (Qfloor (fl (duration * inject_Z fps))).
Proof. unfold Fixed.total_frames, fmul. apply py_int_floor. Qed.

(** The export of a scene whose frames can be built: it returns, the
    writer has been handed the frames in the order of their indices, and
    the editor is as the lines after the loop leave it. *)
Lemma export_with_returns (fps : Z) (duration : Q) (filename : string)
    (e : Fixed.VehicleEditor) (out : Fixed.VideoWriter) :
  frames_can_be_built e = true ->
  let n := Z.to_nat (Fixed.total_frames fps duration) in
  exists e1,
    same_scene_inputs e1 (hide_overlay e) /\
    Fixed.dialogs e1 = Fixed.dialogs e /\
    Fixed.selection e1 = Fixed.selection e /\
    Fixed.max_time (Fixed.view e1) = Fixed.max_time (Fixed.view e) /\
    Fixed.export_with fps duration filename e out
    = (Fixed.show_dialog (Fixed.InfoVideoExported filename)
         (Fixed.update_status (Fixed.MsgVideoExported filename)
            (Fixed.redraw_scene
               (Fixed.set_view
                  (Fixed.set_current_time 0
                     (Fixed.set_show_trajectory (Fixed.show_trajectory (Fixed.view e))
                                                (Fixed.view e1))) e1))),
       fold_left (fun o f => Fixed.write f o) (map (exported_frame fps e) (seq 0 n)) out,
       Returned).
Proof.
  intros Hok n. apply frames_can_be_built_iff in Hok. destruct Hok as (Hw & Hh & Hm).
  unfold Fixed.export_with. cbv zeta. unfold py_range. fold n.
  change (py_int (rect_w (Fixed.scene_rect (Fixed.view e)))) with (frame_width_of e).
  change (py_int (rect_h (Fixed.scene_rect (Fixed.view e)))) with (frame_height_of e).
  change (Fixed.set_view (Fixed.set_show_trajectory false (Fixed.view e)) e)
    with (hide_overlay e).
  destruct (export_frames_returns fps (frame_width_of e) (frame_height_of e)
              (hide_overlay e) (seq 0 n) Hw Hh Hm (hide_overlay e) out
              (hide_overlay_inputs e)) as (e1 & Hrun & Hsame & _).
  pose proof (export_frames_keeps fps (frame_width_of e) (frame_height_of e) (seq 0 n)
                (hide_overlay e) out) as Hkeep.
  cbv zeta in Hkeep. rewrite Hrun in Hkeep. cbn [fst] in Hkeep.
  destruct Hkeep as (Hd & _ & Hsel & Hmt).
  rewrite Hrun, frames_of_exported. exists e1.
  split; [exact Hsame|]. split; [exact Hd|]. split; [exact Hsel|]. split; [exact Hmt|].
  reflexivity.
Qed.

(** C4, as stated, fails: with a duration of 0.7 s, which the program holds
    as the float next to 7/10, an export at 30 frames per second writes 21
    frames, because the product is rounded to 21.0 before it is truncated;
    [floor (30 * duration)] is 20. *)
Lemma export_count_as_stated_fails : ~ export_count_as_stated.
Proof.
  intro H.
  specialize (H 30%Z (fl (7 # 10)) "out.mp4"%string drawn_scene ltac:(lia) eq_refl).
  vm_compute in H. discriminate.
Qed.

(** C4 (amended): for every frame rate of the bounded range 15..60 and
    every duration, an export of a scene whose frames can be built, to a
    writer that is opened, writes exactly [int(duration * fps)] frames, the
    product being the float product; this is [floor (fps * duration)] when
    that product is a float, and 60 at 30 frames per second for 2.0 s.
    Frame [i] is the scene composed at the float quotient [i / fps] with the
    trajectory overlay off, so no frame shows an overlay, and the frame
    times increase strictly. *)
Theorem export_frame_sequence (fps : Z) (duration : Q) (filename : string)
    (e : Fixed.VehicleEditor) (out : Fixed.VideoWriter) :
  (15 <= fps <= 60)%Z ->
  frames_can_be_built e = true ->
  Fixed.opened out = true ->
  let n := Z.to_nat (Qfloor (fl (duration * inject_Z fps))) in
  exists e' out',
    Fixed.export_with fps duration filename e out = (e', out', Returned) /\
    Fixed.written out' = Fixed.written out ++ map (exported_frame fps e) (seq 0 n) /\
    length (Fixed.written out') = (length (Fixed.written out) + n)%nat /\
    (forall i, (i < n)%nat ->
       Fixed.frame_items (exported_frame fps e i)
       = scene_at (fl (inject_Z (Z.of_nat i) / inject_Z fps)) (hide_overlay e) /\
       forallb (fun d => negb (is_overlay d))
               (Fixed.frame_items (exported_frame fps e i)) = true) /\
    (forall i j, (i < j)%nat -> (Z.of_nat j < 2 ^ 52)%Z ->
       Fixed.frame_time fps i < Fixed.frame_time fps j) /\
    (is_float (duration * inject_Z fps) = true ->
       n = Z.to_nat (Qfloor (inject_Z fps * duration))) /\
    (fps = 30%Z -> duration == 2 -> n = 60%nat).
Proof.
  intros Hfps Hok Hopen n.
  destruct (export_with_returns fps duration filename e out Hok)
    as (e1 & _ & _ & _ & _ & Hrun).
  cbv zeta in Hrun. rewrite total_frames_spec in Hrun. fold n in Hrun.
  rewrite write_all, Hopen in Hrun.
  eexists. eexists. split; [exact Hrun|].
  cbn [Fixed.written]. split; [reflexivity|]. split.
  { rewrite length_app, length_map, length_seq. reflexivity. }
  split.
  { intros i _. split; [reflexivity|].
    cbn [exported_frame Fixed.frame_items]. unfold scene_at.
    apply compose_scene_hidden. reflexivity. }
  split.
  { intros i j Hij Hj. apply frame_time_increasing; [lia | exact Hij | exact Hj]. }
  split.
  { intro Hfl. subst n. rewrite (Qfloor_comp _ (inject_Z fps * duration)); [reflexivity|].
    rewrite (fl_float _ Hfl). apply Qmult_comm. }
  intros -> Hd. subst n.
  rewrite (fl_comp _ 60) by (rewrite Hd; reflexivity). reflexivity.
Qed.

Lemma export_frame_sequence_witness :
  exists e' out',
    Fixed.export_with 30 2 "out.mp4" drawn_scene open_writer = (e', out', Returned) /\
    length (Fixed.written out') = 60%nat.
Proof.
  destruct (export_frame_sequence 30 2 "out.mp4" drawn_scene open_writer)
    as (e' & out' & Hrun & _ & Hlen & _).
  - lia.
  - reflexivity.
  - reflexivity.
  - exists e', out'. split; [exact Hrun | exact Hlen].
Defined.

(** A writer that could not be opened takes no frame and nobody notices:
    the export runs to its end and announces the file. *)
Lemma unopened_writer_is_not_noticed (filename : string) (e : Fixed.VehicleEditor)
    (out : Fixed.VideoWriter) :
  frames_can_be_built e = true ->
  Fixed.opened out = false ->
  exists e',
    Fixed.export_video (Some filename) e out = (e', out, Returned) /\
    Fixed.dialogs e' = Fixed.dialogs e ++ [Fixed.InfoVideoExported filename] /\
    Fixed.status_label e' = Fixed.MsgVideoExported filename.
Proof.
  intros Hok Hclosed. unfold Fixed.export_video.
  destruct (export_with_returns 30 (Fixed.max_time (Fixed.view e)) filename e out Hok)
    as (e1 & _ & Hd & _ & _ & Hrun).
  cbv zeta in Hrun. rewrite write_all, Hclosed in Hrun.
  eexists. split; [exact Hrun|].
  cbn [Fixed.dialogs Fixed.show_dialog Fixed.status_label Fixed.update_status].
  split; [|reflexivity].
  destruct (redraw_scene_keeps
              (Fixed.set_view
                 (Fixed.set_current_time 0
                    (Fixed.set_show_trajectory (Fixed.show_trajectory (Fixed.view e))
                                               (Fixed.view e1))) e1))
    as (_ & _ & _ & _ & Hdlg & _).
  rewrite Hdlg. cbn [Fixed.dialogs Fixed.set_view]. rewrite Hd. reflexivity.
Qed.



(** ** Project files *)

(** Whatever document is loaded, the scene is cleared and no entity is
    rebuilt. *)
Lemma load_project_clears (filename : string) (data : json)
    (e : WithAssets.VehicleEditor) :
  let e' := fst (WithAssets.load_project (Some filename) data e) in
  WithAssets.vehicles e' = [] /\ WithAssets.cameras e' = [] /\
  WithAssets.text_labels e' = [].
Proof.
  unfold WithAssets.load_project.
  destruct data as [q|s|b|items|fields]; try (repeat split).
  all: destruct (json_get "max_time" fields) as [[q|s|b|items|fs]|]; reflexivity.
Qed.

(** The document written by the repaired editor has no ['max_time']: loading
    it returns normally with the default 10 and an empty scene. *)
Lemma load_fixed_document (filename : string) (s : Fixed.EntityStore)
    (e : WithAssets.VehicleEditor) :
  WithAssets.load_project (Some filename) (Fixed.project_data s) e
  = ({| WithAssets.vehicles := []; WithAssets.cameras := [];
        WithAssets.text_labels := []; WithAssets.vehicle_items := [];
        WithAssets.camera_items := []; WithAssets.text_items := [];
        WithAssets.max_time := 10 |}, Returned).
Proof. reflexivity. Qed.

(** C6 (the code at the failing input): saving a scene with one vehicle and
    loading the saved document back returns normally with an empty vehicle
    list; only [max_time] survives the round trip. *)
Theorem round_trip_loses_entities :
  let saved := WithAssets.project_data one_vehicle_store in
  let loaded := WithAssets.load_project (Some "project.json"%string) saved
                                        one_vehicle_store in
  snd loaded = Returned /\
  WithAssets.vehicles (fst loaded) = [] /\
  WithAssets.vehicles one_vehicle_store <> [] /\
  WithAssets.max_time (fst loaded) = WithAssets.max_time one_vehicle_store.
Proof.
  cbv zeta. repeat split. discriminate.
Qed.

(** ** Locked roads *)

Lemma fit_view_to_roads_store (e : Fixed.VehicleEditor) :
  Fixed.store (Fixed.fit_view_to_roads e) = Fixed.store e.
Proof.
  unfold Fixed.fit_view_to_roads. destruct (Fixed.fit_rect _); reflexivity.
Qed.

(** A locked road is kept by the two operations that look at the lock:
    releasing a drag of it anywhere leaves the road list unchanged and sets
    the status line to "road locked, cannot move"; asking to remove it when
    it is the selected road, whatever the answer to the confirmation, leaves
    the store unchanged and shows the warning "road locked, cannot remove". *)
Lemma locked_road_is_kept (e : Fixed.VehicleEditor) (i : nat) (road : Fixed.Road) :
  nth_error (Fixed.roads (Fixed.store e)) i = Some road ->
  Fixed.locked road = true ->
  (forall px py,
     Fixed.store (Fixed.road_mouse_release i px py e) = Fixed.store e /\
     Fixed.status_label (Fixed.road_mouse_release i px py e)
     = Fixed.MsgRoadLockedCannotMove (Fixed.r_id road)) /\
  (forall reply,
     Fixed.selected_road (Fixed.selection e) = Some i ->
     Fixed.store (Fixed.remove_road reply e) = Fixed.store e /\
     Fixed.dialogs (Fixed.remove_road reply e)
     = Fixed.dialogs e ++ [Fixed.WarnRoadLockedCannotRemove]).
Proof.
  intros Hroad Hlocked. split.
  - intros px py. unfold Fixed.road_mouse_release. rewrite Hroad, Hlocked.
    split; reflexivity.
  - intros reply Hsel. unfold Fixed.remove_road, Fixed.the_selected_road.
    rewrite Hsel, Hroad, Hlocked. split; reflexivity.
Qed.

(** An unlocked road does move and can be removed: the lock is what keeps it. *)
Lemma unlocked_road_moves :
  map (fun r => (Fixed.r_x r, Fixed.r_y r))
      (Fixed.roads (Fixed.store (Fixed.road_mouse_release 0 5 7 two_roads_editor)))
  = [(5, 7); (200, 420)] /\
  road_ids (Fixed.remove_road true (Fixed.on_road_selected 0 two_roads_editor)) = [1%Z].
Proof. split; reflexivity. Qed.

Lemma on_margin_changed_roads (value : Q) (e : Fixed.VehicleEditor) :
  Fixed.roads (Fixed.store (Fixed.on_margin_changed value e))
  = map (fun r => Fixed.set_road_xy
                    (Fixed.r_x r + (value - Fixed.left_margin (Fixed.view e)))
                    (Fixed.r_y r) r)
        (Fixed.roads (Fixed.store e)) /\
  Fixed.dialogs (Fixed.on_margin_changed value e) = Fixed.dialogs e.
Proof.
  unfold Fixed.on_margin_changed. cbv zeta.
  destruct (redraw_scene_keeps
              (Fixed.set_store
                 (Fixed.shift_store_x (value - Fixed.left_margin (Fixed.view e))
                    (Fixed.store
                       (Fixed.set_view (Fixed.set_left_margin value (Fixed.view e)) e)))
                 (Fixed.set_view (Fixed.set_left_margin value (Fixed.view e)) e)))
    as (Hs & _ & _ & _ & Hd & _).
  rewrite Hs, Hd. split; reflexivity.
Qed.

Lemma on_top_margin_changed_roads (value : Q) (e : Fixed.VehicleEditor) :
  Fixed.roads (Fixed.store (Fixed.on_top_margin_changed value e))
  = map (fun r => Fixed.set_road_xy
                    (Fixed.r_x r)
                    (Fixed.r_y r + (value - Fixed.top_margin (Fixed.view e))) r)
        (Fixed.roads (Fixed.store e)) /\
  Fixed.dialogs (Fixed.on_top_margin_changed value e) = Fixed.dialogs e.
Proof.
  unfold Fixed.on_top_margin_changed. cbv zeta.
  destruct (redraw_scene_keeps
              (Fixed.set_store
                 (Fixed.shift_store_y (value - Fixed.top_margin (Fixed.view e))
                    (Fixed.store
                       (Fixed.set_view (Fixed.set_top_margin value (Fixed.view e)) e)))
                 (Fixed.set_view (Fixed.set_top_margin value (Fixed.view e)) e)))
    as (Hs & _ & _ & _ & Hd & _).
  rewrite Hs, Hd. split; reflexivity.
Qed.

(** The failing input of C7: in the two-road scene with road 0 locked,
    setting the left margin from 200 to 300 puts the locked road at
    [x = 300], and no message box is shown. *)
Lemma locked_road_moved_by_margin :
  map (fun r => (Fixed.r_x r, Fixed.r_y r, Fixed.locked r))
      (Fixed.roads (Fixed.store locked_road_editor))
  = [(200, 0, true); (200, 420, false)] /\
  map (fun r => (Qred (Fixed.r_x r), Fixed.r_y r, Fixed.locked r))
      (Fixed.roads (Fixed.store (Fixed.on_margin_changed 300 locked_road_editor)))
  = [(300, 0, true); (300, 420, false)] /\
  Fixed.dialogs (Fixed.on_margin_changed 300 locked_road_editor)
  = Fixed.dialogs locked_road_editor.
Proof. vm_compute. repeat split. Qed.

(** C7: the code breaks the claim.  The drag release and [remove_road] do
    refuse a locked road (lemma [locked_road_is_kept]), but the two margin
    settings move every road by the change of the margin without looking at
    [locked]: after [on_margin_changed value] a locked road is
    [value - left_margin] further along x, after [on_top_margin_changed
    value] it is [value - top_margin] further along y; it is still locked,
    it keeps its identifier, and no message box is shown. *)
Theorem margin_moves_locked_road (value : Q) (e : Fixed.VehicleEditor) (i : nat)
    (road : Fixed.Road) :
  nth_error (Fixed.roads (Fixed.store e)) i = Some road ->
  Fixed.locked road = true ->
  (exists road',
     nth_error (Fixed.roads (Fixed.store (Fixed.on_margin_changed value e))) i
     = Some road' /\
     Fixed.r_id road' = Fixed.r_id road /\ Fixed.locked road' = true /\
     Fixed.r_x road' = Fixed.r_x road + (value - Fixed.left_margin (Fixed.view e)) /\
     Fixed.r_y road' = Fixed.r_y road /\
     (~ value == Fixed.left_margin (Fixed.view e) -> ~ Fixed.r_x road' == Fixed.r_x road) /\
     Fixed.dialogs (Fixed.on_margin_changed value e) = Fixed.dialogs e) /\
  (exists road',
     nth_error (Fixed.roads (Fixed.store (Fixed.on_top_margin_changed value e))) i
     = Some road' /\
     Fixed.r_id road' = Fixed.r_id road /\ Fixed.locked road' = true /\
     Fixed.r_x road' = Fixed.r_x road /\
     Fixed.r_y road' = Fixed.r_y road + (value - Fixed.top_margin (Fixed.view e)) /\
     (~ value == Fixed.top_margin (Fixed.view e) -> ~ Fixed.r_y road' == Fixed.r_y road) /\
     Fixed.dialogs (Fixed.on_top_margin_changed value e) = Fixed.dialogs e).
Proof.
  intros Hroad Hlocked. split.
  - destruct (on_margin_changed_roads value e) as [Hr Hd].
    eexists. rewrite Hr, nth_error_map, Hroad. cbn [option_map].
    split; [reflexivity|]. cbn [Fixed.set_road_xy Fixed.r_id Fixed.locked Fixed.r_x Fixed.r_y].
    split; [reflexivity|]. split; [exact Hlocked|]. split; [reflexivity|].
    split; [reflexivity|]. split; [|exact Hd].
    intros Hne Heq. apply Hne. lra.
  - destruct (on_top_margin_changed_roads value e) as [Hr Hd].
    eexists. rewrite Hr, nth_error_map, Hroad. cbn [option_map].
    split; [reflexivity|]. cbn [Fixed.set_road_xy Fixed.r_id Fixed.locked Fixed.r_x Fixed.r_y].
    split; [reflexivity|]. split; [exact Hlocked|]. split; [reflexivity|].
    split; [reflexivity|]. split; [|exact Hd].
    intros Hne Heq. apply Hne. lra.
Qed.

Lemma margin_moves_locked_road_witness :
  exists road',
    nth_error (Fixed.roads (Fixed.store (Fixed.on_margin_changed 300 locked_road_editor))) 0
    = Some road' /\
    Fixed.locked road' = true /\ ~ Fixed.r_x road' == 200.
Proof.
  destruct (margin_moves_locked_road 300 locked_road_editor 0 (scenario_road 0 200 0 true)
              eq_refl eq_refl) as [(road' & Hn & _ & Hl & _ & _ & Hx & _) _].
  exists road'. split; [exact Hn|]. split; [exact Hl|].
  apply Hx. vm_compute. discriminate.
Defined.

(** ** Bounds *)




(** ** Identifiers *)

Lemma remove_at_length {A : Type} (i : nat) (l : list A) :
  (length (remove_at i l) <= length l)%nat.
Proof.
  unfold remove_at. rewrite length_app, length_firstn, length_skipn. lia.
Qed.

Lemma remove_at_incl {A : Type} (i : nat) (l : list A) (x : A) :
  In x (remove_at i l) -> In x l.
Proof.
  unfold remove_at. intro H. apply in_app_or in H. destruct H as [H|H].
  - rewrite <- (firstn_skipn i l). apply in_or_app. left. exact H.
  - rewrite <- (firstn_skipn (S i) l). apply in_or_app. right. exact H.
Qed.

Lemma map_remove_at {A B : Type} (f : A -> B) (i : nat) (l : list A) :
  map f (remove_at i l) = remove_at i (map f l).
Proof.
  unfold remove_at. rewrite map_app, firstn_map, skipn_map. reflexivity.
Qed.

(** One operation keeps the identifiers in use below the next identifier,
    and never lowers the next identifier. *)
Lemma id_step_below (s s' : IdState) :
  ids_below s -> id_step s s' -> ids_below s' /\ (snd s <= snd s')%Z.
Proof.
  unfold ids_below. intros Hb [->|[(i & ->)| ->]]; cbn [fst snd].
  - split; [exact Hb | lia].
  - split; [|lia]. apply Forall_forall. intros k Hk.
    rewrite Forall_forall in Hb. apply Hb. apply (remove_at_incl i). exact Hk.
  - split; [|lia]. apply Forall_app. split.
    + eapply Forall_impl; [|exact Hb]. cbn. intros. lia.
    + constructor; [lia | constructor].
Qed.

(** When one operation makes the collection grow by one identifier, that
    identifier is the next identifier of the state before. *)
Lemma id_step_new (s s' : IdState) (k : Z) :
  id_step s s' -> fst s' = fst s ++ [k] -> k = snd s.
Proof.
  intros [->|[(i & ->)| ->]] Hgrow; cbn [fst snd] in Hgrow.
  - apply (f_equal (@length Z)) in Hgrow. rewrite length_app in Hgrow.
    cbn in Hgrow. lia.
  - apply (f_equal (@length Z)) in Hgrow. rewrite length_app in Hgrow.
    pose proof (remove_at_length i (fst s)). cbn in Hgrow. lia.
  - apply app_inj_tail in Hgrow. destruct Hgrow as [_ Hk]. congruence.
Qed.

Lemma map_update_at_same {A B : Type} (g : A -> B) (f : A -> A) (i : nat) (l : list A) :
  (forall a, g (f a) = g a) -> map g (update_at i f l) = map g l.
Proof.
  intro Hf. revert i. induction l as [|a l IH]; intros [|i]; cbn; try reflexivity.
  - rewrite Hf. reflexivity.
  - rewrite IH. reflexivity.
Qed.

Lemma id_step_same (s s' : IdState) : s' = s -> id_step s s'.
Proof. intro H. left. exact H. Qed.

(** [add_road] only touches the roads, where it appends the next identifier. *)
Lemma add_road_ids (x y : Q) (e : Fixed.VehicleEditor) :
  vehicle_id_state (Fixed.add_road x y e) = vehicle_id_state e /\
  camera_id_state (Fixed.add_road x y e) = camera_id_state e /\
  id_step (road_id_state e) (road_id_state (Fixed.add_road x y e)).
Proof.
  unfold Fixed.add_road, vehicle_id_state, camera_id_state, road_id_state,
    vehicle_ids, camera_ids, road_ids.
  destruct (Fixed.road_pixmaps (Fixed.assets e)).
  - repeat split. left. reflexivity.
  - rewrite redraw_scene_store. cbn. repeat split.
    right. right. rewrite map_app. reflexivity.
Qed.

Lemma fit_view_to_roads_ids (e : Fixed.VehicleEditor) :
  vehicle_id_state (Fixed.fit_view_to_roads e) = vehicle_id_state e /\
  camera_id_state (Fixed.fit_view_to_roads e) = camera_id_state e /\
  road_id_state (Fixed.fit_view_to_roads e) = road_id_state e.
Proof.
  unfold vehicle_id_state, camera_id_state, road_id_state,
    vehicle_ids, camera_ids, road_ids.
  rewrite fit_view_to_roads_store. repeat split.
Qed.

Lemma add_road_interactive_ids (e : Fixed.VehicleEditor) :
  vehicle_id_state (Fixed.add_road_interactive e) = vehicle_id_state e /\
  camera_id_state (Fixed.add_road_interactive e) = camera_id_state e /\
  id_step (road_id_state e) (road_id_state (Fixed.add_road_interactive e)).
Proof.
  unfold Fixed.add_road_interactive.
  destruct (Fixed.roads (Fixed.store e)) as [|r0 rs].
  - destruct (fit_view_to_roads_ids
                (Fixed.add_road (Fixed.left_margin (Fixed.view e))
                                (Fixed.top_margin (Fixed.view e)) e)) as (-> & -> & ->).
    apply add_road_ids.
  - destruct (fit_view_to_roads_ids
                (Fixed.add_road (Fixed.left_margin (Fixed.view e))
                                (Fixed.road_bottom (last (r0 :: rs) r0)) e))
      as (-> & -> & ->).
    apply add_road_ids.
Qed.

(** The effect of every operation on the identifiers of the three
    collections: each collection makes an [id_step]. *)
Lemma step_ids (a : Fixed.Action) (e : Fixed.VehicleEditor) :
  id_step (vehicle_id_state e) (vehicle_id_state (Fixed.step a e)) /\
  id_step (camera_id_state e) (camera_id_state (Fixed.step a e)) /\
  id_step (road_id_state e) (road_id_state (Fixed.step a e)).
Proof.
  destruct a as [x y| |idx|checked|idx px py|reply|selected|idx|reply| |selected reply];
    cbn [Fixed.step].
  - destruct (add_road_ids x y e) as (-> & -> & H).
    repeat split; [left; reflexivity | left; reflexivity | exact H].
  - destruct (add_road_interactive_ids e) as (-> & -> & H).
    repeat split; [left; reflexivity | left; reflexivity | exact H].
  - unfold Fixed.on_road_selected.
    destruct (nth_error _ idx); repeat split; left; reflexivity.
  - unfold Fixed.toggle_lock_road, Fixed.the_selected_road.
    destruct (Fixed.selected_road (Fixed.selection e)) as [i|];
      [destruct (nth_error _ i)|]; repeat split; try (left; reflexivity).
    left. unfold road_id_state, road_ids. cbn.
    rewrite map_update_at_same by reflexivity. reflexivity.
  - unfold Fixed.road_mouse_release.
    destruct (nth_error _ idx) as [road|]; [destruct (Fixed.locked road)|];
      repeat split; try (left; reflexivity).
    left. unfold road_id_state, road_ids. cbn.
    rewrite map_update_at_same by reflexivity. reflexivity.
  - unfold Fixed.remove_road, Fixed.the_selected_road.
    destruct (Fixed.selected_road (Fixed.selection e)) as [i|];
      [destruct (nth_error _ i) as [road|]; [destruct (Fixed.locked road); [|destruct reply]|]|];
      repeat split; try (left; reflexivity).
    + left. unfold vehicle_id_state, vehicle_ids.
      rewrite fit_view_to_roads_store, redraw_scene_store. reflexivity.
    + left. unfold camera_id_state, camera_ids.
      rewrite fit_view_to_roads_store, redraw_scene_store. reflexivity.
    + right. left. exists i. unfold road_id_state, road_ids.
      rewrite fit_view_to_roads_store, redraw_scene_store. cbn.
      rewrite map_remove_at. reflexivity.
  - unfold Fixed.add_vehicle_to_scene.
    destruct selected as [name|]; [destruct (Fixed.lookup_pixmap name _)|];
      repeat split; try (left; reflexivity).
    + right. right. unfold vehicle_id_state, vehicle_ids.
      rewrite redraw_scene_store. cbn. rewrite map_app. reflexivity.
    + left. unfold camera_id_state, camera_ids. rewrite redraw_scene_store. reflexivity.
    + left. unfold road_id_state, road_ids. rewrite redraw_scene_store. reflexivity.
  - unfold Fixed.on_vehicle_selected.
    destruct (nth_error _ idx); repeat split; left; reflexivity.
  - unfold Fixed.remove_vehicle.
    destruct (Fixed.selected_vehicle (Fixed.selection e)) as [i|]; [destruct reply|];
      repeat split; try (left; reflexivity).
    + right. left. exists i. unfold vehicle_id_state, vehicle_ids.
      rewrite redraw_scene_store. cbn. rewrite map_remove_at. reflexivity.
    + left. unfold camera_id_state, camera_ids. rewrite redraw_scene_store. reflexivity.
    + left. unfold road_id_state, road_ids. rewrite redraw_scene_store. reflexivity.
  - unfold Fixed.add_camera_to_scene.
    destruct (Fixed.camera_pixmaps (Fixed.assets e));
      repeat split; try (left; reflexivity).
    + left. unfold vehicle_id_state, vehicle_ids. rewrite redraw_scene_store. reflexivity.
    + right. right. unfold camera_id_state, camera_ids.
      rewrite redraw_scene_store. cbn. rewrite map_app. reflexivity.
    + left. unfold road_id_state, road_ids. rewrite redraw_scene_store. reflexivity.
  - unfold Fixed.remove_camera.
    destruct selected as [idx|]; [destruct (nth_error _ idx); [destruct reply|]|];
      repeat split; try (left; reflexivity).
    + left. unfold vehicle_id_state, vehicle_ids. rewrite redraw_scene_store. reflexivity.
    + right. left. exists idx. unfold camera_id_state, camera_ids.
      rewrite redraw_scene_store. cbn. rewrite map_remove_at. reflexivity.
    + left. unfold road_id_state, road_ids. rewrite redraw_scene_store. reflexivity.
Qed.

(** Along any sequence of operations the identifiers in use stay below the
    next identifier of their collection, which never decreases. *)
Lemma run_ids (acts : list Fixed.Action) :
  forall e,
    ids_below (vehicle_id_state e) /\ ids_below (camera_id_state e) /\
    ids_below (road_id_state e) ->
    (ids_below (vehicle_id_state (Fixed.run acts e)) /\
     ids_below (camera_id_state (Fixed.run acts e)) /\
     ids_below (road_id_state (Fixed.run acts e))) /\
    (snd (vehicle_id_state e) <= snd (vehicle_id_state (Fixed.run acts e)))%Z /\
    (snd (camera_id_state e) <= snd (camera_id_state (Fixed.run acts e)))%Z /\
    (snd (road_id_state e) <= snd (road_id_state (Fixed.run acts e)))%Z.
Proof.
  induction acts as [|a acts IH]; intros e (Hv & Hc & Hr).
  - cbn. repeat split; try assumption; lia.
  - change (Fixed.run (a :: acts) e) with (Fixed.run acts (Fixed.step a e)).
    destruct (step_ids a e) as (Sv & Sc & Sr).
    destruct (id_step_below _ _ Hv Sv) as [Hv' Lv].
    destruct (id_step_below _ _ Hc Sc) as [Hc' Lc].
    destruct (id_step_below _ _ Hr Sr) as [Hr' Lr].
    destruct (IH (Fixed.step a e) (conj Hv' (conj Hc' Hr'))) as (Hb & Mv & Mc & Mr).
    split; [exact Hb|]. repeat split; lia.
Qed.

Lemma init_editor_ids (a : Fixed.Assets) :
  ids_below (vehicle_id_state (Fixed.init_editor a)) /\
  ids_below (camera_id_state (Fixed.init_editor a)) /\
  ids_below (road_id_state (Fixed.init_editor a)).
Proof.
  unfold Fixed.init_editor. cbv zeta.
  destruct (Fixed.road_pixmaps a) as [|p ps] eqn:Hp.
  - repeat split; constructor.
  - match goal with
    | |- context [Fixed.add_road ?x ?y ?e0] =>
        destruct (add_road_ids x y e0) as (-> & -> & Sr);
        destruct (id_step_below (road_id_state e0) _ (Forall_nil _) Sr) as [Hr _]
    end.
    repeat split; try constructor. exact Hr.
Qed.

(** The repaired editor never reuses an identifier: in any run from the
    initial editor, whenever a later operation makes a collection grow by
    one entity, the identifier of that entity is none of the identifiers the
    collection held at any earlier point of the run, removed entities
    included. *)
Lemma fixed_ids_never_reused (a : Fixed.Assets) (before after : list Fixed.Action)
    (act : Fixed.Action) :
  let e := Fixed.run before (Fixed.init_editor a) in
  let e2 := Fixed.run after e in
  let e3 := Fixed.step act e2 in
  (forall k, vehicle_ids e3 = vehicle_ids e2 ++ [k] -> ~ In k (vehicle_ids e)) /\
  (forall k, camera_ids e3 = camera_ids e2 ++ [k] -> ~ In k (camera_ids e)) /\
  (forall k, road_ids e3 = road_ids e2 ++ [k] -> ~ In k (road_ids e)).
Proof.
  cbv zeta.
  destruct (run_ids before _ (init_editor_ids a)) as ((Hv & Hc & Hr) & _).
  set (e := Fixed.run before (Fixed.init_editor a)) in *.
  destruct (run_ids after e (conj Hv (conj Hc Hr))) as (_ & Mv & Mc & Mr).
  set (e2 := Fixed.run after e) in *.
  destruct (step_ids act e2) as (Sv & Sc & Sr).
  unfold ids_below in Hv, Hc, Hr. rewrite Forall_forall in Hv, Hc, Hr.
  repeat split; intros k Hgrow Hin.
  - pose proof (id_step_new _ _ k Sv Hgrow) as Hk. specialize (Hv k Hin). lia.
  - pose proof (id_step_new _ _ k Sc Hgrow) as Hk. specialize (Hc k Hin). lia.
  - pose proof (id_step_new _ _ k Sr Hgrow) as Hk. specialize (Hr k Hin). lia.
Qed.

(** C8 (the code at the failing input): in the V3 editor, after adding two
    vehicles (identifiers 0 and 1) and removing the first, the next vehicle
    added gets [len(self.vehicles) = 1] as its identifier: the identifier of
    the vehicle that is still in the scene. *)
Theorem v3_reuses_vehicle_id :
  map V3.v_id (V3.vehicles
                 (V3.add_vehicle_to_scene (Some "car"%string)
                    (V3.add_vehicle_to_scene (Some "car"%string) v3_empty)))
  = [0%Z; 1%Z] /\
  map V3.v_id (V3.vehicles v3_add_remove_add) = [1%Z; 1%Z].
Proof. split; reflexivity. Qed.

(** The same operations in the repaired editor give the fresh identifier 2. *)
Lemma fixed_add_remove_add :
  vehicle_ids
    (Fixed.run [Fixed.ActAddVehicle (Some "car"%string);
                Fixed.ActAddVehicle (Some "car"%string);
                Fixed.ActSelectVehicle 0; Fixed.ActRemoveVehicle true;
                Fixed.ActAddVehicle (Some "car"%string)]
       (Fixed.init_editor
          {| Fixed.vehicle_pixmaps := [("car"%string, car_pixmap)];
             Fixed.camera_pixmaps := []; Fixed.road_pixmaps := [] |}))
  = [1%Z; 2%Z].
Proof. reflexivity. Qed.

(** * Further properties of the editors *)

(** ** The repaired interpolator *)








Lemma for_return_split {A R : Type} (P : R -> Prop) (xs ys : list A) (x : A)
    (body : A -> option R) (d : R) :
  (forall y r, In y xs -> body y = Some r -> P r) ->
  (exists r, body x = Some r /\ P r) ->
  P (match for_return (xs ++ x :: ys) body with Some r => r | None => d end).
Proof.
  intros Hxs (r & Hx & Hr). induction xs as [|y xs IH]; cbn [app for_return].
  - rewrite Hx. exact Hr.
  - destruct (body y) as [r'|] eqn:E.
    + apply (Hxs y r'); [left; reflexivity | exact E].
    + apply IH. intros z r' Hz. apply Hxs. right. exact Hz.
Qed.

Lemma seq_split_at (k n : nat) :
  (k < n)%nat -> seq 0 n = seq 0 k ++ k :: seq (S k) (n - S k).
Proof.
  intro Hk. replace n with (k + S (n - S k))%nat at 1 by lia.
  rewrite seq_app. reflexivity.
Qed.

Lemma first_left_before_nth (k : nat) (t : Q) (traj : list Fixed.TrajectoryPoint)
    (j : nat) (q : Fixed.TrajectoryPoint) :
  first_left_before k t traj = true -> (j < k)%nat -> nth_error traj j = Some q ->
  departure q < t.
Proof.
  intros H Hj Hq. unfold first_left_before in H. rewrite forallb_forall in H.
  apply Qlt_bool_iff. apply H. apply (nth_error_In _ j).
  rewrite nth_error_firstn. apply Nat.ltb_lt in Hj. rewrite Hj. exact Hq.
Qed.

(** Once waypoint [j] has been left, step [j] of the loop can only return
    the travel to the next waypoint, and only up to that waypoint's arrival. *)
Lemma step_after_departure (traj : list Fixed.TrajectoryPoint) (t : Q) (j : nat)
    (q : Fixed.TrajectoryPoint) (r : Position) :
  nth_error traj j = Some q -> departure q < t ->
  Fixed.position_step traj t j = Some r ->
  exists next, nth_error traj (S j) = Some next /\ t <= Fixed.pt_time next /\
               r = Fixed.travel q next (departure q) t.
Proof.
  intros Hq Hdep Hstep. unfold Fixed.position_step in Hstep. rewrite Hq in Hstep.
  assert (Hgone : Qle_bool t (Fixed.departure_time q) = false)
    by (apply Qle_bool_false_iff; exact Hdep).
  destruct (0 <? j)%nat eqn:Hj.
  - cbv zeta in Hstep. rewrite Hgone, andb_false_r in Hstep.
    destruct (j <? length traj - 1)%nat; [|discriminate].
    rewrite Nat.add_1_r in Hstep.
    destruct (nth_error traj (S j)) as [next|]; [|discriminate].
    destruct (Qle_bool (Fixed.departure_time q) t);
      cbn [andb] in Hstep; [|discriminate].
    destruct (Qle_bool t (Fixed.pt_time next)) eqn:Hle; [|discriminate].
    injection Hstep as <-. exists next. repeat split. apply Qle_bool_iff. exact Hle.
  - apply Nat.ltb_ge in Hj. assert (j = 0%nat) by lia. subst j.
    rewrite Hgone in Hstep.
    destruct (1 <? length traj)%nat; [|discriminate].
    destruct (nth_error traj 1) as [next|]; [|discriminate].
    destruct (Qle_bool t (Fixed.pt_time next)) eqn:Hle; [|discriminate].
    injection Hstep as <-. exists next. repeat split. apply Qle_bool_iff. exact Hle.
Qed.

(** Step [j] does return that travel when [t] is between the departure from
    waypoint [j] and the arrival at the next one. *)
Lemma step_travels (traj : list Fixed.TrajectoryPoint) (t : Q) (j : nat)
    (q next : Fixed.TrajectoryPoint) :
  nth_error traj j = Some q -> nth_error traj (S j) = Some next ->
  departure q < t -> t <= Fixed.pt_time next ->
  Fixed.position_step traj t j = Some (Fixed.travel q next (departure q) t).
Proof.
  intros Hq Hnext Hdep Hle. unfold Fixed.position_step. rewrite Hq.
  assert (Hlen : (S j < length traj)%nat).
  { apply nth_error_Some. congruence. }
  assert (Hgone : Qle_bool t (Fixed.departure_time q) = false)
    by (apply Qle_bool_false_iff; exact Hdep).
  assert (Hleft : Qle_bool (Fixed.departure_time q) t = true)
    by (apply Qle_bool_iff; apply Qlt_le_weak; exact Hdep).
  assert (Hin : Qle_bool t (Fixed.pt_time next) = true) by (apply Qle_bool_iff; exact Hle).
  destruct (0 <? j)%nat eqn:Hj.
  - cbv zeta. rewrite Hgone, andb_false_r.
    replace (j <? length traj - 1)%nat with true by (symmetry; apply Nat.ltb_lt; lia).
    rewrite Nat.add_1_r, Hnext, Hleft, Hin. reflexivity.
  - apply Nat.ltb_ge in Hj. assert (j = 0%nat) by lia. subst j.
    rewrite Hgone.
    replace (1 <? length traj)%nat with true by (symmetry; apply Nat.ltb_lt; lia).
    rewrite Hnext, Hin. reflexivity.
Qed.

(** Inside its own window a waypoint that is not the first is returned. *)
Lemma step_holds (traj : list Fixed.TrajectoryPoint) (t : Q) (k : nat)
    (p : Fixed.TrajectoryPoint) :
  nth_error traj k = Some p -> Fixed.pt_time p <= t -> t <= departure p ->
  Fixed.position_step traj t k = Some (Fixed.at_point p).
Proof.
  intros Hp Ha Hd. unfold Fixed.position_step. rewrite Hp.
  assert (H1 : Qle_bool (Fixed.pt_time p) t = true) by (apply Qle_bool_iff; exact Ha).
  assert (H2 : Qle_bool t (Fixed.departure_time p) = true)
    by (apply Qle_bool_iff; exact Hd).
  destruct (0 <? k)%nat; cbv zeta; rewrite ?H1, H2; reflexivity.
Qed.



(** X3: a travel is the linear interpolation.  For a list whose arrival
    times and pauses are floats that are not negative, if waypoints [0..k]
    have all been left strictly before [t] and [t] is not after the arrival
    time of waypoint [k+1], the position is
    [P + (Q - P) * (t - dep) / (Q.arrivalTime - dep)] with [P], [Q] the
    waypoints [k], [k+1] and [dep] the departure time of [P], the float sum
    [P.arrivalTime + P.pauseDuration]; the divisor is not zero. *)
Theorem travel_interpolates (traj : list Fixed.TrajectoryPoint) (k : nat)
    (p q : Fixed.TrajectoryPoint) (t : Q) :
  nth_error traj k = Some p -> nth_error traj (S k) = Some q ->
  non_negative traj = true ->
  float_times traj = true ->
  first_left_before (S k) t traj = true ->
  t <= Fixed.pt_time q ->
  let dep := fadd (Fixed.pt_time p) (Fixed.pause_duration p) in
  let ratio := (t - dep) / (Fixed.pt_time q - dep) in
  Fixed.get_position_at_time traj t
  = (Fixed.pt_x p + (Fixed.pt_x q - Fixed.pt_x p) * ratio,
     Fixed.pt_y p + (Fixed.pt_y q - Fixed.pt_y p) * ratio) /\
  ~ Fixed.pt_time q - dep == 0.
Proof.
  intros Hp Hq Hnn Hfl Hearly Hle dep ratio.
  change dep with (departure p) in *. clear dep.
  pose proof (first_left_before_nth (S k) t traj k p Hearly ltac:(lia) Hp) as Hdep.
  assert (Hnz : ~ Fixed.pt_time q - departure p == 0) by (intro H0; lra).
  split; [|exact Hnz].
  destruct traj as [|first rest]; [destruct k; discriminate|].
  rewrite get_position_at_time_cons. set (traj := first :: rest) in *.
  assert (Hk : (S k < length traj)%nat) by (apply nth_error_Some; congruence).
  pose proof (first_left_before_nth (S k) t traj 0 first Hearly ltac:(lia) eq_refl)
    as Hfirst.
  destruct (waypoint_times traj 0 first Hnn Hfl eq_refl) as [Hf0 Hf1].
  unfold departure in Hfirst.
  replace (length traj =? 1)%nat with false by (symmetry; apply Nat.eqb_neq; lia).
  replace (Qle_bool t 0) with false by (symmetry; apply Qle_bool_false_iff; lra).
  rewrite (seq_split_at k (length traj)) by lia.
  apply (for_return_split
           (fun r => r = (Fixed.pt_x p + (Fixed.pt_x q - Fixed.pt_x p) * ratio,
                          Fixed.pt_y p + (Fixed.pt_y q - Fixed.pt_y p) * ratio))).
  - intros j r Hj Hstep. apply in_seq in Hj. destruct Hj as [_ Hj].
    rewrite Nat.add_0_l in Hj. exfalso.
    destruct (nth_error traj j) as [qj|] eqn:Hqj.
    2: { unfold Fixed.position_step in Hstep. rewrite Hqj in Hstep. discriminate. }
    pose proof (first_left_before_nth (S k) t traj j qj Hearly ltac:(lia) Hqj) as Hleft.
    destruct (step_after_departure traj t j qj r Hqj Hleft Hstep)
      as (next & Hnext & Hnle & _).
    pose proof (first_left_before_nth (S k) t traj (S j) next Hearly ltac:(lia) Hnext)
      as Hnleft.
    destruct (waypoint_times traj (S j) next Hnn Hfl Hnext) as [_ Hnp].
    unfold departure in Hnleft. lra.
  - eexists. split; [apply (step_travels traj t k p q); assumption|].
    unfold Fixed.travel.
    destruct (Qeq_bool (Fixed.pt_time q - departure p) 0) eqn:E.
    + apply Qeq_bool_iff in E. contradiction.
    + reflexivity.
Qed.

Lemma travel_interpolates_witness :
  Fixed.get_position_at_time scenario (7 # 2)
  = (100 + (100 - 100) * (((7 # 2) - (2 + 1)) / (4 - (2 + 1))),
     0 + (100 - 0) * (((7 # 2) - (2 + 1)) / (4 - (2 + 1)))).
Proof.
  apply (travel_interpolates scenario 1 _ _ (7 # 2) eq_refl eq_refl eq_refl eq_refl).
  - vm_compute. reflexivity.
  - vm_compute. discriminate.
Defined.

Lemma for_return_app {A R : Type} (xs ys : list A) (body : A -> option R) :
  for_return (xs ++ ys) body
  = match for_return xs body with
    | Some r => Some r
    | None => for_return ys body
    end.
Proof.
  induction xs as [|x xs IH]; cbn [app for_return]; [reflexivity|].
  destruct (body x); [reflexivity | exact IH].
Qed.

Lemma for_return_ext {A R : Type} (xs : list A) (f g : A -> option R) :
  (forall x, In x xs -> f x = g x) -> for_return xs f = for_return xs g.
Proof.
  induction xs as [|x xs IH]; intro H; cbn [for_return]; [reflexivity|].
  rewrite (H x) by (left; reflexivity).
  destruct (g x); [reflexivity|]. apply IH. intros y Hy. apply H. right. exact Hy.
Qed.

Lemma for_return_none {A R : Type} (xs : list A) (body : A -> option R) :
  for_return xs body = None -> forall x, In x xs -> body x = None.
Proof.
  induction xs as [|y xs IH]; intros H x Hx; [destruct Hx|].
  cbn [for_return] in H. destruct (body y) eqn:E; [discriminate|].
  destruct Hx as [<-|Hx]; [exact E | apply IH; assumption].
Qed.

(** When the loop returns nothing, every waypoint has been left before [t]:
    the final [return] of the last waypoint is only reached after the last
    departure. *)
Lemma fall_through_is_late (traj : list Fixed.TrajectoryPoint) (t : Q) :
  for_return (seq 0 (length traj)) (Fixed.position_step traj t) = None ->
  forall k q, nth_error traj k = Some q -> departure q < t.
Proof.
  intros Hnone.
  assert (Hstep : forall i, (i < length traj)%nat -> Fixed.position_step traj t i = None).
  { intros i Hi. apply (for_return_none _ _ Hnone). apply in_seq. lia. }
  induction k as [|k IH]; intros q Hq.
  - assert (H0 : (0 < length traj)%nat) by (apply nth_error_Some; congruence).
    specialize (Hstep 0%nat H0). unfold Fixed.position_step in Hstep.
    rewrite Hq in Hstep. cbn [Nat.ltb Nat.leb] in Hstep.
    destruct (Qle_bool t (Fixed.departure_time q)) eqn:E;
      [discriminate|]. apply Qle_bool_false_iff in E. exact E.
  - assert (Hk : (S k < length traj)%nat) by (apply nth_error_Some; congruence).
    destruct (nth_error traj k) as [qk|] eqn:Hqk.
    2: { apply nth_error_None in Hqk. lia. }
    specialize (IH qk eq_refl).
    destruct (Qlt_le_dec (Fixed.pt_time q) t) as [Harr|Harr].
    + destruct (Qlt_le_dec (departure q) t) as [Hd|Hd]; [exact Hd|].
      pose proof (step_holds traj t (S k) q Hq (Qlt_le_weak _ _ Harr) Hd) as Hs.
      rewrite (Hstep (S k) Hk) in Hs. discriminate.
    + pose proof (step_travels traj t k qk q Hqk Hq IH Harr) as Hs.
      rewrite (Hstep k ltac:(lia)) in Hs. discriminate.
Qed.

(** When the loop has passed the indices below [k] without returning, [t]
    is after the arrival time of waypoint [k]. *)
Lemma passed_means_late (traj : list Fixed.TrajectoryPoint) (t : Q) :
  forall k q,
    (forall i, (i < S k)%nat -> Fixed.position_step traj t i = None) ->
    nth_error traj (S k) = Some q -> Fixed.pt_time q < t.
Proof.
  induction k as [|k IH]; intros q Hnone Hq.
  - assert (Hlen : (1 < length traj)%nat) by (apply nth_error_Some; congruence).
    specialize (Hnone 0%nat ltac:(lia)). unfold Fixed.position_step in Hnone.
    destruct (nth_error traj 0) as [p0|] eqn:Hp0.
    2: { apply nth_error_None in Hp0. lia. }
    change (0 <? 0)%nat with false in Hnone. cbv iota in Hnone.
    destruct (Qle_bool t (Fixed.departure_time p0)); [discriminate|].
    replace (1 <? length traj)%nat with true in Hnone
      by (symmetry; apply Nat.ltb_lt; exact Hlen).
    rewrite Hq in Hnone.
    destruct (Qle_bool t (Fixed.pt_time q)) eqn:E; [discriminate|].
    apply Qle_bool_false_iff. exact E.
  - assert (Hlen : (S (S k) < length traj)%nat) by (apply nth_error_Some; congruence).
    destruct (nth_error traj (S k)) as [p|] eqn:Hp.
    2: { apply nth_error_None in Hp. lia. }
    assert (Hlate : Fixed.pt_time p < t).
    { apply (IH p); [|reflexivity]. intros i Hi. apply Hnone. lia. }
    specialize (Hnone (S k) ltac:(lia)). unfold Fixed.position_step in Hnone.
    rewrite Hp in Hnone. change (0 <? S k)%nat with true in Hnone.
    cbv iota zeta in Hnone.
    replace (Qle_bool (Fixed.pt_time p) t) with true in Hnone
      by (symmetry; apply Qle_bool_iff; lra).
    cbn [andb] in Hnone.
    destruct (Qle_bool t (Fixed.departure_time p)) eqn:Hd; [discriminate|].
    apply Qle_bool_false_iff in Hd.
    replace (S k <? length traj - 1)%nat with true in Hnone
      by (symmetry; apply Nat.ltb_lt; lia).
    rewrite Nat.add_1_r, Hq in Hnone.
    replace (Qle_bool (Fixed.departure_time p) t) with true in Hnone
      by (symmetry; apply Qle_bool_iff; lra).
    cbn [andb] in Hnone.
    destruct (Qle_bool t (Fixed.pt_time q)) eqn:E; [discriminate|].
    apply Qle_bool_false_iff. exact E.
Qed.

(** Below the old last index the loop body does the same on the extended
    list. *)
Lemma position_step_app (traj : list Fixed.TrajectoryPoint) (w : Fixed.TrajectoryPoint)
    (t : Q) (i : nat) :
  (S i < length traj)%nat ->
  Fixed.position_step (traj ++ [w]) t i = Fixed.position_step traj t i.
Proof.
  intros Hi. unfold Fixed.position_step.
  rewrite nth_error_app1 by lia.
  destruct (nth_error traj i) as [point|] eqn:Hpoint; [|reflexivity].
  rewrite length_app. cbn [length].
  replace (i <? length traj - 1)%nat with true by (symmetry; apply Nat.ltb_lt; lia).
  replace (i <? length traj + 1 - 1)%nat with true by (symmetry; apply Nat.ltb_lt; lia).
  replace (1 <? length traj + 1)%nat with true by (symmetry; apply Nat.ltb_lt; lia).
  replace (1 <? length traj)%nat with true by (symmetry; apply Nat.ltb_lt; lia).
  rewrite !nth_error_app1 by lia. reflexivity.
Qed.

(** X4: authoring is causal.  Appending a waypoint to a vehicle that has at
    least one (with a non-negative pause at its last waypoint) changes the
    position at no time up to the old last departure, whatever the new
    waypoint's coordinates, time and pause are. *)
Theorem append_keeps_past (v : Fixed.Vehicle) (x y time pause : Q)
    (first : Fixed.TrajectoryPoint) (t : Q) :
  hd_error (Fixed.trajectory v) = Some first ->
  0 <= Fixed.pause_duration (last (Fixed.trajectory v) first) ->
  t <= departure (last (Fixed.trajectory v) first) ->
  Fixed.get_position_at_time
    (Fixed.trajectory (Fixed.add_trajectory_point v x y time pause)) t
  = Fixed.get_position_at_time (Fixed.trajectory v) t.
Proof.
  intros Hhd _ Ht. cbn [Fixed.add_trajectory_point Fixed.trajectory].
  set (w := {| Fixed.pt_x := x; Fixed.pt_y := y; Fixed.pt_time := time;
               Fixed.pause_duration := pause |}).
  destruct (Fixed.trajectory v) as [|p rest]; [discriminate|].
  cbn in Hhd. injection Hhd as ->.
  destruct rest as [|q rest].
  - cbn [last] in Ht. unfold departure in Ht.
    unfold Fixed.get_position_at_time.
    cbn [app length Nat.eqb seq for_return].
    destruct (Qle_bool t 0); [reflexivity|].
    unfold Fixed.position_step. cbn [nth_error Nat.ltb Nat.leb].
    replace (Qle_bool t (Fixed.departure_time first)) with true
      by (symmetry; apply Qle_bool_iff; exact Ht).
    reflexivity.
  - change ((first :: q :: rest) ++ [w]) with (first :: ((q :: rest) ++ [w])).
    rewrite !get_position_at_time_cons.
    change (first :: ((q :: rest) ++ [w])) with ((first :: q :: rest) ++ [w]).
    set (traj := first :: q :: rest) in *.
    assert (Hlen : (2 <= length traj)%nat) by (subst traj; cbn; lia).
    assert (Hlast : nth_error traj (length traj - 1) = Some (last traj first)).
    { apply nth_error_last. subst traj. discriminate. }
    remember (last traj first) as last_point eqn:Hlp in *.
    rewrite length_app. cbn [length].
    replace (length traj + 1 =? 1)%nat with false by (symmetry; apply Nat.eqb_neq; lia).
    replace (length traj =? 1)%nat with false by (symmetry; apply Nat.eqb_neq; lia).
    destruct (Qle_bool t 0); [reflexivity|].
    destruct (length traj) as [|k] eqn:Hk; [lia|].
    replace (S k - 1)%nat with k in Hlast by lia.
    replace (seq 0 (S k + 1)) with (seq 0 k ++ [k; S k])
      by (replace (S k + 1)%nat with (k + 2)%nat by lia; rewrite seq_app; reflexivity).
    replace (seq 0 (S k)) with (seq 0 k ++ [k])
      by (replace (S k) with (k + 1)%nat by lia; rewrite seq_app; reflexivity).
    rewrite !for_return_app.
    rewrite (for_return_ext _ (Fixed.position_step (traj ++ [w]) t)
                              (Fixed.position_step traj t)).
    2: { intros i Hi. apply in_seq in Hi. apply position_step_app. lia. }
    destruct (for_return (seq 0 k) (Fixed.position_step traj t)) eqn:Hloop; [reflexivity|].
    assert (Hlate : Fixed.pt_time last_point < t).
    { destruct k as [|k]; [lia|]. apply (passed_means_late traj t k); [|exact Hlast].
      intros i Hi. apply (for_return_none _ _ Hloop). apply in_seq. lia. }
    unfold departure in Ht.
    assert (Hold : Fixed.position_step traj t k = Some (Fixed.at_point last_point)).
    { apply step_holds; [exact Hlast | lra | exact Ht]. }
    assert (Hnew : Fixed.position_step (traj ++ [w]) t k = Some (Fixed.at_point last_point)).
    { apply step_holds; [|lra | exact Ht]. rewrite nth_error_app1 by lia. exact Hlast. }
    cbn [for_return]. rewrite Hold, Hnew. reflexivity.
Qed.

Lemma append_keeps_past_witness :
  Fixed.get_position_at_time
    (Fixed.trajectory (Fixed.add_trajectory_point pausing_vehicle 7 7 1 0)) (5 # 2)
  = Fixed.get_position_at_time (Fixed.trajectory pausing_vehicle) (5 # 2).
Proof.
  apply (append_keeps_past pausing_vehicle 7 7 1 0 _ (5 # 2) eq_refl).
  - vm_compute. discriminate.
  - vm_compute. discriminate.
Defined.

(** ** The interpolator of the V3 editor *)







(** ** The interpolator of the first editor *)




(** ** Reachable states of the repaired editor *)

Lemma redraw_scene_selection (e : Fixed.VehicleEditor) :
  Fixed.selection (Fixed.redraw_scene e) = Fixed.selection e.
Proof. apply redraw_scene_keeps. Qed.

Lemma fit_view_to_roads_selection (e : Fixed.VehicleEditor) :
  Fixed.selection (Fixed.fit_view_to_roads e) = Fixed.selection e.
Proof.
  unfold Fixed.fit_view_to_roads. destruct (Fixed.fit_rect _); reflexivity.
Qed.

Lemma length_update_at {A : Type} (f : A -> A) (i : nat) (l : list A) :
  length (update_at i f l) = length l.
Proof.
  revert i. induction l as [|a l IH]; intros [|i]; cbn; try reflexivity.
  rewrite IH. reflexivity.
Qed.

Lemma add_road_selection_valid (x y : Q) (e : Fixed.VehicleEditor) :
  selection_valid e -> selection_valid (Fixed.add_road x y e).
Proof.
  intros [Hv Hr]. unfold Fixed.add_road.
  destruct (Fixed.road_pixmaps (Fixed.assets e)); [split; assumption|].
  unfold selection_valid. rewrite redraw_scene_store, redraw_scene_selection. cbn.
  split; [exact Hv|]. intros i Hi. rewrite length_app. specialize (Hr i Hi). lia.
Qed.

Lemma fit_view_selection_valid (e : Fixed.VehicleEditor) :
  selection_valid e -> selection_valid (Fixed.fit_view_to_roads e).
Proof.
  unfold selection_valid.
  rewrite fit_view_to_roads_store, fit_view_to_roads_selection. tauto.
Qed.

Lemma step_selection_valid (a : Fixed.Action) (e : Fixed.VehicleEditor) :
  selection_valid e -> selection_valid (Fixed.step a e).
Proof.
  intros Hsel. pose proof Hsel as [Hv Hr].
  destruct a as [x y| |idx|checked|idx px py|reply|selected|idx|reply| |selected reply];
    cbn [Fixed.step].
  - apply add_road_selection_valid. exact Hsel.
  - unfold Fixed.add_road_interactive.
    destruct (Fixed.roads (Fixed.store e));
      apply fit_view_selection_valid, add_road_selection_valid; exact Hsel.
  - unfold Fixed.on_road_selected.
    destruct (nth_error (Fixed.roads (Fixed.store e)) idx) eqn:E; [|exact Hsel].
    split; cbn; [exact Hv|]. intros i [= <-]. apply nth_error_Some. congruence.
  - unfold Fixed.toggle_lock_road, Fixed.the_selected_road.
    destruct (Fixed.selected_road (Fixed.selection e)) as [i|] eqn:Es;
      [destruct (nth_error _ i)|]; try exact Hsel.
    split; cbn; [exact Hv|]. intros j Hj. rewrite length_update_at. apply Hr.
    congruence.
  - unfold Fixed.road_mouse_release.
    destruct (nth_error _ idx) as [road|]; [destruct (Fixed.locked road)|];
      try exact Hsel.
    split; cbn; [exact Hv|]. intros j Hj. rewrite length_update_at. apply Hr. exact Hj.
  - unfold Fixed.remove_road, Fixed.the_selected_road.
    destruct (Fixed.selected_road (Fixed.selection e)) as [i|];
      [destruct (nth_error _ i) as [road|]; [destruct (Fixed.locked road); [|destruct reply]|]|];
      try exact Hsel.
    unfold selection_valid.
    rewrite fit_view_to_roads_store, fit_view_to_roads_selection,
      redraw_scene_store, redraw_scene_selection. cbn.
    split; [exact Hv | discriminate].
  - unfold Fixed.add_vehicle_to_scene.
    destruct selected as [name|]; [destruct (Fixed.lookup_pixmap name _)|];
      try exact Hsel.
    unfold selection_valid. rewrite redraw_scene_store, redraw_scene_selection. cbn.
    split; [|exact Hr]. intros i Hi. rewrite length_app. specialize (Hv i Hi). lia.
  - unfold Fixed.on_vehicle_selected.
    destruct (nth_error (Fixed.vehicles (Fixed.store e)) idx) eqn:E; [|exact Hsel].
    split; cbn; [|exact Hr]. intros i [= <-]. apply nth_error_Some. congruence.
  - unfold Fixed.remove_vehicle.
    destruct (Fixed.selected_vehicle (Fixed.selection e)) as [i|]; [destruct reply|];
      try exact Hsel.
    unfold selection_valid. rewrite redraw_scene_store, redraw_scene_selection. cbn.
    split; [discriminate | exact Hr].
  - unfold Fixed.add_camera_to_scene.
    destruct (Fixed.camera_pixmaps (Fixed.assets e)); [exact Hsel|].
    unfold selection_valid. rewrite redraw_scene_store, redraw_scene_selection. cbn.
    split; assumption.
  - unfold Fixed.remove_camera.
    destruct selected as [idx|]; [destruct (nth_error _ idx); [destruct reply|]|];
      try exact Hsel.
    unfold selection_valid. rewrite redraw_scene_store, redraw_scene_selection. cbn.
    split; assumption.
Qed.

Lemma init_editor_selection_valid (a : Fixed.Assets) :
  selection_valid (Fixed.init_editor a).
Proof.
  unfold Fixed.init_editor. cbv zeta.
  destruct (Fixed.road_pixmaps a) eqn:E.
  - split; cbn; discriminate.
  - apply add_road_selection_valid. split; cbn; discriminate.
Qed.

Lemma run_selection_valid (acts : list Fixed.Action) :
  forall e, selection_valid e -> selection_valid (Fixed.run acts e).
Proof.
  induction acts as [|a acts IH]; intros e H; [exact H|].
  change (Fixed.run (a :: acts) e) with (Fixed.run acts (Fixed.step a e)).
  apply IH. apply step_selection_valid. exact H.
Qed.

(** X8: the selection never dangles.  In every state reached from the
    initial editor by adding, selecting, locking, dragging and removing, a
    selected vehicle and a selected road are entities of the store; so a
    removal with a selection always finds its entity. *)
Theorem selection_never_dangles (a : Fixed.Assets) (acts : list Fixed.Action) :
  let e := Fixed.run acts (Fixed.init_editor a) in
  selection_valid e /\
  (forall i, Fixed.selected_road (Fixed.selection e) = Some i ->
             exists road, Fixed.the_selected_road e = Some road) /\
  (forall i, Fixed.selected_vehicle (Fixed.selection e) = Some i ->
             exists v, nth_error (Fixed.vehicles (Fixed.store e)) i = Some v).
Proof.
  cbv zeta.
  pose proof (run_selection_valid acts _ (init_editor_selection_valid a)) as Hsel.
  split; [exact Hsel|]. destruct Hsel as [Hv Hr]. split.
  - intros i Hi. unfold Fixed.the_selected_road. rewrite Hi.
    destruct (nth_error _ i) as [road|] eqn:E; [exists road; reflexivity|].
    apply nth_error_None in E. specialize (Hr i Hi). lia.
  - intros i Hi.
    destruct (nth_error _ i) as [v|] eqn:E; [exists v; reflexivity|].
    apply nth_error_None in E. specialize (Hv i Hi). lia.
Qed.

Lemma selection_never_dangles_witness :
  exists road,
    Fixed.the_selected_road
      (Fixed.run [Fixed.ActAddRoadInteractive; Fixed.ActSelectRoad 1]
                 (Fixed.init_editor demo_assets)) = Some road.
Proof.
  destruct (selection_never_dangles demo_assets
              [Fixed.ActAddRoadInteractive; Fixed.ActSelectRoad 1]) as (_ & Hroad & _).
  apply (Hroad 1%nat). reflexivity.
Defined.

Lemma remove_at_nodup {A : Type} (i : nat) (l : list A) :
  NoDup l -> NoDup (remove_at i l).
Proof.
  revert i. induction l as [|a l IH]; intros i Hnd.
  - unfold remove_at. rewrite firstn_nil, skipn_nil. constructor.
  - inversion Hnd as [|? ? Hnotin Hnd']; subst.
    destruct i as [|i]; [exact Hnd'|].
    change (remove_at (S i) (a :: l)) with (a :: remove_at i l).
    constructor; [|apply IH; exact Hnd'].
    intro Hin. apply Hnotin. apply (remove_at_incl i). exact Hin.
Qed.

Lemma remove_at_drops {A : Type} (i : nat) (l : list A) (x : A) :
  NoDup l -> nth_error l i = Some x -> ~ In x (remove_at i l).
Proof.
  revert i. induction l as [|a l IH]; intros i Hnd Hx; [destruct i; discriminate|].
  inversion Hnd as [|? ? Hnotin Hnd']; subst.
  destruct i as [|i].
  - cbn in Hx. injection Hx as <-. exact Hnotin.
  - change (remove_at (S i) (a :: l)) with (a :: remove_at i l).
    cbn in Hx. intros [Heq|Hin].
    + subst a. apply Hnotin. apply (nth_error_In _ _ Hx).
    + apply (IH i Hnd' Hx Hin).
Qed.

Lemma id_step_nodup (s s' : IdState) :
  ids_below s -> NoDup (fst s) -> id_step s s' -> NoDup (fst s').
Proof.
  unfold ids_below. intros Hb Hnd [->|[(i & ->)| ->]]; cbn [fst].
  - exact Hnd.
  - apply remove_at_nodup. exact Hnd.
  - apply NoDup_app; [exact Hnd | constructor; [intros [] | constructor] |].
    intros k Hk [<-|[]]. rewrite Forall_forall in Hb. specialize (Hb _ Hk). lia.
Qed.

Lemma run_nodup (acts : list Fixed.Action) :
  forall e,
    ids_below (vehicle_id_state e) /\ ids_below (camera_id_state e) /\
    ids_below (road_id_state e) ->
    NoDup (vehicle_ids e) /\ NoDup (camera_ids e) /\ NoDup (road_ids e) ->
    NoDup (vehicle_ids (Fixed.run acts e)) /\ NoDup (camera_ids (Fixed.run acts e)) /\
    NoDup (road_ids (Fixed.run acts e)).
Proof.
  induction acts as [|a acts IH]; intros e (Hv & Hc & Hr) (Nv & Nc & Nr).
  - repeat split; assumption.
  - change (Fixed.run (a :: acts) e) with (Fixed.run acts (Fixed.step a e)).
    destruct (step_ids a e) as (Sv & Sc & Sr).
    apply IH.
    + repeat split; [apply (id_step_below _ _ Hv Sv) | apply (id_step_below _ _ Hc Sc)
                     | apply (id_step_below _ _ Hr Sr)].
    + repeat split; [apply (id_step_nodup _ _ Hv Nv Sv) | apply (id_step_nodup _ _ Hc Nc Sc)
                     | apply (id_step_nodup _ _ Hr Nr Sr)].
Qed.

Lemma init_editor_nodup (a : Fixed.Assets) :
  NoDup (vehicle_ids (Fixed.init_editor a)) /\ NoDup (camera_ids (Fixed.init_editor a)) /\
  NoDup (road_ids (Fixed.init_editor a)).
Proof.
  unfold Fixed.init_editor. cbv zeta.
  destruct (Fixed.road_pixmaps a) as [|p ps] eqn:Hp.
  - repeat split; constructor.
  - match goal with
    | |- context [Fixed.add_road ?x ?y ?e0] =>
        destruct (add_road_ids x y e0) as (Ev & Ec & Sr);
        pose proof (id_step_nodup (road_id_state e0) _ (Forall_nil _) (NoDup_nil _) Sr)
          as Hr;
        assert (Ev' : vehicle_ids (Fixed.add_road x y e0) = vehicle_ids e0)
          by exact (f_equal fst Ev);
        assert (Ec' : camera_ids (Fixed.add_road x y e0) = camera_ids e0)
          by exact (f_equal fst Ec)
    end.
    rewrite Ev', Ec'. repeat split; try constructor. exact Hr.
Qed.

Lemma reachable_nodup (a : Fixed.Assets) (acts : list Fixed.Action) :
  NoDup (vehicle_ids (Fixed.run acts (Fixed.init_editor a))) /\
  NoDup (camera_ids (Fixed.run acts (Fixed.init_editor a))) /\
  NoDup (road_ids (Fixed.run acts (Fixed.init_editor a))).
Proof.
  apply run_nodup; [apply init_editor_ids | apply init_editor_nodup].
Qed.

(** X9: identifiers are unique among the living.  In every state reached
    from the initial editor, no two roads share an identifier, no two
    vehicles do, and no two cameras do. *)
Theorem live_ids_are_distinct (a : Fixed.Assets) (acts : list Fixed.Action) :
  let e := Fixed.run acts (Fixed.init_editor a) in
  NoDup (vehicle_ids e) /\ NoDup (camera_ids e) /\ NoDup (road_ids e).
Proof. apply reachable_nodup. Qed.

(** X10: a removal removes.  In a reachable state, after the selected
    vehicle is removed (confirmation answered yes) no vehicle of the store
    carries its identifier, every other vehicle is still there, and the
    selection is empty. *)
Theorem removed_vehicle_is_gone (a : Fixed.Assets) (acts : list Fixed.Action)
    (i : nat) (v : Fixed.Vehicle) :
  let e := Fixed.run acts (Fixed.init_editor a) in
  Fixed.selected_vehicle (Fixed.selection e) = Some i ->
  nth_error (Fixed.vehicles (Fixed.store e)) i = Some v ->
  let e' := Fixed.remove_vehicle true e in
  ~ In (Fixed.v_id v) (vehicle_ids e') /\
  (forall w, In w (Fixed.vehicles (Fixed.store e)) -> Fixed.v_id w <> Fixed.v_id v ->
             In w (Fixed.vehicles (Fixed.store e'))) /\
  Fixed.selected_vehicle (Fixed.selection e') = None.
Proof.
  cbv zeta. intros Hsel Hv.
  destruct (reachable_nodup a acts) as (Nv & _ & _).
  set (e := Fixed.run acts (Fixed.init_editor a)) in *.
  unfold Fixed.remove_vehicle. rewrite Hsel.
  unfold vehicle_ids. rewrite redraw_scene_store, redraw_scene_selection. cbn.
  split; [|split; [|reflexivity]].
  - rewrite map_remove_at. apply remove_at_drops; [exact Nv|].
    unfold vehicle_ids. rewrite nth_error_map, Hv. reflexivity.
  - intros w Hw Hid. unfold remove_at.
    rewrite <- (firstn_skipn i (Fixed.vehicles (Fixed.store e))) in Hw.
    apply in_app_or in Hw. apply in_or_app. destruct Hw as [Hw|Hw]; [left; exact Hw|].
    right. destruct (nth_error_split _ _ Hv) as (l1 & l2 & Heq & Hlen).
    rewrite Heq in Hw |- *. subst i.
    rewrite skipn_app, Nat.sub_diag, skipn_all in Hw. cbn in Hw.
    destruct Hw as [<-|Hw]; [congruence|].
    change (S (length l1)) with (1 + length l1)%nat.
    rewrite <- skipn_skipn. rewrite skipn_app, Nat.sub_diag, skipn_all. cbn. exact Hw.
Qed.

Lemma removed_vehicle_is_gone_witness :
  ~ In 0%Z (vehicle_ids
              (Fixed.remove_vehicle true
                 (Fixed.run [Fixed.ActAddVehicle (Some "car"%string);
                             Fixed.ActAddVehicle (Some "car"%string);
                             Fixed.ActSelectVehicle 0]
                            (Fixed.init_editor demo_assets)))).
Proof.
  apply (removed_vehicle_is_gone demo_assets
           [Fixed.ActAddVehicle (Some "car"%string);
            Fixed.ActAddVehicle (Some "car"%string); Fixed.ActSelectVehicle 0]
           0 {| Fixed.v_id := 0; Fixed.v_pixmap := car_pixmap; Fixed.v_name := "car";
                Fixed.v_scale := 1 # 2; Fixed.trajectory := [] |});
    reflexivity.
Defined.

(** ** Bounds of the road rectangles *)







(** ** Moving the whole scene *)

(** Two loops whose bodies return related values return related values. *)
Lemma for_return_related {A R : Type} (rel : R -> R -> Prop) (xs : list A)
    (f g : A -> option R) :
  (forall x, match f x, g x with
             | Some a, Some b => rel a b
             | None, None => True
             | _, _ => False
             end) ->
  match for_return xs f, for_return xs g with
  | Some a, Some b => rel a b
  | None, None => True
  | _, _ => False
  end.
Proof.
  intro H. induction xs as [|x xs IH]; cbn [for_return]; [exact I|].
  specialize (H x). destruct (f x), (g x); try contradiction; [exact H | exact IH].
Qed.

Lemma last_of_map {A B : Type} (f : A -> B) (l : list A) (d : A) :
  last (map f l) (f d) = f (last l d).
Proof.
  induction l as [|a l IH]; [reflexivity|].
  destruct l as [|b l]; [reflexivity|]. exact IH.
Qed.

(** Moving every waypoint by [(dx, dy)], times and pauses kept, moves the
    position at every time by [(dx, dy)]. *)
Lemma position_moves_with_waypoints (f : Fixed.TrajectoryPoint -> Fixed.TrajectoryPoint)
    (dx dy : Q) :
  (forall p, Fixed.pt_time (f p) = Fixed.pt_time p /\
             Fixed.pause_duration (f p) = Fixed.pause_duration p /\
             Fixed.pt_x (f p) == Fixed.pt_x p + dx /\
             Fixed.pt_y (f p) == Fixed.pt_y p + dy) ->
  forall traj t, traj <> [] ->
    pos_eq (Fixed.get_position_at_time (map f traj) t)
           (fst (Fixed.get_position_at_time traj t) + dx,
            snd (Fixed.get_position_at_time traj t) + dy).
Proof.
  intros Hf traj t Hne.
  set (moved := fun r' r : Position => pos_eq r' (fst r + dx, snd r + dy)).
  assert (Hpt : forall p, moved (Fixed.at_point (f p)) (Fixed.at_point p)).
  { intro p. destruct (Hf p) as (_ & _ & Hx & Hy). split; cbn; assumption. }
  assert (Htr : forall p q dep, moved (Fixed.travel (f p) (f q) dep t)
                                      (Fixed.travel p q dep t)).
  { intros p q dep. unfold Fixed.travel.
    destruct (Hf p) as (_ & _ & Hpx & Hpy). destruct (Hf q) as (Hqt & _ & Hqx & Hqy).
    rewrite Hqt. destruct (Qeq_bool (Fixed.pt_time q - dep) 0); [apply Hpt|].
    split; cbn; [rewrite Hpx, Hqx | rewrite Hpy, Hqy]; ring. }
  assert (Hdep : forall p, Fixed.departure_time (f p) = Fixed.departure_time p).
  { intro p. destruct (Hf p) as (Ht & Hp & _ & _). unfold Fixed.departure_time.
    rewrite Ht, Hp. reflexivity. }
  destruct traj as [|first rest]; [congruence|].
  change (map f (first :: rest)) with (f first :: map f rest).
  rewrite !get_position_at_time_cons.
  change (f first :: map f rest) with (map f (first :: rest)).
  set (traj := first :: rest). rewrite length_map.
  destruct (length traj =? 1)%nat; [apply Hpt|].
  destruct (Qle_bool t 0); [apply Hpt|].
  pose proof (for_return_related moved (seq 0 (length traj))
                (Fixed.position_step (map f traj) t) (Fixed.position_step traj t)) as Hloop.
  assert (Hlast : moved (Fixed.at_point (last (map f traj) (f first)))
                        (Fixed.at_point (last traj first))).
  { rewrite last_of_map. apply Hpt. }
  destruct (for_return _ (Fixed.position_step (map f traj) t)) as [a|],
           (for_return _ (Fixed.position_step traj t)) as [b|];
    try (exfalso; apply Hloop); try exact Hlast; try (apply Hloop).
  all: intro i; unfold Fixed.position_step; rewrite !nth_error_map, length_map;
    destruct (nth_error traj i) as [point|]; cbn [option_map]; [|exact I];
    destruct (Hf point) as (Ht & _ & _ & _); rewrite Ht, (Hdep point);
    destruct (0 <? i)%nat; cbv zeta.
  all: try (destruct (Qle_bool (Fixed.pt_time point) t
                      && Qle_bool t (Fixed.departure_time point));
            [apply Hpt|];
            destruct (i <? length traj - 1)%nat; [|exact I];
            destruct (nth_error traj (i + 1)) as [next|]; cbn [option_map]; [|exact I];
            destruct (Hf next) as (Hnt & _ & _ & _); rewrite Hnt;
            destruct (_ && _); [apply Htr | exact I]).
  all: destruct (Qle_bool t (Fixed.departure_time point));
    [apply Hpt|];
    destruct (1 <? length traj)%nat; [|exact I];
    destruct (nth_error traj 1) as [next|]; cbn [option_map]; [|exact I];
    destruct (Hf next) as (Hnt & _ & _ & _); rewrite Hnt;
    destruct (Qle_bool t (Fixed.pt_time next)); [apply Htr | exact I].
Qed.

Lemma redraw_scene_margins (e : Fixed.VehicleEditor) :
  Fixed.left_margin (Fixed.view (Fixed.redraw_scene e)) = Fixed.left_margin (Fixed.view e) /\
  Fixed.top_margin (Fixed.view (Fixed.redraw_scene e)) = Fixed.top_margin (Fixed.view e).
Proof.
  unfold Fixed.redraw_scene. cbn [Fixed.store Fixed.set_view].
  destruct (py_max_of (map Fixed.road_right (Fixed.roads (Fixed.store e))));
    destruct (py_max_of (map Fixed.road_bottom (Fixed.roads (Fixed.store e))));
    split; reflexivity.
Qed.

(** X12: a margin change moves the whole scene rigidly.  After
    [on_margin_changed value] the left margin is [value]; every road, locked
    or not, every camera and every text label has its x shifted by
    [value - old margin] and everything else kept; and every vehicle with
    waypoints is, at every time, [value - old margin] further along x and at
    the same y (rational equality).  [on_top_margin_changed] does the same
    along y, to the top margin, the roads, the cameras, the text labels and
    the vehicles. *)
Theorem margin_moves_scene (value : Q) (e : Fixed.VehicleEditor) :
  (let offset := value - Fixed.left_margin (Fixed.view e) in
   let e' := Fixed.on_margin_changed value e in
   Fixed.left_margin (Fixed.view e') = value /\
   map road_saved (Fixed.roads (Fixed.store e'))
   = map (fun r => (Fixed.r_id r, Fixed.r_x r + offset, Fixed.r_y r, Fixed.locked r))
         (Fixed.roads (Fixed.store e)) /\
   map camera_saved (Fixed.cameras (Fixed.store e'))
   = map (fun c => (Fixed.c_id c, Fixed.c_x c + offset, Fixed.c_y c, Fixed.c_scale c))
         (Fixed.cameras (Fixed.store e)) /\
   Fixed.text_labels (Fixed.store e')
   = map (Fixed.label_shift_x offset) (Fixed.text_labels (Fixed.store e)) /\
   (forall i v, nth_error (Fixed.vehicles (Fixed.store e)) i = Some v ->
      exists v', nth_error (Fixed.vehicles (Fixed.store e')) i = Some v' /\
                 Fixed.v_id v' = Fixed.v_id v /\
                 (forall t, Fixed.trajectory v <> [] ->
                    pos_eq (Fixed.get_position_at_time (Fixed.trajectory v') t)
                           (fst (Fixed.get_position_at_time (Fixed.trajectory v) t) + offset,
                            snd (Fixed.get_position_at_time (Fixed.trajectory v) t))))) /\
  (let offset := value - Fixed.top_margin (Fixed.view e) in
   let e' := Fixed.on_top_margin_changed value e in
   Fixed.top_margin (Fixed.view e') = value /\
   map road_saved (Fixed.roads (Fixed.store e'))
   = map (fun r => (Fixed.r_id r, Fixed.r_x r, Fixed.r_y r + offset, Fixed.locked r))
         (Fixed.roads (Fixed.store e)) /\
   map camera_saved (Fixed.cameras (Fixed.store e'))
   = map (fun c => (Fixed.c_id c, Fixed.c_x c, Fixed.c_y c + offset, Fixed.c_scale c))
         (Fixed.cameras (Fixed.store e)) /\
   Fixed.text_labels (Fixed.store e')
   = map (Fixed.label_shift_y offset) (Fixed.text_labels (Fixed.store e)) /\
   (forall i v, nth_error (Fixed.vehicles (Fixed.store e)) i = Some v ->
      exists v', nth_error (Fixed.vehicles (Fixed.store e')) i = Some v' /\
                 Fixed.v_id v' = Fixed.v_id v /\
                 (forall t, Fixed.trajectory v <> [] ->
                    pos_eq (Fixed.get_position_at_time (Fixed.trajectory v') t)
                           (fst (Fixed.get_position_at_time (Fixed.trajectory v) t),
                            snd (Fixed.get_position_at_time (Fixed.trajectory v) t)
                            + offset)))).
Proof.
  split; cbv zeta.
  - unfold Fixed.on_margin_changed. cbv zeta.
    rewrite (proj1 (redraw_scene_margins _)), redraw_scene_store.
    cbn [Fixed.store Fixed.view Fixed.set_store Fixed.set_view Fixed.set_left_margin
         Fixed.left_margin Fixed.shift_store_x Fixed.set_roads Fixed.set_vehicles
         Fixed.set_cameras Fixed.set_text_labels Fixed.roads Fixed.vehicles Fixed.cameras
         Fixed.text_labels].
    split; [reflexivity|]. split; [rewrite map_map; reflexivity|].
    split; [rewrite map_map; reflexivity|]. split; [reflexivity|].
    intros i v Hv. rewrite nth_error_map, Hv. cbn [option_map].
    eexists. split; [reflexivity|]. split; [reflexivity|].
    intros t Hne. cbn [Fixed.trajectory Fixed.set_trajectory].
    pose proof (position_moves_with_waypoints
                  (Fixed.point_shift_x (value - Fixed.left_margin (Fixed.view e)))
                  (value - Fixed.left_margin (Fixed.view e)) 0) as H.
    destruct (H ltac:(intro p; cbn; repeat split; ring) (Fixed.trajectory v) t Hne)
      as [Hx Hy].
    split; cbn [fst snd] in *; [exact Hx | rewrite Hy; ring].
  - unfold Fixed.on_top_margin_changed. cbv zeta.
    rewrite (proj2 (redraw_scene_margins _)), redraw_scene_store.
    cbn [Fixed.store Fixed.view Fixed.set_store Fixed.set_view Fixed.set_top_margin
         Fixed.top_margin Fixed.shift_store_y Fixed.set_roads Fixed.set_vehicles
         Fixed.set_cameras Fixed.set_text_labels Fixed.roads Fixed.vehicles Fixed.cameras
         Fixed.text_labels].
    split; [reflexivity|]. split; [rewrite map_map; reflexivity|].
    split; [rewrite map_map; reflexivity|]. split; [reflexivity|].
    intros i v Hv. rewrite nth_error_map, Hv. cbn [option_map].
    eexists. split; [reflexivity|]. split; [reflexivity|].
    intros t Hne. cbn [Fixed.trajectory Fixed.set_trajectory].
    pose proof (position_moves_with_waypoints
                  (Fixed.point_shift_y (value - Fixed.top_margin (Fixed.view e)))
                  0 (value - Fixed.top_margin (Fixed.view e))) as H.
    destruct (H ltac:(intro p; cbn; repeat split; ring) (Fixed.trajectory v) t Hne)
      as [Hx Hy].
    split; cbn [fst snd] in *; [rewrite Hx; ring | exact Hy].
Qed.

Lemma margin_moves_scene_witness :
  exists v',
    nth_error (Fixed.vehicles (Fixed.store
                 (Fixed.on_margin_changed 250 (editor_with_vehicles [pausing_vehicle])))) 0
    = Some v' /\
    pos_eq (Fixed.get_position_at_time (Fixed.trajectory v') 1)
           (fst (Fixed.get_position_at_time (Fixed.trajectory pausing_vehicle) 1)
            + (250 - 200),
            snd (Fixed.get_position_at_time (Fixed.trajectory pausing_vehicle) 1)).
Proof.
  destruct (proj1 (margin_moves_scene 250 (editor_with_vehicles [pausing_vehicle])))
    as (_ & _ & _ & _ & Hv).
  destruct (Hv 0%nat pausing_vehicle eq_refl) as (v' & Hn & _ & Hpos).
  exists v'. split; [exact Hn|]. apply Hpos. discriminate.
Defined.

(** ** Editing the selected vehicle *)

Lemma nth_error_update_at {A : Type} (f : A -> A) (i j : nat) (l : list A) :
  nth_error (update_at i f l) j
  = if (j =? i)%nat then option_map f (nth_error l j) else nth_error l j.
Proof.
  revert i j. induction l as [|a l IH]; intros i j.
  - destruct i, j; cbn; try reflexivity; destruct (j =? i)%nat; reflexivity.
  - destruct i as [|i], j as [|j]; cbn; try reflexivity. apply IH.
Qed.

Lemma update_at_twice {A : Type} (f : A -> A) (i : nat) (l : list A) :
  (forall a, f (f a) = f a) -> update_at i f (update_at i f l) = update_at i f l.
Proof.
  intro Hf. revert i. induction l as [|a l IH]; intros [|i]; cbn; try reflexivity.
  - rewrite Hf. reflexivity.
  - rewrite IH. reflexivity.
Qed.

(** X13: [clear_trajectory] makes the selected vehicle static at its first
    waypoint.  The selected vehicle keeps its identifier and exactly its
    first waypoint (an empty trajectory stays empty), so afterwards its
    position is that waypoint at every time; no other vehicle changes; and
    clearing a second time changes nothing in the store.  Without a
    selection the store is untouched and the operator is told to select a
    vehicle. *)
Theorem clear_trajectory_keeps_first (e : Fixed.VehicleEditor) :
  (forall i v,
     Fixed.selected_vehicle (Fixed.selection e) = Some i ->
     nth_error (Fixed.vehicles (Fixed.store e)) i = Some v ->
     let e' := Fixed.clear_trajectory e in
     (exists v', nth_error (Fixed.vehicles (Fixed.store e')) i = Some v' /\
                 Fixed.v_id v' = Fixed.v_id v /\
                 Fixed.trajectory v' = firstn 1 (Fixed.trajectory v) /\
                 (forall first t, hd_error (Fixed.trajectory v) = Some first ->
                    Fixed.get_position_at_time (Fixed.trajectory v') t
                    = Fixed.at_point first)) /\
     (forall j, j <> i ->
        nth_error (Fixed.vehicles (Fixed.store e')) j
        = nth_error (Fixed.vehicles (Fixed.store e)) j) /\
     Fixed.store (Fixed.clear_trajectory e') = Fixed.store e') /\
  (Fixed.selected_vehicle (Fixed.selection e) = None ->
     Fixed.store (Fixed.clear_trajectory e) = Fixed.store e /\
     Fixed.dialogs (Fixed.clear_trajectory e)
     = Fixed.dialogs e ++ [Fixed.InfoSelectVehicleFirst]).
Proof.
  split.
  - intros i v Hsel Hv. cbv zeta.
    set (keep_first := fun v0 : Fixed.Vehicle =>
                         match Fixed.trajectory v0 with
                         | [] => v0
                         | first_point :: _ => Fixed.set_trajectory [first_point] v0
                         end).
    assert (Hidem : forall a, keep_first (keep_first a) = keep_first a).
    { intro a. unfold keep_first. destruct (Fixed.trajectory a) eqn:E.
      - rewrite E. reflexivity.
      - reflexivity. }
    assert (Hclear : forall e0, Fixed.selected_vehicle (Fixed.selection e0) = Some i ->
              Fixed.store (Fixed.clear_trajectory e0)
              = Fixed.set_vehicles
                  (update_at i keep_first (Fixed.vehicles (Fixed.store e0)))
                  (Fixed.store e0) /\
              Fixed.selection (Fixed.clear_trajectory e0) = Fixed.selection e0).
    { intros e0 H0. unfold Fixed.clear_trajectory. rewrite H0. cbv zeta.
      rewrite redraw_scene_store, redraw_scene_selection. split; reflexivity. }
    destruct (Hclear e Hsel) as [Hstore Hselection].
    split; [|split].
    + rewrite Hstore. cbn [Fixed.vehicles Fixed.set_vehicles].
      rewrite nth_error_update_at, Nat.eqb_refl, Hv. cbn [option_map].
      exists (keep_first v). split; [reflexivity|]. unfold keep_first.
      destruct (Fixed.trajectory v) as [|p rest] eqn:E.
      * rewrite E. repeat split. intros first t Hhd. discriminate.
      * repeat split. intros first t [= <-]. reflexivity.
    + intros j Hj. rewrite Hstore. cbn [Fixed.vehicles Fixed.set_vehicles].
      rewrite nth_error_update_at.
      replace (j =? i)%nat with false by (symmetry; apply Nat.eqb_neq; exact Hj).
      reflexivity.
    + rewrite (proj1 (Hclear (Fixed.clear_trajectory e)
                             ltac:(rewrite Hselection; exact Hsel))).
      rewrite Hstore. cbn [Fixed.vehicles Fixed.set_vehicles Fixed.roads Fixed.cameras
                           Fixed.text_labels Fixed.next_vehicle_id
                           Fixed.next_camera_id Fixed.next_road_id].
      rewrite update_at_twice by exact Hidem. reflexivity.
  - intro Hnone. unfold Fixed.clear_trajectory. rewrite Hnone. split; reflexivity.
Qed.

Lemma clear_trajectory_keeps_first_witness :
  exists v',
    nth_error (Fixed.vehicles (Fixed.store
                 (Fixed.clear_trajectory
                    (Fixed.on_vehicle_selected 0 (editor_with_vehicles [pausing_vehicle])))))
              0 = Some v' /\
    Fixed.get_position_at_time (Fixed.trajectory v') 5 = (0, 0).
Proof.
  destruct (proj1 (clear_trajectory_keeps_first
                     (Fixed.on_vehicle_selected 0 (editor_with_vehicles [pausing_vehicle])))
                  0%nat pausing_vehicle eq_refl eq_refl)
    as ((v' & Hn & _ & _ & Hpos) & _).
  exists v'. split; [exact Hn|]. apply (Hpos _ 5 eq_refl).
Defined.

(** ** Playback *)

Lemma compose_scene_playing (e : Fixed.VehicleEditor) :
  Fixed.is_playing (Fixed.view e) = true ->
  forallb (fun d => negb (is_overlay d)) (Fixed.compose_scene e) = true.
Proof.
  intro Hplay. apply forallb_forall. intros d Hin. unfold Fixed.compose_scene in Hin.
  repeat (apply in_app_or in Hin; destruct Hin as [Hin|Hin]).
  - apply in_map_iff in Hin. destruct Hin as (r & <- & _). reflexivity.
  - apply in_map_iff in Hin. destruct Hin as (c & <- & _). reflexivity.
  - apply in_flat_map in Hin. destruct Hin as (v & _ & Hin).
    unfold Fixed.draw_vehicle in Hin. rewrite Hplay in Hin.
    cbn [negb] in Hin. rewrite andb_false_r in Hin. cbn [andb app] in Hin.
    destruct (length (Fixed.trajectory v) <=? 1)%nat;
      destruct Hin as [<-|[]]; reflexivity.
  - apply in_map_iff in Hin. destruct Hin as (l & <- & _). reflexivity.
Qed.

Lemma redraw_scene_time_slider (e : Fixed.VehicleEditor) :
  Fixed.time_slider (Fixed.view (Fixed.redraw_scene e)) = Fixed.time_slider (Fixed.view e).
Proof.
  unfold Fixed.redraw_scene. cbn [Fixed.store Fixed.set_view].
  destruct (py_max_of (map Fixed.road_right (Fixed.roads (Fixed.store e))));
    destruct (py_max_of (map Fixed.road_bottom (Fixed.roads (Fixed.store e))));
    reflexivity.
Qed.

(** A tick keeps the store and the two flags, and redraws. *)
Lemma update_animation_frame (e : Fixed.VehicleEditor) :
  Fixed.store (Fixed.update_animation e) = Fixed.store e /\
  Fixed.is_playing (Fixed.view (Fixed.update_animation e)) = Fixed.is_playing (Fixed.view e) /\
  Fixed.show_trajectory (Fixed.view (Fixed.update_animation e))
  = Fixed.show_trajectory (Fixed.view e) /\
  exists e0, Fixed.scene_items (Fixed.view (Fixed.update_animation e))
             = Fixed.compose_scene e0 /\
             Fixed.is_playing (Fixed.view e0) = Fixed.is_playing (Fixed.view e).
Proof.
  unfold Fixed.update_animation. cbv zeta.
  rewrite redraw_scene_store, redraw_scene_is_playing, redraw_scene_show_trajectory,
    redraw_scene_items.
  cbn [Fixed.store Fixed.view Fixed.set_view].
  repeat split.
  - destruct (Qlt_bool 0 _); destruct (Qlt_bool _ _); reflexivity.
  - destruct (Qlt_bool 0 _); destruct (Qlt_bool _ _); reflexivity.
  - eexists. split; [reflexivity|]. cbn [Fixed.view Fixed.set_view].
    destruct (Qlt_bool 0 _); destruct (Qlt_bool _ _); reflexivity.
Qed.

Lemma ticks_while_playing (n : nat) (e : Fixed.VehicleEditor) :
  Fixed.is_playing (Fixed.view e) = true ->
  forallb (fun d => negb (is_overlay d)) (Fixed.scene_items (Fixed.view e)) = true ->
  Fixed.is_playing (Fixed.view (Nat.iter n Fixed.update_animation e)) = true /\
  Fixed.store (Nat.iter n Fixed.update_animation e) = Fixed.store e /\
  forallb (fun d => negb (is_overlay d))
          (Fixed.scene_items (Fixed.view (Nat.iter n Fixed.update_animation e))) = true.
Proof.
  intros Hplay Hscene. induction n as [|n IH]; [repeat split; assumption|].
  rewrite Nat.iter_succ. destruct IH as (Hp & Hs & _).
  destruct (update_animation_frame (Nat.iter n Fixed.update_animation e))
    as (Hstore & Hplaying & _ & e0 & Hitems & Hp0).
  rewrite Hstore, Hplaying, Hitems. repeat split; try assumption.
  apply compose_scene_playing. congruence.
Qed.

(** X14: playback never shows a trajectory overlay.  Starting playback from
    a stopped editor and letting the timer tick any number of times, the
    editor is playing, its store is the one before, and the scene holds no
    trajectory line or waypoint dot; stopping afterwards switches the
    overlay flag back on. *)
Theorem playback_hides_overlays (e : Fixed.VehicleEditor) (n : nat) :
  Fixed.is_playing (Fixed.view e) = false ->
  let playing := Nat.iter n Fixed.update_animation (Fixed.toggle_play e) in
  let stopped := Fixed.toggle_play playing in
  Fixed.is_playing (Fixed.view playing) = true /\
  Fixed.store playing = Fixed.store e /\
  forallb (fun d => negb (is_overlay d)) (Fixed.scene_items (Fixed.view playing)) = true /\
  Fixed.is_playing (Fixed.view stopped) = false /\
  Fixed.show_trajectory (Fixed.view stopped) = true /\
  Fixed.store stopped = Fixed.store e.
Proof.
  intro Hstop. cbv zeta.
  assert (Hstart : Fixed.is_playing (Fixed.view (Fixed.toggle_play e)) = true /\
                   Fixed.store (Fixed.toggle_play e) = Fixed.store e /\
                   forallb (fun d => negb (is_overlay d))
                           (Fixed.scene_items (Fixed.view (Fixed.toggle_play e))) = true).
  { unfold Fixed.toggle_play. cbv zeta.
    rewrite redraw_scene_is_playing, redraw_scene_store, redraw_scene_items, Hstop.
    repeat split. apply compose_scene_playing. reflexivity. }
  destruct Hstart as (Hp & Hs & Hscene).
  destruct (ticks_while_playing n _ Hp Hscene) as (Hp' & Hs' & Hscene').
  split; [exact Hp'|]. split; [congruence|]. split; [exact Hscene'|].
  unfold Fixed.toggle_play at 1 3 5. cbv zeta.
  rewrite redraw_scene_is_playing, redraw_scene_show_trajectory, redraw_scene_store, Hp'.
  repeat split. cbn. congruence.
Qed.

Lemma playback_hides_overlays_witness :
  forallb (fun d => negb (is_overlay d))
          (Fixed.scene_items
             (Fixed.view (Nat.iter 3 Fixed.update_animation
                            (Fixed.toggle_play (editor_with_vehicles [pausing_vehicle])))))
  = true.
Proof.
  apply (playback_hides_overlays (editor_with_vehicles [pausing_vehicle]) 3).
  reflexivity.
Defined.

Lemma py_int_range (q : Q) : 0 <= q -> q <= 1000 -> (0 <= py_int q <= 1000)%Z.
Proof.
  intros H0 H1.
  assert (Hn : (0 <= Qnum q)%Z).
  { unfold Qle in H0. cbn in H0. lia. }
  assert (Hfloor : py_int q = Qfloor q).
  { destruct q as [n d]. unfold py_int, Qfloor. cbn [Qnum Qden] in *.
    apply Z.quot_div_nonneg; lia. }
  rewrite Hfloor. split.
  - change 0%Z with (Qfloor 0). apply Qfloor_resp_le. exact H0.
  - change 1000%Z with (Qfloor 1000). apply Qfloor_resp_le. exact H1.
Qed.

Lemma time_step_positive : 0 < Fixed.time_step.
Proof. vm_compute. reflexivity. Qed.

(** The slider value of a clock within [[0, max_time]] is within 0..1000. *)
Lemma slider_in_range (c m : Q) :
  0 <= c -> c <= m -> 0 < m ->
  (0 <= py_int (fmul (fdiv c (py_max m 1)) 1000) <= 1000)%Z.
Proof.
  intros Hc Hcm Hm.
  assert (HM : 0 < py_max m 1 /\ m <= py_max m 1).
  { destruct (py_max_cases m 1) as [[? ->]|[? ->]]; split; lra. }
  destruct HM as [HM0 HM1].
  assert (Hr0 : 0 <= c / py_max m 1) by (apply Qle_shift_div_l; lra).
  assert (Hr1 : c / py_max m 1 <= 1) by (apply Qle_shift_div_r; lra).
  assert (Hf0 : 0 <= fdiv c (py_max m 1)) by (apply fl_nonneg; exact Hr0).
  assert (Hf1 : fdiv c (py_max m 1) <= 1) by (apply fl_le_float; [reflexivity | exact Hr1]).
  apply py_int_range; unfold fmul.
  - apply fl_nonneg. revert Hf0. generalize (fdiv c (py_max m 1)). intros q H. lra.
  - apply fl_le_float; [reflexivity|].
    revert Hf1. generalize (fdiv c (py_max m 1)). intros q H. lra.
Qed.

(** One tick: the clock stays within [0, max_time], [max_time] stays
    positive, and the slider value stays within its range. *)
Lemma tick_in_range (e : Fixed.VehicleEditor) :
  0 <= Fixed.current_time (Fixed.view e) ->
  0 < Fixed.max_time (Fixed.view e) ->
  let e' := Fixed.update_animation e in
  0 <= Fixed.current_time (Fixed.view e') /\
  Fixed.current_time (Fixed.view e') <= Fixed.max_time (Fixed.view e') /\
  0 < Fixed.max_time (Fixed.view e') /\
  (0 <= Fixed.time_slider (Fixed.view e') <= 1000)%Z.
Proof.
  intros Hct Hmt. cbv zeta. unfold Fixed.update_animation. cbv zeta.
  rewrite redraw_scene_current_time, redraw_scene_max_time, redraw_scene_time_slider.
  cbn [Fixed.view Fixed.set_view Fixed.time_slider Fixed.set_time_slider
       Fixed.current_time Fixed.max_time].
  set (m := Fixed.compute_max_t (Fixed.vehicles (Fixed.store e))).
  assert (Hticked : 0 <= fadd (Fixed.current_time (Fixed.view e)) Fixed.time_step).
  { apply fl_nonneg. pose proof time_step_positive as Hs.
    revert Hs. generalize Fixed.time_step. intros s Hs. lra. }
  set (ticked := fadd (Fixed.current_time (Fixed.view e)) Fixed.time_step) in *.
  clearbody ticked.
  set (v1 := if Qlt_bool 0 m
             then Fixed.set_max_time m (Fixed.set_current_time ticked (Fixed.view e))
             else Fixed.set_current_time ticked (Fixed.view e)).
  assert (H1 : 0 < Fixed.max_time v1 /\ Fixed.current_time v1 = ticked).
  { subst v1. destruct (Qlt_bool 0 m) eqn:E; cbn; [|split; [exact Hmt | reflexivity]].
    apply Qlt_bool_iff in E. split; [exact E | reflexivity]. }
  destruct H1 as [Hm1 Hc1]. clearbody v1.
  set (v2 := if Qlt_bool (Fixed.max_time v1) (Fixed.current_time v1)
             then Fixed.set_current_time 0 v1 else v1).
  assert (H2 : Fixed.max_time v2 = Fixed.max_time v1 /\
               0 <= Fixed.current_time v2 /\
               Fixed.current_time v2 <= Fixed.max_time v1).
  { subst v2. destruct (Qlt_bool _ _) eqn:E; cbn.
    - repeat split; lra.
    - unfold Qlt_bool in E. apply negb_false_iff in E. apply Qle_bool_iff in E.
      rewrite Hc1 in *. repeat split; lra. }
  destruct H2 as (Hm2 & Hc2 & Hle2). clearbody v2. rewrite Hm2.
  split; [exact Hc2|]. split; [exact Hle2|]. split; [exact Hm1|].
  apply slider_in_range; assumption.
Qed.

(** X15: the playback clock stays in range.  From an editor whose clock is
    not negative and whose [max_time] is positive (as at start: 0 and 10),
    after any number of timer ticks the clock is within [0, max_time],
    [max_time] is still positive and the slider value is within 0..1000. *)
Theorem playback_clock_in_range (e : Fixed.VehicleEditor) (n : nat) :
  0 <= Fixed.current_time (Fixed.view e) ->
  0 < Fixed.max_time (Fixed.view e) ->
  let e' := Nat.iter n Fixed.update_animation e in
  0 <= Fixed.current_time (Fixed.view e') /\
  0 < Fixed.max_time (Fixed.view e') /\
  ((0 < n)%nat ->
     Fixed.current_time (Fixed.view e') <= Fixed.max_time (Fixed.view e') /\
     (0 <= Fixed.time_slider (Fixed.view e') <= 1000)%Z).
Proof.
  intros Hct Hmt. cbv zeta. induction n as [|n IH].
  - cbn. repeat split; try assumption; lia.
  - rewrite Nat.iter_succ. destruct IH as (Hc & Hm & _).
    destruct (tick_in_range _ Hc Hm) as (H1 & H2 & H3 & H4).
    repeat split; try assumption; lia.
Qed.

Lemma playback_clock_in_range_witness :
  (0 <= Fixed.time_slider
          (Fixed.view (Nat.iter 2 Fixed.update_animation
                         (editor_with_vehicles [pausing_vehicle]))) <= 1000)%Z.
Proof.
  destruct (playback_clock_in_range (editor_with_vehicles [pausing_vehicle]) 2)
    as (_ & _ & H).
  - vm_compute. discriminate.
  - vm_compute. reflexivity.
  - apply H. lia.
Defined.



(** ** A completed export *)

(** X17: a completed export.  For a scene whose frames can be built,
    [export_video] returns normally; afterwards the store, the selection and
    [max_time] are as before, the overlay flag is back at its former value,
    the clock is 0 (not the time shown before the export), the scene is the
    one composed at time 0, and a message box announces the file.  A writer
    that is opened has received [int(max_time * 30)] frames, the product
    being the float product; a writer that is not opened has received none.
    When the file dialog is cancelled nothing happens at all. *)
Theorem export_completes (filename : string) (e : Fixed.VehicleEditor)
    (out : Fixed.VideoWriter) :
  frames_can_be_built e = true ->
  let n := Z.to_nat (Qfloor (fl (Fixed.max_time (Fixed.view e) * 30))) in
  Fixed.export_video None e out = (e, out, Returned) /\
  exists e' out',
    Fixed.export_video (Some filename) e out = (e', out', Returned) /\
    Fixed.store e' = Fixed.store e /\
    Fixed.selection e' = Fixed.selection e /\
    Fixed.max_time (Fixed.view e') = Fixed.max_time (Fixed.view e) /\
    Fixed.show_trajectory (Fixed.view e') = Fixed.show_trajectory (Fixed.view e) /\
    Fixed.current_time (Fixed.view e') = 0 /\
    Fixed.scene_items (Fixed.view e') = scene_at 0 e /\
    Fixed.dialogs e' = Fixed.dialogs e ++ [Fixed.InfoVideoExported filename] /\
    Fixed.written out'
    = Fixed.written out
      ++ (if Fixed.opened out then map (exported_frame 30 e) (seq 0 n) else []).
Proof.
  intros Hok n. split; [reflexivity|]. unfold Fixed.export_video.
  destruct (export_with_returns 30 (Fixed.max_time (Fixed.view e)) filename e out Hok)
    as (e1 & (Hstore & _ & Hplay) & Hd & Hsel & Hmt & Hrun).
  cbv zeta in Hrun. rewrite total_frames_spec in Hrun.
  change (inject_Z 30) with 30 in Hrun. fold n in Hrun.
  rewrite Hrun. eexists. eexists. split; [reflexivity|].
  cbn [Fixed.store Fixed.selection Fixed.view Fixed.dialogs Fixed.show_dialog
       Fixed.update_status].
  rewrite redraw_scene_store, redraw_scene_selection, redraw_scene_max_time,
    redraw_scene_show_trajectory, redraw_scene_current_time, redraw_scene_items.
  destruct (redraw_scene_keeps
              (Fixed.set_view
                 (Fixed.set_current_time 0
                    (Fixed.set_show_trajectory (Fixed.show_trajectory (Fixed.view e))
                                               (Fixed.view e1))) e1))
    as (_ & _ & _ & _ & Hdlg & _).
  rewrite Hdlg.
  cbn [Fixed.store Fixed.selection Fixed.view Fixed.dialogs Fixed.set_view
       Fixed.max_time Fixed.set_current_time Fixed.set_show_trajectory
       Fixed.show_trajectory Fixed.current_time].
  split; [exact Hstore|]. split; [exact Hsel|]. split; [exact Hmt|].
  split; [reflexivity|]. split; [reflexivity|]. split.
  { unfold scene_at. apply compose_scene_ext; [|reflexivity].
    split; [exact Hstore|]. split; [reflexivity | exact Hplay]. }
  split; [rewrite Hd; reflexivity|].
  rewrite write_all. destruct (Fixed.opened out); cbn [Fixed.written];
    [reflexivity | rewrite app_nil_r; reflexivity].
Qed.

Lemma export_completes_witness :
  exists e' out',
    Fixed.export_video (Some "out.mp4"%string) drawn_scene open_writer
    = (e', out', Returned) /\
    Fixed.current_time (Fixed.view e') = 0 /\
    length (Fixed.written out') = 300%nat.
Proof.
  destruct (export_completes "out.mp4" drawn_scene open_writer eq_refl)
    as (_ & e' & out' & Hrun & _ & _ & _ & _ & Hclock & _ & _ & Hw).
  exists e', out'. split; [exact Hrun|]. split; [exact Hclock|].
  rewrite Hw. cbn [open_writer Fixed.written Fixed.opened app].
  rewrite length_map, length_seq. vm_compute. reflexivity.
Defined.

(** ** What the project file holds *)

Lemma map_eq_transfer {A B C : Type} (f : A -> B) (g : A -> C) (l1 l2 : list A) :
  (forall a b, f a = f b -> g a = g b) ->
  map f l1 = map f l2 -> map g l1 = map g l2.
Proof.
  intro H. revert l2. induction l1 as [|a l1 IH]; intros [|b l2] Heq;
    try discriminate; [reflexivity|].
  cbn in Heq. injection Heq as Hab Hrest. cbn. f_equal; [apply H; exact Hab|].
  apply IH. exact Hrest.
Qed.

Lemma point_json_injective (p q : Fixed.TrajectoryPoint) :
  Fixed.point_json p = Fixed.point_json q -> p = q.
Proof.
  destruct p, q. unfold Fixed.point_json. cbn. intros [= -> -> -> ->]. reflexivity.
Qed.

(** X18: nothing that is saved is lost or merged.  Two stores with the
    same project document have, entity by entity and in the same order, the
    same road identifiers, positions and lock flags, the same vehicle
    identifiers, names, scales and waypoints, the same camera identifiers,
    positions and scales and the same text labels.  The three identifier
    counters are not part of the document. *)
Theorem project_data_faithful (s1 s2 : Fixed.EntityStore) :
  (Fixed.project_data s1 = Fixed.project_data s2 ->
   map road_saved (Fixed.roads s1) = map road_saved (Fixed.roads s2) /\
   map vehicle_saved (Fixed.vehicles s1) = map vehicle_saved (Fixed.vehicles s2) /\
   map camera_saved (Fixed.cameras s1) = map camera_saved (Fixed.cameras s2) /\
   Fixed.text_labels s1 = Fixed.text_labels s2) /\
  (forall nv nc nr,
     Fixed.project_data
       (Fixed.set_next_vehicle_id nv
          (Fixed.set_next_camera_id nc (Fixed.set_next_road_id nr s1)))
     = Fixed.project_data s1).
Proof.
  split; [|reflexivity].
  unfold Fixed.project_data. intros [= Hr Hv Hc Ht]. repeat split.
  - revert Hr. apply map_eq_transfer. intros a b [= Hid Hx Hy Hl].
    unfold road_saved. congruence.
  - revert Hv. apply map_eq_transfer. intros a b [= Hid Hn Hs Htr].
    unfold vehicle_saved. f_equal; [f_equal; [f_equal|]|]; try assumption.
    rewrite <- (map_id (Fixed.trajectory a)), <- (map_id (Fixed.trajectory b)).
    revert Htr. apply map_eq_transfer. intros p q. apply point_json_injective.
  - revert Hc. apply map_eq_transfer. intros a b [= Hid Hx Hy Hs].
    unfold camera_saved. congruence.
  - rewrite <- (map_id (Fixed.text_labels s1)), <- (map_id (Fixed.text_labels s2)).
    revert Ht. apply map_eq_transfer. intros a b [= Htxt Hx Hy Hf Hcol].
    destruct a, b. cbn in *. congruence.
Qed.

Lemma project_data_faithful_witness :
  map vehicle_saved
      (Fixed.vehicles (Fixed.store (editor_with_vehicles [pausing_vehicle])))
  = map vehicle_saved
      (Fixed.vehicles
         (Fixed.set_next_vehicle_id 7
            (Fixed.store (editor_with_vehicles [pausing_vehicle])))).
Proof.
  apply (proj1 (project_data_faithful
                  (Fixed.store (editor_with_vehicles [pausing_vehicle]))
                  (Fixed.set_next_vehicle_id 7
                     (Fixed.store (editor_with_vehicles [pausing_vehicle]))))).
  reflexivity.
Defined.

(** ** Redrawing *)

(** X19: [redraw_scene] reads without writing.  It leaves the store, the
    selection, the status line, the message boxes, the clock, [max_time]
    and both flags as they are, and redrawing twice gives the same editor
    as redrawing once. *)
Theorem redraw_scene_is_idempotent (e : Fixed.VehicleEditor) :
  Fixed.redraw_scene (Fixed.redraw_scene e) = Fixed.redraw_scene e /\
  Fixed.store (Fixed.redraw_scene e) = Fixed.store e /\
  Fixed.selection (Fixed.redraw_scene e) = Fixed.selection e /\
  Fixed.dialogs (Fixed.redraw_scene e) = Fixed.dialogs e /\
  Fixed.current_time (Fixed.view (Fixed.redraw_scene e)) = Fixed.current_time (Fixed.view e) /\
  Fixed.is_playing (Fixed.view (Fixed.redraw_scene e)) = Fixed.is_playing (Fixed.view e) /\
  Fixed.show_trajectory (Fixed.view (Fixed.redraw_scene e))
  = Fixed.show_trajectory (Fixed.view e).
Proof.
  split.
  - destruct e as [s a v sel st d]. destruct v as [lm tm ct mt ip sh ts items rect].
    unfold Fixed.redraw_scene. cbn [Fixed.store Fixed.set_view Fixed.view
                                    Fixed.set_scene_items Fixed.set_scene_rect].
    destruct (py_max_of (map Fixed.road_right (Fixed.roads s))) as [mx|] eqn:E1;
      destruct (py_max_of (map Fixed.road_bottom (Fixed.roads s))) as [my|] eqn:E2;
      cbn [Fixed.store Fixed.set_view Fixed.view Fixed.set_scene_items
           Fixed.set_scene_rect Fixed.assets Fixed.selection Fixed.status_label
           Fixed.dialogs Fixed.left_margin Fixed.top_margin Fixed.current_time
           Fixed.max_time Fixed.is_playing Fixed.show_trajectory Fixed.time_slider
           Fixed.scene_items Fixed.scene_rect];
      rewrite ?E1, ?E2; reflexivity.
  - destruct (redraw_scene_keeps e) as (H1 & _ & H2 & _ & H3 & H4 & _ & H5 & H6 & _).
    repeat split; assumption.
Qed.

(** ** Locking and dragging *)

(** X20: locking protects the selected road and nothing else changes.
    After the operator locks the selected road, every road has the
    identifier and the position it had, the other roads are untouched, a
    drag of the locked road and a removal request leave the store as it
    is; after unlocking it again a drag moves it to where it is dropped. *)
Theorem locking_protects_selected_road (e : Fixed.VehicleEditor) (i : nat)
    (road : Fixed.Road) :
  Fixed.selected_road (Fixed.selection e) = Some i ->
  nth_error (Fixed.roads (Fixed.store e)) i = Some road ->
  let locked_e := Fixed.toggle_lock_road true e in
  let unlocked_e := Fixed.toggle_lock_road false locked_e in
  map (fun r => (Fixed.r_id r, Fixed.r_x r, Fixed.r_y r)) (Fixed.roads (Fixed.store locked_e))
  = map (fun r => (Fixed.r_id r, Fixed.r_x r, Fixed.r_y r)) (Fixed.roads (Fixed.store e)) /\
  (forall j, j <> i ->
     nth_error (Fixed.roads (Fixed.store locked_e)) j
     = nth_error (Fixed.roads (Fixed.store e)) j) /\
  (forall px py,
     Fixed.store (Fixed.road_mouse_release i px py locked_e) = Fixed.store locked_e) /\
  (forall reply, Fixed.store (Fixed.remove_road reply locked_e) = Fixed.store locked_e) /\
  (forall px py,
     nth_error (Fixed.roads (Fixed.store (Fixed.road_mouse_release i px py unlocked_e))) i
     = Some {| Fixed.r_id := Fixed.r_id road; Fixed.r_pixmap := Fixed.r_pixmap road;
               Fixed.r_x := px; Fixed.r_y := py; Fixed.locked := false |}).
Proof.
  intros Hsel Hroad. cbv zeta.
  assert (Hlock : forall b e0 r0,
            Fixed.selected_road (Fixed.selection e0) = Some i ->
            nth_error (Fixed.roads (Fixed.store e0)) i = Some r0 ->
            Fixed.store (Fixed.toggle_lock_road b e0)
            = Fixed.set_roads (update_at i (Fixed.set_locked b) (Fixed.roads (Fixed.store e0)))
                              (Fixed.store e0) /\
            Fixed.selection (Fixed.toggle_lock_road b e0) = Fixed.selection e0 /\
            nth_error (Fixed.roads (Fixed.store (Fixed.toggle_lock_road b e0))) i
            = Some (Fixed.set_locked b r0)).
  { intros b e0 r0 H1 H2. unfold Fixed.toggle_lock_road, Fixed.the_selected_road.
    rewrite H1, H2. cbn. repeat split.
    rewrite nth_error_update_at, Nat.eqb_refl, H2. reflexivity. }
  destruct (Hlock true e road Hsel Hroad) as (Hstore & Hselection & Hnth).
  destruct (Hlock false (Fixed.toggle_lock_road true e) (Fixed.set_locked true road)
              ltac:(rewrite Hselection; exact Hsel) Hnth) as (_ & _ & Hnth2).
  split; [|split; [|split; [|split]]].
  - rewrite Hstore. cbn [Fixed.roads Fixed.set_roads].
    apply map_update_at_same. reflexivity.
  - intros j Hj. rewrite Hstore. cbn [Fixed.roads Fixed.set_roads].
    rewrite nth_error_update_at.
    replace (j =? i)%nat with false by (symmetry; apply Nat.eqb_neq; exact Hj).
    reflexivity.
  - intros px py. unfold Fixed.road_mouse_release. rewrite Hnth. reflexivity.
  - intros reply. unfold Fixed.remove_road, Fixed.the_selected_road.
    rewrite Hselection, Hsel, Hnth. reflexivity.
  - intros px py. unfold Fixed.road_mouse_release. rewrite Hnth2. cbn.
    rewrite nth_error_update_at, Nat.eqb_refl, Hnth2. reflexivity.
Qed.

Lemma locking_protects_selected_road_witness :
  Fixed.store (Fixed.road_mouse_release 0 5 7
                 (Fixed.toggle_lock_road true (Fixed.on_road_selected 0 two_roads_editor)))
  = Fixed.store (Fixed.toggle_lock_road true (Fixed.on_road_selected 0 two_roads_editor)).
Proof.
  apply (locking_protects_selected_road (Fixed.on_road_selected 0 two_roads_editor) 0
           (scenario_road 0 200 0 false) eq_refl eq_refl).
Defined.

(** X21: dragging a vehicle.  Releasing vehicle [i] with the corner of
    its item at [(px, py)] puts a vehicle with at most one waypoint at the
    centre of the item - it then has exactly one waypoint and is there at
    every time - and does nothing to a vehicle with two or more waypoints;
    identifiers, the other vehicles, the roads and the cameras are
    untouched. *)
Theorem vehicle_drag_places (i : nat) (px py : Q) (item : Pixmap)
    (e : Fixed.VehicleEditor) (v : Fixed.Vehicle) :
  nth_error (Fixed.vehicles (Fixed.store e)) i = Some v ->
  let e' := Fixed.vehicle_mouse_release i px py item e in
  let centre := (px + inject_Z (width item) / 2, py + inject_Z (height item) / 2) in
  (exists v', nth_error (Fixed.vehicles (Fixed.store e')) i = Some v' /\
              Fixed.v_id v' = Fixed.v_id v /\
              ((length (Fixed.trajectory v) <= 1)%nat ->
                 length (Fixed.trajectory v') = 1%nat /\
                 forall t, Fixed.get_position_at_time (Fixed.trajectory v') t = centre) /\
              ((2 <= length (Fixed.trajectory v))%nat -> v' = v)) /\
  (forall j, j <> i ->
     nth_error (Fixed.vehicles (Fixed.store e')) j
     = nth_error (Fixed.vehicles (Fixed.store e)) j) /\
  Fixed.roads (Fixed.store e') = Fixed.roads (Fixed.store e) /\
  Fixed.cameras (Fixed.store e') = Fixed.cameras (Fixed.store e).
Proof.
  intro Hv. cbv zeta. unfold Fixed.vehicle_mouse_release. cbv zeta.
  cbn [Fixed.store Fixed.set_store Fixed.vehicles Fixed.set_vehicles Fixed.roads
       Fixed.cameras].
  split; [|split; [|split; reflexivity]].
  - rewrite nth_error_update_at, Nat.eqb_refl, Hv. cbn [option_map].
    eexists. split; [reflexivity|].
    destruct (Fixed.trajectory v) as [|p [|q rest]] eqn:E; cbn [length].
    + split; [destruct v; reflexivity|]. split.
      * intros _. split; [destruct v; reflexivity|].
        intro t. destruct v; reflexivity.
      * intro H. lia.
    + split; [destruct v; reflexivity|]. split.
      * intros _. split; [destruct v; reflexivity|].
        intro t. destruct v; reflexivity.
      * intro H. lia.
    + split; [reflexivity|]. split; [intro H; lia | reflexivity].
  - intros j Hj. rewrite nth_error_update_at.
    replace (j =? i)%nat with false by (symmetry; apply Nat.eqb_neq; exact Hj).
    reflexivity.
Qed.

Lemma vehicle_drag_places_witness :
  exists v',
    nth_error (Fixed.vehicles (Fixed.store
                 (Fixed.vehicle_mouse_release 0 10 20 car_pixmap
                    (editor_with_vehicles [pausing_vehicle])))) 0 = Some v' /\
    v' = pausing_vehicle.
Proof.
  destruct (vehicle_drag_places 0 10 20 car_pixmap
              (editor_with_vehicles [pausing_vehicle]) pausing_vehicle eq_refl)
    as ((v' & Hn & _ & _ & Hsame) & _).
  exists v'. split; [exact Hn|]. apply Hsame. cbn. lia.
Defined.

(** ** The first editor: identifiers and playback *)

Lemma dict_has_set (k key : Z) (x : Position) (d : list (Z * Position)) :
  WithAssets.dict_has k (WithAssets.dict_set key x d)
  = WithAssets.dict_has k d || Z.eqb key k.
Proof.
  unfold WithAssets.dict_has. induction d as [|[k0 v0] d IH]; cbn.
  - rewrite orb_false_r. reflexivity.
  - destruct (Z.eqb k0 key) eqn:E; cbn.
    + apply Z.eqb_eq in E. subst k0.
      destruct (Z.eqb key k); cbn; [reflexivity|]. rewrite orb_false_r. reflexivity.
    + rewrite IH. rewrite orb_assoc. reflexivity.
Qed.

Lemma dict_get_set_same (key : Z) (x : Position) (d : list (Z * Position)) :
  WithAssets.dict_get key (WithAssets.dict_set key x d) = Some x.
Proof.
  induction d as [|[k0 v0] d IH]; cbn.
  - rewrite Z.eqb_refl. reflexivity.
  - destruct (Z.eqb k0 key) eqn:E; cbn.
    + rewrite Z.eqb_refl. reflexivity.
    + rewrite E. exact IH.
Qed.

Lemma dict_get_set_other (k key : Z) (x : Position) (d : list (Z * Position)) :
  k <> key ->
  WithAssets.dict_get k (WithAssets.dict_set key x d) = WithAssets.dict_get k d.
Proof.
  intro Hk. induction d as [|[k0 v0] d IH]; cbn.
  - replace (Z.eqb key k) with false by (symmetry; apply Z.eqb_neq; congruence).
    reflexivity.
  - destruct (Z.eqb k0 key) eqn:E; cbn.
    + apply Z.eqb_eq in E. subst k0.
      replace (Z.eqb key k) with false by (symmetry; apply Z.eqb_neq; congruence).
      reflexivity.
    + rewrite IH. reflexivity.
Qed.

Lemma first_editor_position_some (traj : list WithAssets.TrajectoryPoint) (t : Q) :
  traj <> [] -> exists xy, WithAssets.get_position_at_time traj t = Some xy.
Proof.
  intro Hne. destruct traj as [|first rest]; [congruence|].
  unfold WithAssets.get_position_at_time.
  destruct (Qle_bool t 0); [eexists; reflexivity|].
  destruct (Qle_bool _ t); [eexists; reflexivity|].
  destruct (for_return _ _); eexists; reflexivity.
Qed.

(** The loop over the vehicles moves every item to its vehicle's position and
    keeps the keys of the dictionary. *)
Lemma place_items_spec (t : Q) (vs : list WithAssets.Vehicle) :
  forall items,
    NoDup (map WithAssets.v_id vs) ->
    Forall (fun v => WithAssets.dict_has (WithAssets.v_id v) items = true /\
                     WithAssets.trajectory v <> []) vs ->
    exists items',
      WithAssets.place_items t vs items = Some items' /\
      (forall k, WithAssets.dict_has k items' = WithAssets.dict_has k items) /\
      (forall v, In v vs ->
         WithAssets.dict_get (WithAssets.v_id v) items'
         = WithAssets.get_position_at_time (WithAssets.trajectory v) t) /\
      (forall k, ~ In k (map WithAssets.v_id vs) ->
         WithAssets.dict_get k items' = WithAssets.dict_get k items).
Proof.
  induction vs as [|v rest IH]; intros items Hnd Hall.
  - exists items. cbn. repeat split; intros; try reflexivity. contradiction.
  - cbn [map] in Hnd. inversion Hnd as [|id ids Hnotin Hnd' E]; subst.
    inversion Hall as [|v0 l0 [Hhas Hne] Hrest E]; subst.
    destruct (first_editor_position_some (WithAssets.trajectory v) t Hne) as [xy Hxy].
    set (items1 := WithAssets.dict_set (WithAssets.v_id v) xy items).
    assert (Hhas1 : forall k, WithAssets.dict_has k items1 = WithAssets.dict_has k items).
    { intro k. unfold items1. rewrite dict_has_set.
      destruct (Z.eqb (WithAssets.v_id v) k) eqn:E.
      - apply Z.eqb_eq in E. subst k. rewrite Hhas. reflexivity.
      - apply orb_false_r. }
    destruct (IH items1 Hnd') as (items' & Hplace & Hkeys & Hpos & Hother).
    { eapply Forall_impl; [|exact Hrest]. intros w [Hw1 Hw2]. split; [|exact Hw2].
      rewrite Hhas1. exact Hw1. }
    exists items'. cbn [WithAssets.place_items]. rewrite Hhas, Hxy. fold items1.
    split; [exact Hplace|]. split; [|split].
    + intro k. rewrite Hkeys. apply Hhas1.
    + intros w [<-|Hw]; [|apply Hpos; exact Hw].
      rewrite (Hother _ Hnotin). unfold items1. rewrite dict_get_set_same.
      symmetry. exact Hxy.
    + intros k Hk. cbn [map In] in Hk.
      rewrite Hother by (intro; apply Hk; right; assumption).
      unfold items1. apply dict_get_set_other. intro; apply Hk; left; congruence.
Qed.

Lemma indices_nodup (n : nat) : NoDup (map Z.of_nat (seq 0 n)).
Proof.
  generalize 0%nat as s. induction n as [|n IH]; intro s; cbn; constructor.
  - intro Hin. apply in_map_iff in Hin. destruct Hin as (k & Hk & Hin).
    apply in_seq in Hin. lia.
  - apply IH.
Qed.

Lemma Forall_update_at {A : Type} (P : A -> Prop) (f : A -> A) (i : nat) (l : list A) :
  (forall a, P a -> P (f a)) -> Forall P l -> Forall P (update_at i f l).
Proof.
  intros Hf. revert i. induction l as [|a l IH]; intros i Hl; [destruct i; exact Hl|].
  inversion Hl; subst. destruct i as [|i]; cbn; constructor; auto.
Qed.

Lemma step_ids_are_indices (a : WithAssets.Action) (e : WithAssets.VehicleEditor) :
  ids_are_indices e -> ids_are_indices (WithAssets.step a e).
Proof.
  intros [Hids Hall]. destruct a as [[pm|]|i x y time|[name|] data|value];
    cbn [WithAssets.step]; try (split; assumption).
  - unfold WithAssets.add_vehicle_to_scene, ids_are_indices.
    cbn [WithAssets.vehicles WithAssets.vehicle_items WithAssets.v_id
         WithAssets.trajectory].
    split.
    + rewrite map_app, length_app, Hids. cbn [length map].
      rewrite Nat.add_1_r, seq_S, map_app. reflexivity.
    + apply Forall_app. split.
      * eapply Forall_impl; [|exact Hall]. intros w [Hw1 Hw2]. split; [|exact Hw2].
        rewrite dict_has_set, Hw1. reflexivity.
      * constructor; [|constructor]. split; [|discriminate].
        rewrite dict_has_set, Z.eqb_refl. apply orb_true_r.
  - unfold WithAssets.mousePressEvent, ids_are_indices.
    cbn [WithAssets.vehicles WithAssets.vehicle_items].
    rewrite length_update_at. split.
    + rewrite map_update_at_same; [exact Hids | reflexivity].
    + apply Forall_update_at; [|exact Hall]. intros w [Hw1 Hw2]. split; [exact Hw1|].
      cbn. intro H. apply app_eq_nil in H. destruct H as [_ H]. discriminate.
  - assert (Hc : ids_are_indices (WithAssets.cleared e)).
    { split; [reflexivity | constructor]. }
    unfold WithAssets.load_project.
    destruct data as [| | | |fields]; try exact Hc;
      try (destruct (json_get _ _) as [[| | | |]|]; exact Hc).
Qed.

Lemma run_ids_are_indices (acts : list WithAssets.Action) :
  forall e, ids_are_indices e -> ids_are_indices (WithAssets.run acts e).
Proof.
  unfold WithAssets.run. induction acts as [|a acts IH]; intros e He; [exact He|].
  cbn [fold_left]. apply IH. apply step_ids_are_indices. exact He.
Qed.

Lemma ids_are_indices_lookup (e : WithAssets.VehicleEditor) (i : nat) (v : WithAssets.Vehicle) :
  ids_are_indices e ->
  nth_error (WithAssets.vehicles e) i = Some v -> WithAssets.v_id v = Z.of_nat i.
Proof.
  intros [Hids _] Hnth.
  assert (Hi : (i < length (WithAssets.vehicles e))%nat).
  { apply nth_error_Some. congruence. }
  assert (H1 : nth_error (map WithAssets.v_id (WithAssets.vehicles e)) i
               = Some (WithAssets.v_id v)).
  { rewrite nth_error_map, Hnth. reflexivity. }
  rewrite Hids, nth_error_map, nth_error_seq in H1.
  destruct (Nat.ltb_spec i (length (WithAssets.vehicles e))) as [_|Hge]; [|lia].
  cbn in H1. congruence.
Qed.

(** X22: identifiers of the first editor.  Whatever vehicles are added,
    trajectory points clicked, projects loaded and durations set, starting
    from the fresh editor, the identifier of every vehicle is its place in
    [self.vehicles]: identifiers are pairwise distinct, the lookup
    [self.vehicles[vehicle_id]] of [start_trajectory_edit] returns the
    vehicle that carries the identifier, and every vehicle has its graphics
    item and at least one waypoint. *)
Theorem first_editor_ids_are_indices (acts : list WithAssets.Action) :
  let e := WithAssets.run acts WithAssets.init_editor in
  NoDup (map WithAssets.v_id (WithAssets.vehicles e)) /\
  (forall i v, nth_error (WithAssets.vehicles e) i = Some v ->
               WithAssets.v_id v = Z.of_nat i) /\
  (forall v, In v (WithAssets.vehicles e) ->
     nth_error (WithAssets.vehicles e) (Z.to_nat (WithAssets.v_id v)) = Some v /\
     WithAssets.dict_has (WithAssets.v_id v) (WithAssets.vehicle_items e) = true /\
     WithAssets.trajectory v <> []).
Proof.
  cbv zeta.
  assert (Hinv : ids_are_indices (WithAssets.run acts WithAssets.init_editor)).
  { apply run_ids_are_indices. split; [reflexivity | constructor]. }
  split; [|split].
  - destruct Hinv as [-> _]. apply indices_nodup.
  - intros i v. apply ids_are_indices_lookup. exact Hinv.
  - intros v Hin. destruct (In_nth_error _ _ Hin) as [i Hi].
    split.
    + rewrite (ids_are_indices_lookup _ i v Hinv Hi), Nat2Z.id. exact Hi.
    + destruct Hinv as [_ Hall]. rewrite Forall_forall in Hall. exact (Hall v Hin).
Qed.

(** X23: a tick of the first editor.  With [max_time = 0] the tick raises
    (division by zero).  With a positive [max_time], a clock that is not
    negative and vehicles whose identifiers are their places, the tick
    returns; the clock is then in [[0, max_time)], the slider in
    [[0, 999]], the vehicles are as they were, no item is added or dropped
    and the item of every vehicle sits at the vehicle's position at the new
    time. *)
Theorem first_editor_tick (e : WithAssets.VehicleEditor) (p : WithAssets.Playback) :
  (WithAssets.max_time e == 0 -> WithAssets.update_animation e p = None) /\
  (0 < WithAssets.max_time e -> 0 <= WithAssets.current_time p -> ids_are_indices e ->
   exists e' p',
     WithAssets.update_animation e p = Some (e', p') /\
     0 <= WithAssets.current_time p' /\
     WithAssets.current_time p' < WithAssets.max_time e' /\
     (0 <= WithAssets.time_slider p' <= 999)%Z /\
     WithAssets.vehicles e' = WithAssets.vehicles e /\
     WithAssets.max_time e' = WithAssets.max_time e /\
     (forall k, WithAssets.dict_has k (WithAssets.vehicle_items e')
                = WithAssets.dict_has k (WithAssets.vehicle_items e)) /\
     (forall v, In v (WithAssets.vehicles e) ->
        WithAssets.dict_get (WithAssets.v_id v) (WithAssets.vehicle_items e')
        = WithAssets.get_position_at_time (WithAssets.trajectory v)
            (WithAssets.current_time p'))).
Proof.
  split.
  - intro Hz. unfold WithAssets.update_animation. cbv zeta.
    apply Qeq_bool_iff in Hz. rewrite Hz. reflexivity.
  - intros Hmax Hct [Hids Hall]. unfold WithAssets.update_animation. cbv zeta.
    set (ct := if Qle_bool (WithAssets.max_time e) (WithAssets.current_time p + (33 # 1000))
               then 0 else WithAssets.current_time p + (33 # 1000)).
    assert (Hrange : 0 <= ct /\ ct < WithAssets.max_time e).
    { unfold ct. destruct (Qle_bool _ _) eqn:E.
      - split; lra.
      - apply Qle_bool_false_iff in E. split; lra. }
    clearbody ct. destruct Hrange as [Hct0 Hct1].
    destruct (Qeq_bool (WithAssets.max_time e) 0) eqn:Ez.
    { apply Qeq_bool_iff in Ez. lra. }
    destruct (place_items_spec ct (WithAssets.vehicles e) (WithAssets.vehicle_items e))
      as (items' & Hplace & Hkeys & Hpos & _).
    { rewrite Hids. apply indices_nodup. }
    { exact Hall. }
    rewrite Hplace. eexists. eexists. split; [reflexivity|].
    cbn [WithAssets.current_time WithAssets.time_slider WithAssets.vehicles
         WithAssets.max_time WithAssets.vehicle_items].
    split; [exact Hct0|]. split; [exact Hct1|]. split.
    + set (q := ct / WithAssets.max_time e * 1000).
      assert (Hq : 0 <= q /\ q < 1000).
      { unfold q. assert (Hr : 0 <= ct / WithAssets.max_time e /\ ct / WithAssets.max_time e < 1).
        { split.
          - apply Qle_shift_div_l; lra.
          - apply Qlt_shift_div_r; lra. }
        lra. }
      clearbody q. destruct Hq as [Hq0 Hq1].
      destruct (py_int_range q Hq0 ltac:(lra)) as [Hlo Hhi]. split; [exact Hlo|].
      assert (Hne : py_int q <> 1000%Z).
      { intro Heq. assert (Hfl : py_int q = Qfloor q).
        { destruct q as [n d]. unfold py_int, Qfloor. cbn [Qnum Qden].
          apply Z.quot_div_nonneg; [|lia]. unfold Qle in Hq0. cbn in Hq0. lia. }
        pose proof (Qfloor_le q) as Hf. rewrite <- Hfl, Heq in Hf.
        change (inject_Z 1000) with 1000 in Hf. lra. }
      lia.
    + repeat split; [exact Hkeys | exact Hpos].
Qed.

Lemma first_editor_tick_witness :
  exists e' p',
    WithAssets.update_animation two_cars
      {| WithAssets.current_time := 1; WithAssets.time_slider := 100 |} = Some (e', p') /\
    WithAssets.current_time p' < WithAssets.max_time e'.
Proof.
  destruct (proj2 (first_editor_tick two_cars
              {| WithAssets.current_time := 1; WithAssets.time_slider := 100 |}))
    as (e' & p' & H1 & _ & H2 & _).
  - reflexivity.
  - discriminate.
  - split; [reflexivity|]. repeat constructor; discriminate.
  - exists e', p'. split; assumption.
Defined.

Lemma first_editor_ids_are_indices_witness :
  NoDup (map WithAssets.v_id (WithAssets.vehicles two_cars)).
Proof.
  exact (proj1 (first_editor_ids_are_indices
           [WithAssets.ActAddVehicle (Some car_pixmap);
            WithAssets.ActAddVehicle (Some car_pixmap);
            WithAssets.ActTrajectoryClick 0 300 100 2])).
Defined.
